(** * Dragon Curve Explorer: a shallow embedding of the canvas page

    The page script generates an L-system string, walks it with a 2D and a
    3D turtle, projects the 3D points through a small camera model and
    strokes the segments on a canvas, optionally as a timed animation.

    Conventions of the embedding.
    - JavaScript numbers that hold counts, indices, colour channels and
      bit patterns are integers ([Z], [nat]); bit operations are written
      with [Z.shiftr] and [Z.land] after the 32-bit wrap of [ToInt32].
    - JavaScript numbers that hold coordinates, angles and zoom factors are
      mathematical reals ([R]) with [cos], [sin], [exp] and [sqrt] of the
      Standard Library: arithmetic is exact, the rounding of IEEE doubles
      and the values [NaN] and [Infinity] are outside the model (the one
      use of [Infinity], the initial bounding-box fold, has its own type).
      Where a statement turns on the rounding, the two projectors are
      embedded a second time on binary64 doubles ([Doubles]), with
      [Math.cos] and [Math.sin] as a parameter.
    - The module-level [let] variables and the DOM properties the script
      reads and writes form one explicit [State] record; every handler is a
      function from state to state, and canvas calls are appended to a log
      kept in the state. *)

From Stdlib Require Import ZArith List Bool Ascii String Lia.
From Stdlib Require Import Reals Lra.
From Stdlib Require PrimFloat.
From stdpp Require Import gmap.
Import ListNotations.

Local Open Scope Z_scope.
Local Open Scope string_scope.

(** ** L-system generation *)

Module LSystem.

(** The body of the inner [for (const ch of str)] loop: what one symbol
    appends to [next]. *)
Definition rewriteSymbol (ch : ascii) : string :=
  if Ascii.eqb ch "F" then "F+G"
  else if Ascii.eqb ch "G" then "F-G"
  else String ch "".

(** One pass of the outer loop body: [next] starts empty and grows by
    concatenation, symbol by symbol. *)
Definition rewritePass (str : string) : string :=
  fold_left (fun next ch => next ++ rewriteSymbol ch)
            (list_ascii_of_string str) "".

(** [for (let i = 0; i < n; i++) { ...; str = next; }] run [k] times. *)
Fixpoint iterate (k : nat) (str : string) : string :=
  match k with
  | O => str
  | S k' => iterate k' (rewritePass str)
  end.

(** The loop of [generateLSystem] from the axiom: the guard [i < n] holds
    [max 0 n] times, so a negative [n] leaves the axiom as it is. *)
Definition expand (n : Z) : string := iterate (Z.to_nat n) "F".

(** JavaScript truthiness of a string: only the empty string is falsy. *)
Definition truthy (s : string) : bool := negb (String.eqb s "").

(** [generateLSystem(n)] with the module-level [lSystemCache] threaded
    through: a truthy cache entry is returned as it is, otherwise the string
    is computed and stored under [n]. *)
Definition generateLSystem (cache : gmap Z string) (n : Z)
  : string * gmap Z string :=
  match cache !! n with
  | Some s =>
      if truthy s then (s, cache)
      else (expand n, <[n := expand n]> cache)
  | None => (expand n, <[n := expand n]> cache)
  end.

(** How a call ends: the script has no [throw], and the body of
    [generateLSystem] only reads a property of a plain object and
    concatenates strings, so a call always completes with its return
    value. [InvalidArgument] is the abrupt completion the specification
    speaks of. *)
Inductive completion : Type :=
| Returns (s : string)
| InvalidArgument.

Definition callGenerateLSystem (cache : gmap Z string) (n : Z) : completion :=
  Returns (fst (generateLSystem cache n)).

(** Every cached entry is the expansion for its key: what the cache holds
    after any sequence of calls from the empty cache. *)
Definition cache_ok (cache : gmap Z string) : Prop :=
  forall k s, cache !! k = Some s -> s = expand k.

(** The cache after the calls [generateLSystem(n)] for the [n] of a list,
    in order, on a freshly loaded page. *)
Definition cacheAfter (calls : list Z) : gmap Z string :=
  fold_left (fun cache n => snd (generateLSystem cache n)) calls ∅.

(** Number of forward-draw symbols of a string. *)
Definition isForward (ch : ascii) : bool :=
  Ascii.eqb ch "F" || Ascii.eqb ch "G".

Definition countForward (str : string) : nat :=
  List.length (List.filter isForward (list_ascii_of_string str)).

End LSystem.

(** ** Turtle geometry: the 2D and the 3D projector *)

Module Turtle.
Local Open Scope R_scope.

Definition Point2D : Type := R * R.
Definition Point3D : Type := R * R * R.

(** The local variables of [get2DPoints]. *)
Record Turtle2D : Type := mkTurtle2D {
  x2 : R;
  y2 : R;
  direction : R;
  points2 : list Point2D
}.

(** One round of [for (const ch of str)] in [get2DPoints]. *)
Definition step2D (angleRad : R) (t : Turtle2D) (ch : ascii) : Turtle2D :=
  if Ascii.eqb ch "F" || Ascii.eqb ch "G" then
    let x := x2 t + cos (direction t) in
    let y := y2 t + sin (direction t) in
    mkTurtle2D x y (direction t) (points2 t ++ [(x, y)])
  else if Ascii.eqb ch "+" then
    mkTurtle2D (x2 t) (y2 t) (direction t + angleRad) (points2 t)
  else if Ascii.eqb ch "-" then
    mkTurtle2D (x2 t) (y2 t) (direction t - angleRad) (points2 t)
  else t.

Definition get2DPoints (str : string) (angleDeg : R) : list Point2D :=
  let angleRad := (angleDeg * PI) / 180 in
  points2 (fold_left (step2D angleRad) (list_ascii_of_string str)
                     (mkTurtle2D 0 0 0 [(0, 0)])).

(** 3x3 matrices as three rows of three entries, read by index as the
    source does. *)
Definition Vec3 : Type := R * R * R.
Definition Mat3 : Type := Vec3 * Vec3 * Vec3.

Definition vget (v : Vec3) (i : nat) : R :=
  let '(a, b, c) := v in
  match i with O => a | S O => b | _ => c end.

Definition mget (m : Mat3) (i j : nat) : R :=
  let '(r0, r1, r2) := m in
  vget (match i with O => r0 | S O => r1 | _ => r2 end) j.

Definition getRotationZ (angle : R) : Mat3 :=
  let c := cos angle in
  let s := sin angle in
  ((c, - s, 0),
   (s, c, 0),
   (0, 0, 1)).

Definition getRotationX (angle : R) : Mat3 :=
  let c := cos angle in
  let s := sin angle in
  ((1, 0, 0),
   (0, c, - s),
   (0, s, c)).

(** The innermost loop of [matMul]: [sum] starts at 0 and takes the three
    products in the order k = 0, 1, 2. *)
Definition matMulEntry (A B : Mat3) (i j : nat) : R :=
  fold_left (fun sum k => sum + mget A i k * mget B k j) [0; 1; 2]%nat 0.

Definition matMul (A B : Mat3) : Mat3 :=
  ((matMulEntry A B 0 0, matMulEntry A B 0 1, matMulEntry A B 0 2),
   (matMulEntry A B 1 0, matMulEntry A B 1 1, matMulEntry A B 1 2),
   (matMulEntry A B 2 0, matMulEntry A B 2 1, matMulEntry A B 2 2)).

Definition applyMat (mat : Mat3) (vec : Vec3) : Vec3 :=
  (mget mat 0 0 * vget vec 0 + mget mat 0 1 * vget vec 1 + mget mat 0 2 * vget vec 2,
   mget mat 1 0 * vget vec 0 + mget mat 1 1 * vget vec 1 + mget mat 1 2 * vget vec 2,
   mget mat 2 0 * vget vec 0 + mget mat 2 1 * vget vec 1 + mget mat 2 2 * vget vec 2).

Definition identity3 : Mat3 :=
  ((1, 0, 0),
   (0, 1, 0),
   (0, 0, 1)).

(** The local variables of [get3DPoints]. *)
Record Turtle3D : Type := mkTurtle3D {
  orientation : Mat3;
  x3 : R;
  y3 : R;
  z3 : R;
  points3 : list Point3D
}.

(** One round of [for (const ch of str)] in [get3DPoints]. *)
Definition step3D (plusRot minusRot : Mat3) (extrude : R)
    (t : Turtle3D) (ch : ascii) : Turtle3D :=
  if Ascii.eqb ch "F" || Ascii.eqb ch "G" then
    let dir := applyMat (orientation t) (1, 0, 0) in
    let x := x3 t + vget dir 0 in
    let y := y3 t + vget dir 1 in
    let z := z3 t + vget dir 2 in
    let z := z + extrude in
    mkTurtle3D (orientation t) x y z (points3 t ++ [(x, y, z)])
  else if Ascii.eqb ch "+" then
    mkTurtle3D (matMul (orientation t) plusRot) (x3 t) (y3 t) (z3 t) (points3 t)
  else if Ascii.eqb ch "-" then
    mkTurtle3D (matMul (orientation t) minusRot) (x3 t) (y3 t) (z3 t) (points3 t)
  else t.

Definition get3DPoints (str : string) (angleDeg twistDeg extrude : R)
  : list Point3D :=
  let angleRad := (angleDeg * PI) / 180 in
  let twistRad := (twistDeg * PI) / 180 in
  let plusRot := matMul (getRotationZ angleRad) (getRotationX twistRad) in
  let minusRot := matMul (getRotationZ (- angleRad)) (getRotationX twistRad) in
  points3 (fold_left (step3D plusRot minusRot extrude)
                     (list_ascii_of_string str)
                     (mkTurtle3D identity3 0 0 0 [(0, 0, 0)])).

(** Dropping the third coordinate of a 3D point. *)
Definition flatten (p : Point3D) : Point2D :=
  let '(x, y, _) := p in (x, y).

(** The invariant that ties the two walks when twist and extrusion are 0:
    the 3D turtle mirrors the 2D turtle: its frame is the z-rotation by
    the 2D heading, it stays in the plane z = 0 and its points flatten to
    the 2D points. *)
Definition mirrors (t2 : Turtle2D) (t3 : Turtle3D) : Prop :=
  orientation t3 = getRotationZ (direction t2)
  /\ x3 t3 = x2 t2 /\ y3 t3 = y2 t2 /\ z3 t3 = 0
  /\ map flatten (points3 t3) = points2 t2.

End Turtle.

(** ** Colour utilities *)

Module Colour.
Local Open Scope Z_scope.

Definition RGB : Type := Z * Z * Z.

(** *** Integers and strings *)

Definition hexDigit (d : Z) : ascii :=
  match d with
  | 0 => "0" | 1 => "1" | 2 => "2" | 3 => "3" | 4 => "4" | 5 => "5"
  | 6 => "6" | 7 => "7" | 8 => "8" | 9 => "9" | 10 => "a" | 11 => "b"
  | 12 => "c" | 13 => "d" | 14 => "e" | _ => "f"
  end%char.

(** Digits of a non-negative integer in base 16, most significant first;
    the fuel is the bit length, never fewer than the number of digits. *)
Fixpoint hexDigits (fuel : nat) (n : Z) (acc : string) : string :=
  match fuel with
  | O => acc
  | S fuel' =>
      let acc' := String (hexDigit (n mod 16)) acc in
      if n / 16 =? 0 then acc' else hexDigits fuel' (n / 16) acc'
  end.

(** [c.toString(16)] for an integer-valued number. *)
Definition toString16 (c : Z) : string :=
  if c <? 0 then "-" ++ hexDigits (S (Z.to_nat (Z.log2 (- c)))) (- c) ""
  else hexDigits (S (Z.to_nat (Z.log2 c))) c "".

(** The arrow function [toHex] inside [rgbToHex]. *)
Definition toHex (c : Z) : string :=
  let hex := toString16 c in
  if Nat.eqb (String.length hex) 1 then "0" ++ hex else hex.

Definition rgbToHex (r g b : Z) : string :=
  "#" ++ toHex r ++ toHex g ++ toHex b.

(** [s.replace(c, '')] for a one-character pattern: the first occurrence
    only. *)
Fixpoint removeFirst (c : ascii) (s : string) : string :=
  match s with
  | EmptyString => EmptyString
  | String ch rest =>
      if Ascii.eqb ch c then rest else String ch (removeFirst c rest)
  end.

(** White space that [parseInt] skips (the ASCII part of it). *)
Definition isWhiteSpace (ch : ascii) : bool :=
  match nat_of_ascii ch with
  | 9 | 10 | 11 | 12 | 13 | 32 => true
  | _ => false
  end%nat.

Fixpoint trimStart (s : string) : string :=
  match s with
  | EmptyString => EmptyString
  | String ch rest => if isWhiteSpace ch then trimStart rest else s
  end.

(** Value of a digit or letter as [parseInt] reads it, in any radix. *)
Definition digitValue (ch : ascii) : option Z :=
  let n := Z.of_nat (nat_of_ascii ch) in
  if (48 <=? n) && (n <=? 57) then Some (n - 48)
  else if (97 <=? n) && (n <=? 122) then Some (n - 87)
  else if (65 <=? n) && (n <=? 90) then Some (n - 55)
  else None.

(** The longest prefix of digits of the radix; [None] when it is empty. *)
Fixpoint parseDigits (radix : Z) (s : string) (acc : option Z) : option Z :=
  match s with
  | EmptyString => acc
  | String ch rest =>
      match digitValue ch with
      | Some d =>
          if d <? radix
          then parseDigits radix rest
                 (Some (match acc with Some a => a * radix + d | None => d end))
          else acc
      | None => acc
      end
  end.

(** [parseInt(s, radix)] for a radix from 2 to 36; [None] is [NaN]. The
    value is the mathematical integer, which is the JavaScript number as
    long as it is below 2^53. *)
Definition parseInt (s : string) (radix : Z) : option Z :=
  let s1 := trimStart s in
  let '(sign, s2) :=
    match s1 with
    | String "-"%char rest => (-1, rest)
    | String "+"%char rest => (1, rest)
    | _ => (1, s1)
    end in
  let s3 :=
    if radix =? 16 then
      match s2 with
      | String "0"%char (String "x"%char rest) => rest
      | String "0"%char (String "X"%char rest) => rest
      | _ => s2
      end
    else s2 in
  option_map (Z.mul sign) (parseDigits radix s3 None).

(** [ToInt32], applied by [>>] and [&] to their operands: [NaN] becomes 0,
    an integer wraps to the signed 32-bit range. *)
Definition ToInt32 (v : option Z) : Z :=
  match v with
  | None => 0
  | Some z => (z + 2 ^ 31) mod 2 ^ 32 - 2 ^ 31
  end.

Definition hexToRgb (hex : string) : RGB :=
  let h := removeFirst "#" hex in
  let bigint := parseInt h 16 in
  let r := Z.land (Z.shiftr (ToInt32 bigint) 16) 255 in
  let g := Z.land (Z.shiftr (ToInt32 bigint) 8) 255 in
  let b := Z.land (ToInt32 bigint) 255 in
  (r, g, b).

(** *** Real-valued colour arithmetic *)

Local Open Scope R_scope.

(** [Math.round]: the nearest integer, a tie going up. *)
Definition Math_round (x : R) : Z := Zfloor (x + 0.5).

(** The [%] operator: the remainder has the sign of the dividend. *)
Definition Math_trunc (x : R) : Z :=
  if Rle_dec 0 x then Zfloor x else Zceil x.

Definition remainder (a b : R) : R := a - b * IZR (Math_trunc (a / b)).

(** The arrow function [hue2rgb] inside [hslToRgb]. *)
Definition hue2rgb (p q t : R) : R :=
  let t := if Rlt_dec t 0 then t + 1 else t in
  let t := if Rlt_dec 1 t then t - 1 else t in
  if Rlt_dec t (1 / 6) then p + (q - p) * 6 * t
  else if Rlt_dec t (1 / 2) then q
  else if Rlt_dec t (2 / 3) then p + (q - p) * (2 / 3 - t) * 6
  else p.

Definition hslToRgb (h s l : R) : RGB :=
  let h := remainder h 360 / 360 in
  let '(r, g, b) :=
    if Req_dec_T s 0 then (l, l, l)
    else
      let q := if Rlt_dec l 0.5 then l * (1 + s) else l + s - l * s in
      let p := 2 * l - q in
      (hue2rgb p q (h + 1 / 3), hue2rgb p q h, hue2rgb p q (h - 1 / 3)) in
  (Math_round (r * 255), Math_round (g * 255), Math_round (b * 255)).

(** The colour of segment [i] of [totalSegments]: the [if / else if / else]
    that [draw] repeats in its 2D and its 3D loop, with [diffR], [diffG]
    and [diffB] computed before the loop as there. *)
Definition segmentColour (useRainbow useGradient : bool)
    (startRGB endRGB : RGB) (totalSegments i : nat) : RGB :=
  let '(startR, startG, startB) := startRGB in
  let '(endR, endG, endB) := endRGB in
  let diffR := (endR - startR)%Z in
  let diffG := (endG - startG)%Z in
  let diffB := (endB - startB)%Z in
  if useRainbow && Nat.ltb 0 totalSegments then
    let t := INR i / INR totalSegments in
    let h := 360 * t in
    hslToRgb h 1 0.5
  else if useGradient && Nat.ltb 0 totalSegments then
    let t := INR i / INR totalSegments in
    (Math_round (IZR startR + IZR diffR * t),
     Math_round (IZR startG + IZR diffG * t),
     Math_round (IZR startB + IZR diffB * t))
  else (startR, startG, startB).

(** A channel value between two others, ends included, and a colour
    between two colours channel by channel. *)
Definition channelBetween (s e c : Z) : Prop :=
  (Z.min s e <= c <= Z.max s e)%Z.

Definition colourBetween (startRGB endRGB c : RGB) : Prop :=
  let '(startR, startG, startB) := startRGB in
  let '(endR, endG, endB) := endRGB in
  let '(r, g, b) := c in
  channelBetween startR endR r /\ channelBetween startG endG g
  /\ channelBetween startB endB b.

End Colour.

(** ** The page: state, camera, renderer and event handlers *)

Module Page.
Import Turtle Colour.
Local Open Scope list_scope.
Local Open Scope R_scope.

(** The sixteen elements of [controlsToDisable]. *)
Inductive Control : Type :=
| IterationInput | IterationNumber | AngleInput | AngleNumber
| TwistInput | TwistNumber | ExtrudeInput | ExtrudeNumber
| SpeedInput | SpeedNumber | Enable3dInput | DarkModeInput
| ColorStartInput | ColorEndInput | GradientInput | RainbowInput.

#[global] Instance Control_eq_dec : EqDecision Control.
Proof. solve_decision. Defined.

Definition controlsToDisable : list Control :=
  [IterationInput; IterationNumber; AngleInput; AngleNumber;
   TwistInput; TwistNumber; ExtrudeInput; ExtrudeNumber;
   SpeedInput; SpeedNumber; Enable3dInput; DarkModeInput;
   ColorStartInput; ColorEndInput; GradientInput; RainbowInput].

(** One stroked line: [strokeStyle], [lineWidth], [beginPath], [moveTo],
    [lineTo], [stroke]. [segment] is the loop index that drew it, kept for
    the statements about the renderer. *)
Record Stroke : Type := mkStroke {
  segment : nat;
  strokeStyle : RGB;
  lineWidth : R;
  fromX : R;
  fromY : R;
  toX : R;
  toY : R
}.

Inductive CanvasOp : Type :=
| ClearRect (x y w h : R)
| StrokeLine (s : Stroke).

(** [currentString], [currentPoints2D], [currentPoints3D]. *)
Record Curve : Type := mkCurve {
  currentString : string;
  currentPoints2D : list Point2D;
  currentPoints3D : list Point3D
}.

(** The animation variables; [animationTimer] is [null] or the identifier
    that [setTimeout] returned, a positive integer. *)
Record Animation : Type := mkAnimation {
  animationProgress : Z;
  isAnimating : bool;
  animationTimer : option positive;
  animationSpeed : Z
}.

Record Palette : Type := mkPalette {
  startColor : string;
  endColor : string;
  useGradient : bool;
  useRainbow : bool
}.

(** The 3D viewer state. *)
Record View : Type := mkView {
  viewCenter : Point3D;
  boundingRadius : R;
  rotX : R;
  rotY : R;
  userZoom : R;
  baseZoom : R;
  cameraDist : R
}.

(** What the script reads from the sliders, pickers and check boxes. A
    range input always holds a number of its range, so [parseInt] and
    [parseFloat] of its value are that number. *)
Record Inputs : Type := mkInputs {
  iterationInput_value : Z;
  angleInput_value : R;
  twistInput_value : R;
  extrudeInput_value : R;
  speedInput_value : Z;
  colorStartInput_value : string;
  colorEndInput_value : string;
  gradientInput_checked : bool;
  rainbowInput_checked : bool;
  enable3dInput_checked : bool
}.

(** What the script writes to the document: the [disabled] flag of each
    control, the [style.display] of the two buttons, the iteration label.
    The decimal read-outs ([toFixed]) are presentation and are left out. *)
Record Widgets : Type := mkWidgets {
  disabled : Control -> bool;
  animateBtn_display : string;
  cancelBtn_display : string;
  iterationValue_textContent : Z
}.

Record Canvas : Type := mkCanvas {
  width : R;
  height : R;
  clientWidth : R;
  clientHeight : R;
  log : list CanvasOp
}.

(** A pending [setTimeout(animateSegment, interval)]; the closure carries
    the [use3D] captured by the click handler. *)
Record Timer : Type := mkTimer {
  timerId : positive;
  delay : R;
  timerUse3D : bool
}.

Record State : Type := mkState {
  curve : Curve;
  anim : Animation;
  palette : Palette;
  lSystemCache : gmap Z string;
  view : View;
  inputs : Inputs;
  widgets : Widgets;
  canvas : Canvas;
  timers : list Timer;
  nextTimerId : positive
}.

Definition set_curve (c : Curve) (st : State) : State :=
  mkState c (anim st) (palette st) (lSystemCache st) (view st) (inputs st)
          (widgets st) (canvas st) (timers st) (nextTimerId st).

Definition set_anim (a : Animation) (st : State) : State :=
  mkState (curve st) a (palette st) (lSystemCache st) (view st) (inputs st)
          (widgets st) (canvas st) (timers st) (nextTimerId st).

Definition set_palette (p : Palette) (st : State) : State :=
  mkState (curve st) (anim st) p (lSystemCache st) (view st) (inputs st)
          (widgets st) (canvas st) (timers st) (nextTimerId st).

Definition set_lSystemCache (c : gmap Z string) (st : State) : State :=
  mkState (curve st) (anim st) (palette st) c (view st) (inputs st)
          (widgets st) (canvas st) (timers st) (nextTimerId st).

Definition set_view (v : View) (st : State) : State :=
  mkState (curve st) (anim st) (palette st) (lSystemCache st) v (inputs st)
          (widgets st) (canvas st) (timers st) (nextTimerId st).

Definition set_inputs (i : Inputs) (st : State) : State :=
  mkState (curve st) (anim st) (palette st) (lSystemCache st) (view st) i
          (widgets st) (canvas st) (timers st) (nextTimerId st).

Definition set_widgets (w : Widgets) (st : State) : State :=
  mkState (curve st) (anim st) (palette st) (lSystemCache st) (view st)
          (inputs st) w (canvas st) (timers st) (nextTimerId st).

Definition set_log (l : list CanvasOp) (st : State) : State :=
  let cv := canvas st in
  mkState (curve st) (anim st) (palette st) (lSystemCache st) (view st)
          (inputs st) (widgets st)
          (mkCanvas (width cv) (height cv) (clientWidth cv) (clientHeight cv) l)
          (timers st) (nextTimerId st).

Definition set_timers (ts : list Timer) (next : positive) (st : State) : State :=
  mkState (curve st) (anim st) (palette st) (lSystemCache st) (view st)
          (inputs st) (widgets st) (canvas st) ts next.

(** *** Camera *)

Definition getViewRotation (v : View) : Mat3 :=
  let cx := cos (rotX v) in
  let sx := sin (rotX v) in
  let cy := cos (rotY v) in
  let sy := sin (rotY v) in
  ((cy, 0, sy),
   (sx * sy, cx, - sx * cy),
   (- cx * sy, sx, cx * cy)).

(** The object [{ x, y, z, valid }] that [project3D] returns. *)
Record Projected : Type := mkProjected {
  px : R;
  py : R;
  pz : R;
  valid : bool
}.

Definition Rgtb (a b : R) : bool := if Rlt_dec b a then true else false.

Definition project3D (v : View) (cv : Canvas) (pt : Point3D) : Projected :=
  let '(vcx, vcy, vcz) := viewCenter v in
  let dx := vget pt 0 - vcx in
  let dy := vget pt 1 - vcy in
  let dz := vget pt 2 - vcz in
  let rot := getViewRotation v in
  let rx := mget rot 0 0 * dx + mget rot 0 1 * dy + mget rot 0 2 * dz in
  let ry := mget rot 1 0 * dx + mget rot 1 1 * dy + mget rot 1 2 * dz in
  let rz := mget rot 2 0 * dx + mget rot 2 1 * dy + mget rot 2 2 * dz in
  let denom := cameraDist v - rz in
  let valid := Rgtb denom 0.001 in
  let factor := (baseZoom v * userZoom v) / denom in
  let x2d := clientWidth cv / 2 + rx * factor in
  let y2d := clientHeight cv / 2 - ry * factor in
  mkProjected x2d y2d rz valid.

(** *** Bounding boxes: variables that start at plus or minus [Infinity] *)

Inductive Bound : Type :=
| NegInfinity
| Finite (r : R)
| PosInfinity.

(** [if (x < minX) minX = x] *)
Definition lower (minX : Bound) (x : R) : Bound :=
  match minX with
  | PosInfinity => Finite x
  | Finite m => if Rlt_dec x m then Finite x else minX
  | NegInfinity => minX
  end.

(** [if (x > maxX) maxX = x] *)
Definition upper (maxX : Bound) (x : R) : Bound :=
  match maxX with
  | NegInfinity => Finite x
  | Finite m => if Rlt_dec m x then Finite x else maxX
  | PosInfinity => maxX
  end.

(** The number a bound holds once the loop has seen a point; the loops
    that use it run over a list that is not empty. *)
Definition bound (b : Bound) : R :=
  match b with
  | Finite r => r
  | _ => 0
  end.

(** The running bounds [minX], [minY], [minZ], [maxX], [maxY], [maxZ] of a
    bounding-box loop ([draw] has no z). *)
Record Box : Type := mkBox {
  minX : Bound;
  minY : Bound;
  minZ : Bound;
  maxX : Bound;
  maxY : Bound;
  maxZ : Bound
}.

Definition emptyBox : Box :=
  mkBox PosInfinity PosInfinity PosInfinity NegInfinity NegInfinity NegInfinity.

(** [d || 1] *)
Definition orOne (d : R) : R := if Req_dec_T d 0 then 1 else d.

(** *** Renderer *)

(** [animationProgress >= 0 ? Math.min(animationProgress, totalSegments)
    : totalSegments] *)
Definition maxSegmentOf (animationProgress : Z) (totalSegments : nat) : nat :=
  if (0 <=? animationProgress)%Z
  then Z.to_nat (Z.min animationProgress (Z.of_nat totalSegments))
  else totalSegments.

(** The 2D branch of [draw], after [clearRect]. *)
Definition draw2D (st : State) (out : list CanvasOp) : list CanvasOp :=
  let pts := currentPoints2D (curve st) in
  if Nat.ltb (List.length pts) 2 then out
  else
    let box :=
      fold_left
        (fun box '(x, y) =>
           mkBox (lower (minX box) x) (lower (minY box) y) (minZ box)
                 (upper (maxX box) x) (upper (maxY box) y) (maxZ box))
        pts emptyBox in
    let minX := bound (minX box) in
    let minY := bound (minY box) in
    let maxX := bound (maxX box) in
    let maxY := bound (maxY box) in
    let wBound := orOne (maxX - minX) in
    let hBound := orOne (maxY - minY) in
    let expandX := wBound * 0.05 in
    let expandY := hBound * 0.05 in
    let adjMinX := minX - expandX in
    let adjMaxX := maxX + expandX in
    let adjMinY := minY - expandY in
    let adjMaxY := maxY + expandY in
    let adjW := adjMaxX - adjMinX in
    let adjH := adjMaxY - adjMinY in
    let margin := 20 in
    let availW := clientWidth (canvas st) - 2 * margin in
    let availH := clientHeight (canvas st) - 2 * margin in
    let scale := Rmin (availW / adjW) (availH / adjH) in
    let offsetX := margin + (availW - adjW * scale) / 2 in
    let offsetY := margin + (availH - adjH * scale) / 2 in
    let totalSegments := (List.length pts - 1)%nat in
    let maxSegment := maxSegmentOf (animationProgress (anim st)) totalSegments in
    let startRGB := hexToRgb (startColor (palette st)) in
    let endRGB := hexToRgb (endColor (palette st)) in
    fold_left
      (fun out i =>
         let '(x1, y1) := nth i pts (0, 0) in
         let '(x2, y2) := nth (i + 1) pts (0, 0) in
         let px1 := offsetX + (x1 - adjMinX) * scale in
         let py1 := offsetY + (y1 - adjMinY) * scale in
         let px2 := offsetX + (x2 - adjMinX) * scale in
         let py2 := offsetY + (y2 - adjMinY) * scale in
         let rgb := segmentColour (useRainbow (palette st))
                      (useGradient (palette st)) startRGB endRGB
                      totalSegments i in
         out ++ [StrokeLine (mkStroke i rgb 1 px1 py1 px2 py2)])
      (seq 0 maxSegment) out.

(** The 3D branch of [draw], after [clearRect]; a segment with an endpoint
    that is not valid takes the [continue]. *)
Definition draw3D (st : State) (out : list CanvasOp) : list CanvasOp :=
  let pts := currentPoints3D (curve st) in
  if Nat.ltb (List.length pts) 2 then out
  else
    let totalSegments := (List.length pts - 1)%nat in
    let maxSegment := maxSegmentOf (animationProgress (anim st)) totalSegments in
    let startRGB3 := hexToRgb (startColor (palette st)) in
    let endRGB3 := hexToRgb (endColor (palette st)) in
    fold_left
      (fun out i =>
         let p1 := project3D (view st) (canvas st) (nth i pts (0, 0, 0)) in
         let p2 := project3D (view st) (canvas st) (nth (i + 1) pts (0, 0, 0)) in
         if negb (valid p1) || negb (valid p2) then out
         else
           let rgb := segmentColour (useRainbow (palette st))
                        (useGradient (palette st)) startRGB3 endRGB3
                        totalSegments i in
           let depth := (pz p1 + pz p2) / 2 in
           let weight := Rmax 0.3 (1 - depth / (2 * boundingRadius (view st))) in
           out ++ [StrokeLine (mkStroke i rgb weight (px p1) (py p1) (px p2) (py p2))])
      (seq 0 maxSegment) out.

(** What one call of [draw] appends to the canvas log. *)
Definition drawOps (st : State) : list CanvasOp :=
  let cleared := [ClearRect 0 0 (width (canvas st)) (height (canvas st))] in
  if negb (enable3dInput_checked (inputs st))
  then draw2D st cleared
  else draw3D st cleared.

Definition draw (st : State) : State :=
  set_log (log (canvas st) ++ drawOps st) st.

(** *** Bounds of the 3D points *)

Definition compute3DBounds (preserveView : bool) (st : State) : State :=
  let pts := currentPoints3D (curve st) in
  let v := view st in
  if Nat.eqb (List.length pts) 0 then
    set_view (mkView (0, 0, 0) 1 (rotX v) (rotY v) (userZoom v)
                     (baseZoom v) (cameraDist v)) st
  else
    let box :=
      fold_left
        (fun box '(x, y, z) =>
           mkBox (lower (minX box) x) (lower (minY box) y) (lower (minZ box) z)
                 (upper (maxX box) x) (upper (maxY box) y) (upper (maxZ box) z))
        pts emptyBox in
    let minX := bound (minX box) in
    let minY := bound (minY box) in
    let minZ := bound (minZ box) in
    let maxX := bound (maxX box) in
    let maxY := bound (maxY box) in
    let maxZ := bound (maxZ box) in
    let center := ((minX + maxX) / 2, (minY + maxY) / 2, (minZ + maxZ) / 2) in
    let dx := maxX - minX in
    let dy := maxY - minY in
    let dz := maxZ - minZ in
    let radius := sqrt (dx * dx + dy * dy + dz * dz) / 2 in
    let shorterSide := Rmin (clientWidth (canvas st)) (clientHeight (canvas st)) in
    let fillFrac := 0.9 in
    let dist := 3 * radius in
    let zoom := dist * (fillFrac * shorterSide) / (2 * radius) in
    if preserveView
    then set_view (mkView center radius (rotX v) (rotY v) (userZoom v) zoom dist) st
    else set_view (mkView center radius 0 0 1 zoom dist) st.

(** *** Parameter changes *)

Definition updateFractal (st : State) : State :=
  let iterations := iterationInput_value (inputs st) in
  let angleDeg := angleInput_value (inputs st) in
  let twistDeg := twistInput_value (inputs st) in
  let extrude := extrudeInput_value (inputs st) in
  let w := widgets st in
  let st := set_widgets (mkWidgets (disabled w) (animateBtn_display w)
                                   (cancelBtn_display w) iterations) st in
  let spd := speedInput_value (inputs st) in
  let a := anim st in
  let st := set_anim (mkAnimation (animationProgress a) (isAnimating a)
                                  (animationTimer a) spd) st in
  let st := set_palette (mkPalette (colorStartInput_value (inputs st))
                                   (colorEndInput_value (inputs st))
                                   (gradientInput_checked (inputs st))
                                   (rainbowInput_checked (inputs st))) st in
  let '(str, cache) := LSystem.generateLSystem (lSystemCache st) iterations in
  let st := set_lSystemCache cache st in
  let st := set_curve (mkCurve str (get2DPoints str angleDeg)
                               (get3DPoints str angleDeg twistDeg extrude)) st in
  let st := if enable3dInput_checked (inputs st)
            then compute3DBounds true st else st in
  if negb (isAnimating (anim st)) then draw st else st.

(** *** Animation *)

(** [for (const ctrl of controlsToDisable) ctrl.disabled = v] *)
Definition setDisabled (v : bool) (d : Control -> bool) : Control -> bool :=
  fold_left (fun d ctrl => fun c => if decide (c = ctrl) then v else d c)
            controlsToDisable d.

(** [clearTimeout(id)] *)
Definition clearTimeout (id : positive) (ts : list Timer) : list Timer :=
  List.filter (fun t => negb (Pos.eqb (timerId t) id)) ts.

(** The inner function [animateSegment] of the click handler; [use3D] is
    the variable it closes over. *)
Definition animateSegment (use3D : bool) (st : State) : State :=
  if negb (isAnimating (anim st)) then st
  else
    let st := draw st in
    let a := anim st in
    let progress := (animationProgress a + 1)%Z in
    let st := set_anim (mkAnimation progress (isAnimating a)
                                    (animationTimer a) (animationSpeed a)) st in
    let totalSegments :=
      (Z.of_nat (if use3D
                 then List.length (currentPoints3D (curve st))
                 else List.length (currentPoints2D (curve st))) - 1)%Z in
    if (progress <=? totalSegments)%Z then
      let interval := 1000 / IZR (animationSpeed a) in
      let id := nextTimerId st in
      let st := set_timers (timers st ++ [mkTimer id interval use3D])
                           (Pos.succ id) st in
      set_anim (mkAnimation progress (isAnimating a) (Some id)
                            (animationSpeed a)) st
    else
      let st := set_anim (mkAnimation (-1) false (animationTimer a)
                                      (animationSpeed a)) st in
      let w := widgets st in
      let st := set_widgets (mkWidgets (setDisabled false (disabled w))
                                       "inline-block"%string "none"%string
                                       (iterationValue_textContent w)) st in
      updateFractal st.

(** The click handler of [animateBtn]. *)
Definition onAnimateClick (st : State) : State :=
  if isAnimating (anim st) then st
  else
    let targetIterations := iterationInput_value (inputs st) in
    let angleDeg := angleInput_value (inputs st) in
    let twistDeg := twistInput_value (inputs st) in
    let extrude := extrudeInput_value (inputs st) in
    let use3D := enable3dInput_checked (inputs st) in
    let '(finalString, cache) :=
      LSystem.generateLSystem (lSystemCache st) targetIterations in
    let st := set_lSystemCache cache st in
    let st := set_curve (mkCurve (currentString (curve st))
                                 (get2DPoints finalString angleDeg)
                                 (get3DPoints finalString angleDeg twistDeg extrude))
                        st in
    let st := if use3D then compute3DBounds false st else st in
    let a := anim st in
    let st := set_anim (mkAnimation 0 true (animationTimer a)
                                    (animationSpeed a)) st in
    let w := widgets st in
    let st := set_widgets (mkWidgets (setDisabled true (disabled w))
                                     "none"%string "inline-block"%string
                                     targetIterations) st in
    animateSegment use3D st.

(** A pending timer fires: it leaves the queue and runs its callback. *)
Definition onTimer (id : positive) (st : State) : State :=
  match List.find (fun t => Pos.eqb (timerId t) id) (timers st) with
  | Some t =>
      animateSegment (timerUse3D t)
        (set_timers (clearTimeout id (timers st)) (nextTimerId st) st)
  | None => st
  end.

(** The click handler of [cancelBtn]. *)
Definition onCancelClick (st : State) : State :=
  if negb (isAnimating (anim st)) then st
  else
    let a := anim st in
    let st := set_anim (mkAnimation (animationProgress a) false
                                    (animationTimer a) (animationSpeed a)) st in
    let st :=
      match animationTimer a with
      | Some id =>
          set_anim (mkAnimation (animationProgress a) false None
                                (animationSpeed a))
                   (set_timers (clearTimeout id (timers st)) (nextTimerId st) st)
      | None => st
      end in
    let a := anim st in
    let st := set_anim (mkAnimation (-1) (isAnimating a) (animationTimer a)
                                    (animationSpeed a)) st in
    let w := widgets st in
    let st := set_widgets (mkWidgets (setDisabled false (disabled w))
                                     "inline-block"%string "none"%string
                                     (iterationValue_textContent w)) st in
    updateFractal st.

(** *** Zoom *)

(** The [wheel] listener of the canvas; [deltaY] is the event's field. *)
Definition onWheel (deltaY : R) (st : State) : State :=
  if negb (enable3dInput_checked (inputs st)) then st
  else
    let delta := deltaY in
    let factor := exp (- delta * 0.001) in
    let v := view st in
    let zoom := userZoom v * factor in
    let zoom := Rmax 0.1 (Rmin 10 zoom) in
    draw (set_view (mkView (viewCenter v) (boundingRadius v) (rotX v) (rotY v)
                           zoom (baseZoom v) (cameraDist v)) st).

(** *** Events *)

(** The events the embedding follows. [ParameterInput] is an [input] event
    of one of the four sliders, with the values the controls hold after it;
    the browser delivers none from a disabled control. *)
Inductive Event : Type :=
| AnimateClick
| CancelClick
| TimerFires (id : positive)
| Wheel (deltaY : R)
| ParameterInput (inp : Inputs).

Definition handle (st : State) (e : Event) : State :=
  match e with
  | AnimateClick => onAnimateClick st
  | CancelClick => onCancelClick st
  | TimerFires id => onTimer id st
  | Wheel deltaY => onWheel deltaY st
  | ParameterInput inp => updateFractal (set_inputs inp st)
  end.

Definition run (st : State) (es : list Event) : State :=
  fold_left handle es st.

(** The variables as the script declares them, around the given inputs
    and canvas size, and the state once the page has loaded:
    [resizeCanvas()] draws, then [updateFractal()]. *)
Definition declared (inp : Inputs) (w h cw ch : R) : State :=
  mkState (mkCurve "" [] [])
          (mkAnimation (-1) false None 60)
          (mkPalette "#3366cc" "#3366cc" false false)
          ∅
          (mkView (0, 0, 0) 1 0 0 1 1 1)
          inp
          (mkWidgets (fun _ => false) "" "" 0)
          (mkCanvas w h cw ch [])
          [] 1%positive.

Definition loaded (inp : Inputs) (w h cw ch : R) : State :=
  updateFractal (draw (declared inp w h cw ch)).

(** [totalSegments] as [draw] computes it in the mode that is on. *)
Definition totalSegmentsOf (st : State) : nat :=
  if enable3dInput_checked (inputs st)
  then (List.length (currentPoints3D (curve st)) - 1)%nat
  else (List.length (currentPoints2D (curve st)) - 1)%nat.

(** The two endpoints of segment [i] as the 3D loop projects them. *)
Definition endpoint3D (st : State) (i : nat) : Projected :=
  project3D (view st) (canvas st) (nth i (currentPoints3D (curve st)) (0, 0, 0)).

(** A page to try the handlers on: two iterations, right-angle turns, a
    gradient from black to [#010101], a 300 by 150 canvas. *)
Definition sampleInputs (gradient rainbow enable3d : bool) : Inputs :=
  mkInputs 2 90 0 0 60 "#000000" "#010101" gradient rainbow enable3d.

Definition samplePage (gradient rainbow enable3d : bool) : State :=
  loaded (sampleInputs gradient rainbow enable3d) 300 150 300 150.

(** A 3D scene of one segment along the x axis, seen from distance 3. *)
Definition sampleScene : State :=
  set_curve (mkCurve "F" [(0, 0); (1, 0)] [(0, 0, 0); (1, 0, 0)])
    (set_view (mkView (0, 0, 0) 1 0 0 1 1 3)
       (declared (sampleInputs false false true) 300 150 300 150)).

End Page.

(** ** Colour ranges *)

Module ColourRange.
Import Colour.
Local Open Scope Z_scope.

(** A channel as [rgb()] takes it. *)
Definition channel (c : Z) : Prop := 0 <= c <= 255.

Definition validRGB (c : RGB) : Prop :=
  let '(r, g, b) := c in channel r /\ channel g /\ channel b.

(** The string [#] followed by six lower-case hex digits. *)
Definition hexColour (d1 d2 d3 d4 d5 d6 : Z) : string :=
  String "#" (String (hexDigit d1) (String (hexDigit d2) (String (hexDigit d3)
  (String (hexDigit d4) (String (hexDigit d5) (String (hexDigit d6) "")))))).

End ColourRange.

(** ** Frames of the animation *)

Module Frames.
Import Page.

(** The state with [animationProgress] set to [k], everything else as it
    is: what [draw] sees at one tick of the animation ([k >= 0]) or when
    nothing is animated ([k = -1]). *)
Definition withProgress (k : Z) (st : State) : State :=
  let a := anim st in
  set_anim (mkAnimation k (isAnimating a) (animationTimer a) (animationSpeed a))
           st.

(** The lines among the canvas operations, in drawing order. *)
Definition strokesOf (ops : list CanvasOp) : list Stroke :=
  flat_map (fun op => match op with
                      | StrokeLine s => [s]
                      | ClearRect _ _ _ _ => []
                      end) ops.

End Frames.

(** ** Shape of the generated strings *)

Module LSystemShape.
Import LSystem.

Definition isTurn (ch : ascii) : bool :=
  Ascii.eqb ch "+" || Ascii.eqb ch "-".

(** A list of symbols that alternates between forward-draw symbols and
    turns; [expectForward] tells which of the two comes next, and the list
    may only end after a forward-draw symbol. *)
Fixpoint alternates (expectForward : bool) (l : list ascii) : bool :=
  match l with
  | [] => negb expectForward
  | ch :: rest =>
      (if expectForward then isForward ch else isTurn ch)
      && alternates (negb expectForward) rest
  end.

End LSystemShape.

(** ** Shape of the point sequences *)

Module TurtleShape.
Import Turtle.
Local Open Scope R_scope.

(** A relation that holds between every point and the next one. *)
Fixpoint chain {A : Type} (P : A -> A -> Prop) (l : list A) : Prop :=
  match l with
  | a :: (b :: _) as rest => P a b /\ chain P rest
  | _ => True
  end.

(** A 2D step of length one. *)
Definition unitStep2D (p q : Point2D) : Prop :=
  let '(px, py) := p in
  let '(qx, qy) := q in
  (qx - px) * (qx - px) + (qy - py) * (qy - py) = 1.

(** A 3D step that is a step of length one followed by the extrusion
    along the global z axis. *)
Definition unitStep3D (extrude : R) (p q : Point3D) : Prop :=
  let '(px, py, pz) := p in
  let '(qx, qy, qz) := q in
  (qx - px) * (qx - px) + (qy - py) * (qy - py)
  + (qz - pz - extrude) * (qz - pz - extrude) = 1.

Definition transpose (m : Mat3) : Mat3 :=
  ((mget m 0 0, mget m 1 0, mget m 2 0),
   (mget m 0 1, mget m 1 1, mget m 2 1),
   (mget m 0 2, mget m 1 2, mget m 2 2)).

(** A matrix whose columns are orthonormal. *)
Definition orthogonal (m : Mat3) : Prop :=
  matMul (transpose m) m = identity3.

(** The mirror image of a point in the x axis. *)
Definition mirrorY (p : Point2D) : Point2D :=
  let '(x, y) := p in (x, - y).

End TurtleShape.

(** ** Lines inside the margin *)

Module RenderShape.
Import Page.
Local Open Scope R_scope.

(** Both ends of a line are at least the 2D margin of 20 away from every
    edge of the canvas. *)
Definition insideMargin (cv : Canvas) (s : Stroke) : Prop :=
  (20 <= fromX s <= clientWidth cv - 20 /\ 20 <= toX s <= clientWidth cv - 20)
  /\ (20 <= fromY s <= clientHeight cv - 20
      /\ 20 <= toY s <= clientHeight cv - 20).

(** Both ends of a line are on the canvas. *)
Definition insideCanvas (cv : Canvas) (s : Stroke) : Prop :=
  (0 <= fromX s <= clientWidth cv /\ 0 <= toX s <= clientWidth cv)
  /\ (0 <= fromY s <= clientHeight cv /\ 0 <= toY s <= clientHeight cv).

End RenderShape.

(** ** The animation as the page runs it *)

Module AnimationShape.
Import Turtle Page.
Local Open Scope Z_scope.
Local Open Scope list_scope.

(** [ctrl.disabled] is [v] for every control of [controlsToDisable]. *)
Definition allDisabled (v : bool) (st : State) : Prop :=
  forall c, In c controlsToDisable -> disabled (widgets st) c = v.

(** How the animation variables, the timer queue and the controls go
    together: while an animation runs, exactly the timer of
    [animationTimer] is pending, the controls are disabled, the animate
    button is hidden and the cancel button shown; otherwise nothing is
    pending, the controls are enabled and [animationProgress] is [-1]. *)
Definition consistent (st : State) : Prop :=
  if isAnimating (anim st)
  then (exists t, timers st = [t]
                  /\ animationTimer (anim st) = Some (timerId t))
       /\ allDisabled true st
       /\ animateBtn_display (widgets st) = "none"%string
       /\ cancelBtn_display (widgets st) = "inline-block"%string
       /\ 1 <= animationProgress (anim st)
  else timers st = [] /\ allDisabled false st
       /\ animationProgress (anim st) = -1.

(** [totalSegments] of the curve that a click on the animate button
    computes from the controls of [st]. *)
Definition targetSegments (st : State) : nat :=
  let inp := inputs st in
  let finalString :=
    fst (LSystem.generateLSystem (lSystemCache st) (iterationInput_value inp)) in
  if enable3dInput_checked inp
  then (List.length (get3DPoints finalString (angleInput_value inp)
                       (twistInput_value inp) (extrudeInput_value inp)) - 1)%nat
  else (List.length (get2DPoints finalString (angleInput_value inp)) - 1)%nat.

(** The event loop lets the oldest pending timer fire. *)
Definition firePending (st : State) : State :=
  match timers st with
  | t :: _ => handle st (TimerFires (timerId t))
  | [] => st
  end.

Definition afterTicks (k : nat) (st : State) : State :=
  Nat.iter k firePending st.

(** The canvas operations of the frames [0], [1], ... [n - 1] of the
    animation that runs in [st]: frame [j] is what [draw] issues with
    [animationProgress] at [j]. *)
Definition frames (st : State) (n : nat) : list CanvasOp :=
  concat (map (fun j => drawOps (Frames.withProgress (Z.of_nat j) st))
              (seq 0 n)).

(** Two states show [draw] the same scene, apart from the progress. *)
Definition sameScene (s1 s2 : State) : Prop :=
  curve s1 = curve s2 /\ palette s1 = palette s2 /\ view s1 = view s2
  /\ inputs s1 = inputs s2
  /\ width (canvas s1) = width (canvas s2)
  /\ height (canvas s1) = height (canvas s2)
  /\ clientWidth (canvas s1) = clientWidth (canvas s2)
  /\ clientHeight (canvas s1) = clientHeight (canvas s2).

(** The page while frame [k] of an animation of the scene [sa] is on the
    canvas and the call for the next one is pending; [L] is what the
    canvas had received before the animation. *)
Definition playing (sa : State) (use3D : bool) (L : list CanvasOp)
    (k : nat) (s : State) : Prop :=
  anim s = mkAnimation (Z.of_nat k + 1) true (animationTimer (anim s))
                       (animationSpeed (anim sa))
  /\ (exists id, timers s
                 = [mkTimer id (1000 / IZR (animationSpeed (anim sa)))%R use3D])
  /\ sameScene s sa
  /\ log (canvas s) = L ++ frames sa (k + 1).

End AnimationShape.

(** ** The other listeners: pointer, view and colour controls *)

Module Session.
Import Turtle Page.
Local Open Scope R_scope.

(** [a < b] on numbers, as a test. *)
Definition Rltb (a b : R) : bool := if Rlt_dec a b then true else false.

(** *** Mouse rotation *)

(** The page together with [isDragging], [lastX] and [lastY]. *)
Record Session : Type := mkSession {
  page : State;
  isDragging : bool;
  lastX : R;
  lastY : R
}.

(** The [mousedown] listener of the canvas. *)
Definition onMouseDown (clientX clientY : R) (s : Session) : Session :=
  if negb (enable3dInput_checked (inputs (page s))) then s
  else mkSession (page s) true clientX clientY.

(** The [mousemove] listener of the window. *)
Definition onMouseMove (clientX clientY : R) (s : Session) : Session :=
  if negb (enable3dInput_checked (inputs (page s))) || negb (isDragging s)
  then s
  else
    let st := page s in
    let v := view st in
    let dx := clientX - lastX s in
    let dy := clientY - lastY s in
    let rotY' := rotY v + (dx / clientWidth (canvas st)) * 2 * PI in
    let rotX' := rotX v + (dy / clientHeight (canvas st)) * 2 * PI in
    let limit := PI / 2 - 0.01 in
    let rotX' := if Rgtb rotX' limit then limit else rotX' in
    let rotX' := if Rltb rotX' (- limit) then - limit else rotX' in
    mkSession
      (draw (set_view (mkView (viewCenter v) (boundingRadius v) rotX' rotY'
                              (userZoom v) (baseZoom v) (cameraDist v)) st))
      (isDragging s) clientX clientY.

(** The [mouseup] listener of the window. *)
Definition onMouseUp (s : Session) : Session :=
  mkSession (page s) false (lastX s) (lastY s).

(** *** View controls *)

(** The click listener of [resetBtn]. *)
Definition onResetClick (st : State) : State :=
  if enable3dInput_checked (inputs st) then
    let v := view st in
    draw (set_view (mkView (viewCenter v) (boundingRadius v) 0 0 1
                           (baseZoom v) (cameraDist v)) st)
  else st.

(** The [change] listener of [enable3dInput]; [compute3DBounds] is called
    with [preserveView: false]. *)
Definition onEnable3dChange (st : State) : State :=
  let st := if enable3dInput_checked (inputs st)
            then compute3DBounds false st else st in
  draw st.

(** The [change] listener of [darkModeInput]; the class of the body is
    style and is left out. *)
Definition onDarkModeChange (st : State) : State := draw st.

(** *** Colour and speed controls *)

Definition onColorStartInput (st : State) : State :=
  let p := palette st in
  let st := set_palette (mkPalette (colorStartInput_value (inputs st))
                                   (endColor p) (useGradient p) (useRainbow p))
                        st in
  if negb (isAnimating (anim st)) then draw st else st.

Definition onColorEndInput (st : State) : State :=
  let p := palette st in
  let st := set_palette (mkPalette (startColor p)
                                   (colorEndInput_value (inputs st))
                                   (useGradient p) (useRainbow p)) st in
  if negb (isAnimating (anim st)) then draw st else st.

Definition onGradientChange (st : State) : State :=
  let p := palette st in
  let st := set_palette (mkPalette (startColor p) (endColor p)
                                   (gradientInput_checked (inputs st))
                                   (useRainbow p)) st in
  if negb (isAnimating (anim st)) then draw st else st.

Definition onRainbowChange (st : State) : State :=
  let p := palette st in
  let st := set_palette (mkPalette (startColor p) (endColor p) (useGradient p)
                                   (rainbowInput_checked (inputs st))) st in
  if negb (isAnimating (anim st)) then draw st else st.

(** The [input] listener of [speedInput]. *)
Definition onSpeedInput (st : State) : State :=
  let val := speedInput_value (inputs st) in
  let a := anim st in
  set_anim (mkAnimation (animationProgress a) (isAnimating a)
                        (animationTimer a) val) st.

(** *** Events *)

(** What the browser does to a control before it calls the listener. *)
Definition withColorStart (value : string) (i : Inputs) : Inputs :=
  mkInputs (iterationInput_value i) (angleInput_value i) (twistInput_value i)
           (extrudeInput_value i) (speedInput_value i) value
           (colorEndInput_value i) (gradientInput_checked i)
           (rainbowInput_checked i) (enable3dInput_checked i).

Definition withColorEnd (value : string) (i : Inputs) : Inputs :=
  mkInputs (iterationInput_value i) (angleInput_value i) (twistInput_value i)
           (extrudeInput_value i) (speedInput_value i)
           (colorStartInput_value i) value (gradientInput_checked i)
           (rainbowInput_checked i) (enable3dInput_checked i).

Definition withGradient (checked : bool) (i : Inputs) : Inputs :=
  mkInputs (iterationInput_value i) (angleInput_value i) (twistInput_value i)
           (extrudeInput_value i) (speedInput_value i)
           (colorStartInput_value i) (colorEndInput_value i) checked
           (rainbowInput_checked i) (enable3dInput_checked i).

Definition withRainbow (checked : bool) (i : Inputs) : Inputs :=
  mkInputs (iterationInput_value i) (angleInput_value i) (twistInput_value i)
           (extrudeInput_value i) (speedInput_value i)
           (colorStartInput_value i) (colorEndInput_value i)
           (gradientInput_checked i) checked (enable3dInput_checked i).

Definition withEnable3d (checked : bool) (i : Inputs) : Inputs :=
  mkInputs (iterationInput_value i) (angleInput_value i) (twistInput_value i)
           (extrudeInput_value i) (speedInput_value i)
           (colorStartInput_value i) (colorEndInput_value i)
           (gradientInput_checked i) (rainbowInput_checked i) checked.

Definition withSpeed (value : Z) (i : Inputs) : Inputs :=
  mkInputs (iterationInput_value i) (angleInput_value i) (twistInput_value i)
           (extrudeInput_value i) value
           (colorStartInput_value i) (colorEndInput_value i)
           (gradientInput_checked i) (rainbowInput_checked i)
           (enable3dInput_checked i).

(** The events of the page ([PageEvent]) and those of the listeners above,
    each with the value the control holds when its listener runs. *)
Inductive Event : Type :=
| PageEvent (e : Page.Event)
| MouseDown (clientX clientY : R)
| MouseMove (clientX clientY : R)
| MouseUp
| ResetClick
| Enable3dChange (checked : bool)
| DarkModeChange
| ColorStartInput (value : string)
| ColorEndInput (value : string)
| GradientChange (checked : bool)
| RainbowChange (checked : bool)
| SpeedInput (value : Z).

Definition onPage (f : State -> State) (s : Session) : Session :=
  mkSession (f (page s)) (isDragging s) (lastX s) (lastY s).

Definition handle (s : Session) (e : Event) : Session :=
  match e with
  | PageEvent e => onPage (fun st => Page.handle st e) s
  | MouseDown x y => onMouseDown x y s
  | MouseMove x y => onMouseMove x y s
  | MouseUp => onMouseUp s
  | ResetClick => onPage onResetClick s
  | Enable3dChange checked =>
      onPage (fun st => onEnable3dChange
                          (set_inputs (withEnable3d checked (inputs st)) st)) s
  | DarkModeChange => onPage onDarkModeChange s
  | ColorStartInput value =>
      onPage (fun st => onColorStartInput
                          (set_inputs (withColorStart value (inputs st)) st)) s
  | ColorEndInput value =>
      onPage (fun st => onColorEndInput
                          (set_inputs (withColorEnd value (inputs st)) st)) s
  | GradientChange checked =>
      onPage (fun st => onGradientChange
                          (set_inputs (withGradient checked (inputs st)) st)) s
  | RainbowChange checked =>
      onPage (fun st => onRainbowChange
                          (set_inputs (withRainbow checked (inputs st)) st)) s
  | SpeedInput value =>
      onPage (fun st => onSpeedInput
                          (set_inputs (withSpeed value (inputs st)) st)) s
  end.

Definition run (s : Session) (es : list Event) : Session :=
  fold_left handle es s.

(** The session when the script has run: the page loaded, no drag. *)
Definition start (inp : Inputs) (w h cw ch : R) : Session :=
  mkSession (loaded inp w h cw ch) false 0 0.

(** The largest tilt the drag allows. *)
Definition tiltLimit : R := PI / 2 - 0.01.

(** In 3D mode the view looks at the current points: centre, radius and
    camera distance are the ones [compute3DBounds] gives for them. *)
Definition fitted (st : State) : Prop :=
  let st' := compute3DBounds true st in
  viewCenter (view st) = viewCenter (view st')
  /\ boundingRadius (view st) = boundingRadius (view st')
  /\ cameraDist (view st) = cameraDist (view st').

(** What the 3D renderer relies on: the cache holds expansions, the 3D
    points are those of an expansion, and in 3D mode the view is fitted. *)
Definition tracked (st : State) : Prop :=
  LSystem.cache_ok (lSystemCache st)
  /\ (exists n angleDeg twistDeg extrude,
        currentPoints3D (curve st)
        = get3DPoints (LSystem.expand n) angleDeg twistDeg extrude)
  /\ (enable3dInput_checked (inputs st) = true -> fitted st).

(** Zoom and tilt are within the limits the listeners clamp them to. *)
Definition viewOK (st : State) : Prop :=
  (0.1 <= userZoom (view st) <= 10)
  /\ (- tiltLimit <= rotX (view st) <= tiltLimit).

(** Two states with the same cache, curve, view and mode. *)
Definition sameModel (s1 s2 : State) : Prop :=
  lSystemCache s1 = lSystemCache s2 /\ curve s1 = curve s2
  /\ view s1 = view s2
  /\ enable3dInput_checked (inputs s1) = enable3dInput_checked (inputs s2).

(** What every reachable session keeps. *)
Definition inv (s : Session) : Prop :=
  AnimationShape.consistent (page s) /\ tracked (page s) /\ viewOK (page s).

(** A 3D session in the middle of a drag. *)
Definition sampleDrag : Session :=
  run (start (sampleInputs false false true) 300 150 300 150)
      [MouseDown 10 10; MouseMove 40 25].

End Session.

(** ** Number boxes and fine nudging *)

Module Controls.
Import Colour Page.
Local Open Scope R_scope.

(** The [min] and [max] attributes of the five sliders, as the numbers
    that [parseInt] and [parseFloat] read from them. *)
Record Limits : Type := mkLimits {
  iterationMin : Z;
  iterationMax : Z;
  angleMin : R;
  angleMax : R;
  twistMin : R;
  twistMax : R;
  extrudeMin : R;
  extrudeMax : R;
  speedMin : Z;
  speedMax : Z
}.

(** [x.toFixed(2)] read back as a number: the nearest multiple of one
    hundredth, the larger one of two; a negative number is rounded by its
    absolute value. *)
Definition toFixed2 (x : R) : R :=
  if Rlt_dec x 0
  then - (IZR (Math_round (- x * 100)) / 100)
  else IZR (Math_round (x * 100)) / 100.

Definition withIteration (value : Z) (i : Inputs) : Inputs :=
  mkInputs value (angleInput_value i) (twistInput_value i)
           (extrudeInput_value i) (speedInput_value i)
           (colorStartInput_value i) (colorEndInput_value i)
           (gradientInput_checked i) (rainbowInput_checked i)
           (enable3dInput_checked i).

Definition withAngle (value : R) (i : Inputs) : Inputs :=
  mkInputs (iterationInput_value i) value (twistInput_value i)
           (extrudeInput_value i) (speedInput_value i)
           (colorStartInput_value i) (colorEndInput_value i)
           (gradientInput_checked i) (rainbowInput_checked i)
           (enable3dInput_checked i).

Definition withTwist (value : R) (i : Inputs) : Inputs :=
  mkInputs (iterationInput_value i) (angleInput_value i) value
           (extrudeInput_value i) (speedInput_value i)
           (colorStartInput_value i) (colorEndInput_value i)
           (gradientInput_checked i) (rainbowInput_checked i)
           (enable3dInput_checked i).

Definition withExtrude (value : R) (i : Inputs) : Inputs :=
  mkInputs (iterationInput_value i) (angleInput_value i) (twistInput_value i)
           value (speedInput_value i)
           (colorStartInput_value i) (colorEndInput_value i)
           (gradientInput_checked i) (rainbowInput_checked i)
           (enable3dInput_checked i).

(** *** The [change] listeners of the number boxes *)

(** [iterationNumber]: the text of the box goes through [parseInt]. *)
Definition onIterationNumberChange (lim : Limits) (text : string) (st : State)
  : State :=
  match parseInt text 10 with
  | None => st
  | Some val =>
      let val := Z.max (iterationMin lim) (Z.min (iterationMax lim) val) in
      updateFractal (set_inputs (withIteration val (inputs st)) st)
  end.

(** [angleNumber] and [twistNumber]: [number] is what [parseFloat] reads
    from the box, [None] for [NaN]. The script gives both sliders the step
    0.01, the grid of the two-decimal string it assigns. *)
Definition onAngleNumberChange (lim : Limits) (number : option R) (st : State)
  : State :=
  match number with
  | None => st
  | Some val =>
      let val := Rmax (angleMin lim) (Rmin (angleMax lim) val) in
      updateFractal (set_inputs (withAngle (toFixed2 val) (inputs st)) st)
  end.

Definition onTwistNumberChange (lim : Limits) (number : option R) (st : State)
  : State :=
  match number with
  | None => st
  | Some val =>
      let val := Rmax (twistMin lim) (Rmin (twistMax lim) val) in
      updateFractal (set_inputs (withTwist (toFixed2 val) (inputs st)) st)
  end.

(** [extrudeNumber]. The listener assigns the clamped number to the range
    slider and [updateFractal] reads the slider back. The script sets no
    step for this slider, so what the range input keeps of an assigned
    number (the browser moves it onto the slider's step grid, which the
    HTML of the page fixes) is the parameter [sanitize]. *)
Definition onExtrudeNumberChange (lim : Limits) (sanitize : R -> R)
    (number : option R) (st : State) : State :=
  match number with
  | None => st
  | Some val =>
      let val := Rmax (extrudeMin lim) (Rmin (extrudeMax lim) val) in
      updateFractal (set_inputs (withExtrude (sanitize val) (inputs st)) st)
  end.

(** [speedNumber]: the slider and [animationSpeed] take the value;
    [updateFractal] is not called. *)
Definition onSpeedNumberChange (lim : Limits) (text : string) (st : State)
  : State :=
  match parseInt text 10 with
  | None => st
  | Some val =>
      let val := Z.max (speedMin lim) (Z.min (speedMax lim) val) in
      let st := set_inputs (Session.withSpeed val (inputs st)) st in
      let a := anim st in
      set_anim (mkAnimation (animationProgress a) (isAnimating a)
                            (animationTimer a) val) st
  end.

(** *** Nudging *)

(** The modifier keys of a keyboard or wheel event. *)
Record Modifiers : Type := mkModifiers {
  shiftKey : bool;
  altKey : bool;
  metaKey : bool
}.

Definition computeNudgeStep (modKeys : Modifiers) : R :=
  if shiftKey modKeys then 0.01
  else if altKey modKeys || metaKey modKeys then 0.1
  else 1.0.

Definition clamp (val min max : R) : R := Rmin max (Rmax min val).

(** A numeric control as [nudge] reads it: [value] is [None] when the
    text is empty or not a number, [min] and [max] are the attributes. *)
Record Element : Type := mkElement {
  value : option R;
  min : R;
  max : R
}.

(** [nudge(el, dir, mod)] ([modKeys] here) up to the [change] event it dispatches: the
    element with its new value. *)
Definition nudge (el : Element) (dir : R) (modKeys : Modifiers) : Element :=
  let step := computeNudgeStep modKeys in
  let cur := match value el with Some v => v | None => 0 end in
  let next := clamp (cur + dir * step) (min el) (max el) in
  mkElement (Some (toFixed2 next)) (min el) (max el).

(** A number with at most two decimals. *)
Definition hundredth (x : R) : Prop := exists k : Z, x = IZR k / 100.

End Controls.

(** ** The projectors on IEEE doubles

    The two walks once more, with the numbers the script computes with:
    binary64 floating point, every sum and product rounded where the
    source has it. *)

Module Doubles.
Import PrimFloat.
Local Open Scope float_scope.

(** [Math.cos] and [Math.sin]. ECMAScript leaves both
    implementation-approximated, so the pair an engine provides is a
    parameter of the walks. *)
Record Engine : Type := mkEngine {
  Math_cos : float -> float;
  Math_sin : float -> float
}.

(** [Math.PI], the double nearest to pi. *)
Definition Math_PI : float := 0x1.921fb54442d18p+1.

Definition Point2D : Type := float * float.
Definition Point3D : Type := float * float * float.

(** The local variables of [get2DPoints]. *)
Record Turtle2D : Type := mkTurtle2D {
  x2 : float;
  y2 : float;
  direction : float;
  points2 : list Point2D
}.

(** One round of [for (const ch of str)] in [get2DPoints]. *)
Definition step2D (e : Engine) (angleRad : float) (t : Turtle2D) (ch : ascii)
  : Turtle2D :=
  if Ascii.eqb ch "F" || Ascii.eqb ch "G" then
    let x := x2 t + Math_cos e (direction t) in
    let y := y2 t + Math_sin e (direction t) in
    mkTurtle2D x y (direction t) (points2 t ++ [(x, y)])
  else if Ascii.eqb ch "+" then
    mkTurtle2D (x2 t) (y2 t) (direction t + angleRad) (points2 t)
  else if Ascii.eqb ch "-" then
    mkTurtle2D (x2 t) (y2 t) (direction t - angleRad) (points2 t)
  else t.

Definition get2DPoints (e : Engine) (str : string) (angleDeg : float)
  : list Point2D :=
  let angleRad := (angleDeg * Math_PI) / 180 in
  points2 (fold_left (step2D e angleRad) (list_ascii_of_string str)
                     (mkTurtle2D 0 0 0 [(0, 0)])).

Definition Vec3 : Type := float * float * float.
Definition Mat3 : Type := Vec3 * Vec3 * Vec3.

Definition vget (v : Vec3) (i : nat) : float :=
  let '(a, b, c) := v in
  match i with O => a | S O => b | _ => c end.

Definition mget (m : Mat3) (i j : nat) : float :=
  let '(r0, r1, r2) := m in
  vget (match i with O => r0 | S O => r1 | _ => r2 end) j.

Definition getRotationZ (e : Engine) (angle : float) : Mat3 :=
  let c := Math_cos e angle in
  let s := Math_sin e angle in
  ((c, - s, 0),
   (s, c, 0),
   (0, 0, 1)).

Definition getRotationX (e : Engine) (angle : float) : Mat3 :=
  let c := Math_cos e angle in
  let s := Math_sin e angle in
  ((1, 0, 0),
   (0, c, - s),
   (0, s, c)).

(** The innermost loop of [matMul]: [sum] starts at 0 and takes the three
    products in the order k = 0, 1, 2, rounding after each product and
    each sum. *)
Definition matMulEntry (A B : Mat3) (i j : nat) : float :=
  fold_left (fun sum k => sum + mget A i k * mget B k j) [0; 1; 2]%nat 0.

Definition matMul (A B : Mat3) : Mat3 :=
  ((matMulEntry A B 0 0, matMulEntry A B 0 1, matMulEntry A B 0 2),
   (matMulEntry A B 1 0, matMulEntry A B 1 1, matMulEntry A B 1 2),
   (matMulEntry A B 2 0, matMulEntry A B 2 1, matMulEntry A B 2 2)).

Definition applyMat (mat : Mat3) (vec : Vec3) : Vec3 :=
  (mget mat 0 0 * vget vec 0 + mget mat 0 1 * vget vec 1 + mget mat 0 2 * vget vec 2,
   mget mat 1 0 * vget vec 0 + mget mat 1 1 * vget vec 1 + mget mat 1 2 * vget vec 2,
   mget mat 2 0 * vget vec 0 + mget mat 2 1 * vget vec 1 + mget mat 2 2 * vget vec 2).

Definition identity3 : Mat3 :=
  ((1, 0, 0),
   (0, 1, 0),
   (0, 0, 1)).

(** The local variables of [get3DPoints]. *)
Record Turtle3D : Type := mkTurtle3D {
  orientation : Mat3;
  x3 : float;
  y3 : float;
  z3 : float;
  points3 : list Point3D
}.

(** One round of [for (const ch of str)] in [get3DPoints]. *)
Definition step3D (plusRot minusRot : Mat3) (extrude : float)
    (t : Turtle3D) (ch : ascii) : Turtle3D :=
  if Ascii.eqb ch "F" || Ascii.eqb ch "G" then
    let dir := applyMat (orientation t) (1, 0, 0) in
    let x := x3 t + vget dir 0 in
    let y := y3 t + vget dir 1 in
    let z := z3 t + vget dir 2 in
    let z := z + extrude in
    mkTurtle3D (orientation t) x y z (points3 t ++ [(x, y, z)])
  else if Ascii.eqb ch "+" then
    mkTurtle3D (matMul (orientation t) plusRot) (x3 t) (y3 t) (z3 t) (points3 t)
  else if Ascii.eqb ch "-" then
    mkTurtle3D (matMul (orientation t) minusRot) (x3 t) (y3 t) (z3 t) (points3 t)
  else t.

Definition get3DPoints (e : Engine) (str : string)
    (angleDeg twistDeg extrude : float) : list Point3D :=
  let angleRad := (angleDeg * Math_PI) / 180 in
  let twistRad := (twistDeg * Math_PI) / 180 in
  let plusRot := matMul (getRotationZ e angleRad) (getRotationX e twistRad) in
  let minusRot :=
    matMul (getRotationZ e (- angleRad)) (getRotationX e twistRad) in
  points3 (fold_left (step3D plusRot minusRot extrude)
                     (list_ascii_of_string str)
                     (mkTurtle3D identity3 0 0 0 [(0, 0, 0)])).

(** Dropping the third coordinate of a 3D point. *)
Definition flatten (p : Point3D) : Point2D :=
  let '(x, y, _) := p in (x, y).

(** A quarter turn: 90 degrees as [get2DPoints] turns them into radians,
    [(90 * Math.PI) / 180]. *)
Definition quarterTurn : float := 0x1.921fb54442d18p+0.

(** A function given by its values at finitely many doubles; [NaN]
    elsewhere. *)
Definition atQuarterTurns (values : list (float * float)) (x : float)
  : float :=
  match List.find (fun entry => fst entry =? x) values with
  | Some entry => snd entry
  | None => nan
  end.

(** [Math.cos] and [Math.sin] at the headings that a walk with turns of
    90 degrees reaches, from a quarter turn backwards to a full turn: the
    doubles that the engines return there (the correctly rounded values,
    such as [Math.cos(Math.PI / 2) = 6.123233995736766e-17] and
    [Math.sin(Math.PI) = 1.2246467991473532e-16]). *)
Definition quarterTurns : Engine :=
  mkEngine
    (atQuarterTurns
       [(0, 1);
        (quarterTurn, 0x1.1a62633145c07p-54);
        (- quarterTurn, 0x1.1a62633145c07p-54);
        (0x1.921fb54442d18p+1, -1);
        (0x1.2d97c7f3321d2p+2, -0x1.a79394c9e8a0ap-53);
        (0x1.921fb54442d18p+2, 1)])
    (atQuarterTurns
       [(0, 0);
        (quarterTurn, 1);
        (- quarterTurn, -1);
        (0x1.921fb54442d18p+1, 0x1.1a62633145c07p-53);
        (0x1.2d97c7f3321d2p+2, -1);
        (0x1.921fb54442d18p+2, -0x1.1a62633145c07p-52)]).

End Doubles.

(** * Properties *)

(** ** The L-system string *)

Module LSystemFacts.
Import LSystem.

Lemma length_as_list (s : string) :
  String.length s = List.length (list_ascii_of_string s).
Proof. induction s as [|ch s IH]; simpl; [reflexivity|]. now rewrite IH. Qed.

Lemma list_of_append (s t : string) :
  list_ascii_of_string (s ++ t)
  = (list_ascii_of_string s ++ list_ascii_of_string t)%list.
Proof.
  induction s as [|ch s IH]; [reflexivity|].
  change (String ch s ++ t) with (String ch (s ++ t)).
  cbn [list_ascii_of_string app]. now rewrite IH.
Qed.

Lemma rewrite_fold_acc (l : list ascii) (acc : string) :
  list_ascii_of_string
    (fold_left (fun next ch => next ++ rewriteSymbol ch) l acc)
  = (list_ascii_of_string acc
     ++ flat_map (fun ch => list_ascii_of_string (rewriteSymbol ch)) l)%list.
Proof.
  revert acc; induction l as [|ch l IH]; intros acc; simpl.
  - now rewrite app_nil_r.
  - rewrite IH, list_of_append, <- app_assoc. reflexivity.
Qed.

Lemma rewritePass_as_list (s : string) :
  list_ascii_of_string (rewritePass s)
  = flat_map (fun ch => list_ascii_of_string (rewriteSymbol ch))
             (list_ascii_of_string s).
Proof. unfold rewritePass. now rewrite rewrite_fold_acc. Qed.

(** A symbol becomes three symbols, two of them forward-draw, when it is a
    forward-draw symbol, and stays one symbol otherwise. *)
Lemma rewriteSymbol_counts (ch : ascii) :
  let out := list_ascii_of_string (rewriteSymbol ch) in
  List.length (List.filter isForward out)
    = (2 * List.length (List.filter isForward [ch]))%nat
  /\ List.length out
    = (1 + 2 * List.length (List.filter isForward [ch]))%nat.
Proof.
  cbv zeta. unfold rewriteSymbol.
  destruct (Ascii.eqb_spec ch "F") as [->|NF]; [split; reflexivity|].
  destruct (Ascii.eqb_spec ch "G") as [->|NG]; [split; reflexivity|].
  cbn [list_ascii_of_string List.filter]. unfold isForward.
  apply Ascii.eqb_neq in NF, NG. rewrite NF, NG. split; reflexivity.
Qed.

Lemma rewritePass_counts (s : string) :
  countForward (rewritePass s) = (2 * countForward s)%nat
  /\ String.length (rewritePass s)
     = (String.length s + 2 * countForward s)%nat.
Proof.
  unfold countForward. rewrite !length_as_list, rewritePass_as_list.
  induction (list_ascii_of_string s) as [|ch l [IHc IHl]]; [now split|].
  destruct (rewriteSymbol_counts ch) as [Hc Hl].
  cbv zeta in Hc, Hl.
  cbn [flat_map]. rewrite List.filter_app, !List.length_app, IHc, IHl, Hc, Hl.
  change (ch :: l) with ([ch] ++ l)%list.
  rewrite List.filter_app, !List.length_app. cbn [List.length]. split; lia.
Qed.

Lemma iterate_counts (k : nat) (s : string) :
  countForward (iterate k s) = (2 ^ k * countForward s)%nat
  /\ String.length (iterate k s)
     = (String.length s + 2 * (2 ^ k - 1) * countForward s)%nat.
Proof.
  revert s; induction k as [|k IH]; intros s.
  - simpl. split; lia.
  - cbn [iterate]. destruct (IH (rewritePass s)) as [Hc Hl].
    destruct (rewritePass_counts s) as [Rc Rl].
    rewrite Hc, Hl, Rc, Rl, Nat.pow_succ_r'.
    assert (Hp : (1 <= 2 ^ k)%nat) by (clear; induction k; simpl; lia).
    destruct (2 ^ k)%nat as [|p]; [lia|].
    replace (S p - 1)%nat with p by lia.
    replace (2 * S p - 1)%nat with (2 * p + 1)%nat by lia.
    split; ring.
Qed.

(** The expansion has [2^n] forward-draw symbols and [2^n - 1] turns. *)
Lemma expand_counts (n : Z) :
  (0 <= n)%Z ->
  Z.of_nat (countForward (expand n)) = (2 ^ n)%Z
  /\ Z.of_nat (String.length (expand n)) = (2 ^ (n + 1) - 1)%Z.
Proof.
  intros Hn. unfold expand.
  destruct (iterate_counts (Z.to_nat n) "F") as [Hc Hl].
  rewrite Hc, Hl. change (countForward "F") with 1%nat.
  change (String.length "F") with 1%nat.
  assert (Hp : Z.of_nat (2 ^ Z.to_nat n) = (2 ^ n)%Z).
  { rewrite Nat2Z.inj_pow, Z2Nat.id by lia. reflexivity. }
  assert (1 <= 2 ^ Z.to_nat n)%nat.
  { clear. induction (Z.to_nat n); simpl; lia. }
  rewrite Z.pow_add_r by lia. split; lia.
Qed.

Lemma expand_negative (n : Z) : (n < 0)%Z -> expand n = "F".
Proof.
  intros Hn. unfold expand.
  replace (Z.to_nat n) with 0%nat by lia. reflexivity.
Qed.

Lemma expand_truthy (n : Z) : truthy (expand n) = true.
Proof.
  unfold truthy. destruct (String.eqb_spec (expand n) "") as [E|]; [|easy].
  exfalso. unfold expand in E.
  pose proof (iterate_counts (Z.to_nat n) "F") as [_ Hl].
  rewrite E in Hl. simpl in Hl. lia.
Qed.

Lemma generateLSystem_cache_ok (cache : gmap Z string) (n : Z) :
  cache_ok cache -> cache_ok (snd (generateLSystem cache n)).
Proof.
  intros Hok. unfold generateLSystem.
  assert (Hins : cache_ok (<[n := expand n]> cache)).
  { intros k s. rewrite lookup_insert. case_decide.
    - intros [= <-]. now subst.
    - apply Hok. }
  destruct (cache !! n) as [s|]; [destruct (truthy s)|]; simpl; auto.
Qed.

Lemma cacheAfter_ok (calls : list Z) : cache_ok (cacheAfter calls).
Proof.
  unfold cacheAfter.
  assert (H0 : cache_ok ∅) by (intros k s; now rewrite lookup_empty).
  revert H0. generalize (∅ : gmap Z string).
  induction calls as [|n calls IH]; intros cache Hok; simpl; auto.
  apply IH. now apply generateLSystem_cache_ok.
Qed.

(** With a cache that only holds expansions, a hit and a miss return the
    same string. *)
Lemma generateLSystem_expand (cache : gmap Z string) (n : Z) :
  cache_ok cache -> fst (generateLSystem cache n) = expand n.
Proof.
  intros Hok. unfold generateLSystem.
  destruct (cache !! n) as [s|] eqn:E; [|reflexivity].
  destruct (truthy s); [|reflexivity].
  simpl. now apply Hok.
Qed.

(** C1, as the specification has it and refuted: after two passes the
    string is [F+G+F-G], seven symbols and not [3^2 = 9]. Only the
    forward-draw symbols triple; the turn symbols are copied. *)
Lemma generateLSystem_length_not_power_of_3 :
  fst (generateLSystem ∅ 2) = "F+G+F-G"
  /\ Z.of_nat (String.length (fst (generateLSystem ∅ 2))) <> (3 ^ 2)%Z.
Proof. split; [reflexivity | vm_compute; discriminate]. Qed.

(** C1, amended: for every iteration count [n >= 0], whatever calls came
    before, the generated string has [2^n] forward-draw symbols and
    [2^(n+1) - 1] symbols in all; in particular length 3 for [n = 1] and
    length 7 for [n = 2]. *)
Theorem generateLSystem_length (calls : list Z) (n : Z) :
  (0 <= n)%Z ->
  let str := fst (generateLSystem (cacheAfter calls) n) in
  Z.of_nat (String.length str) = (2 ^ (n + 1) - 1)%Z
  /\ Z.of_nat (countForward str) = (2 ^ n)%Z.
Proof.
  intros Hn str. subst str.
  rewrite generateLSystem_expand by apply cacheAfter_ok.
  destruct (expand_counts n Hn). now split.
Qed.

Lemma generateLSystem_length_witness :
  (0 <= 2)%Z
  /\ Z.of_nat (String.length (fst (generateLSystem (cacheAfter [5; 2]%Z) 2)))
     = (2 ^ (2 + 1) - 1)%Z
  /\ Z.of_nat (countForward (fst (generateLSystem (cacheAfter [5; 2]%Z) 2)))
     = (2 ^ 2)%Z.
Proof.
  split; [lia | apply (generateLSystem_length [5; 2]%Z 2); lia].
Defined.

(** C4, as the specification has it and refuted: called with [-1] the
    generator completes normally and returns the axiom. *)
Lemma generateLSystem_negative_returns :
  callGenerateLSystem ∅ (-1) = Returns "F"
  /\ callGenerateLSystem ∅ (-1) <> InvalidArgument.
Proof. split; [reflexivity | discriminate]. Qed.

(** C4, amended: for every negative iteration count the loop body never
    runs and the generator returns the axiom [F]; no error is raised. *)
Theorem generateLSystem_negative (calls : list Z) (n : Z) :
  (n < 0)%Z ->
  callGenerateLSystem (cacheAfter calls) n = Returns "F".
Proof.
  intros Hn. unfold callGenerateLSystem.
  rewrite generateLSystem_expand by apply cacheAfter_ok.
  now rewrite expand_negative.
Qed.

Lemma generateLSystem_negative_witness :
  (-3 < 0)%Z /\ callGenerateLSystem (cacheAfter [1; -3]%Z) (-3) = Returns "F".
Proof.
  split; [lia | apply (generateLSystem_negative [1; -3]%Z (-3)); lia].
Defined.

End LSystemFacts.

(** ** The projectors *)

Module TurtleFacts.
Import LSystem Turtle.
Local Open Scope list_scope.
Local Open Scope R_scope.

(** A run of the 2D turtle only appends to the points it starts with, one
    point per forward-draw symbol. *)
Lemma walk2D_points (angleRad : R) (l : list ascii) (t : Turtle2D) :
  exists added,
    points2 (fold_left (step2D angleRad) l t) = points2 t ++ added
    /\ List.length added = List.length (List.filter isForward l).
Proof.
  revert t; induction l as [|ch l IH]; intros t; cbn [fold_left List.filter].
  - exists []. now rewrite app_nil_r.
  - destruct (IH (step2D angleRad t ch)) as (added & Hp & Hl).
    rewrite Hp. unfold step2D, isForward in *.
    destruct (Ascii.eqb ch "F" || Ascii.eqb ch "G").
    + eexists (_ :: added). cbn [points2 List.length].
      rewrite <- app_assoc. split; [reflexivity | now rewrite Hl].
    + exists added. split; [|exact Hl].
      destruct (Ascii.eqb ch "+"); [reflexivity|].
      destruct (Ascii.eqb ch "-"); reflexivity.
Qed.

Lemma walk3D_points (plusRot minusRot : Mat3) (extrude : R)
    (l : list ascii) (t : Turtle3D) :
  exists added,
    points3 (fold_left (step3D plusRot minusRot extrude) l t)
      = points3 t ++ added
    /\ List.length added = List.length (List.filter isForward l).
Proof.
  revert t; induction l as [|ch l IH]; intros t; cbn [fold_left List.filter].
  - exists []. now rewrite app_nil_r.
  - destruct (IH (step3D plusRot minusRot extrude t ch)) as (added & Hp & Hl).
    rewrite Hp. unfold step3D, isForward in *.
    destruct (Ascii.eqb ch "F" || Ascii.eqb ch "G").
    + eexists (_ :: added). cbn [points3 List.length].
      rewrite <- app_assoc. split; [reflexivity | now rewrite Hl].
    + exists added. split; [|exact Hl].
      destruct (Ascii.eqb ch "+"); [reflexivity|].
      destruct (Ascii.eqb ch "-"); reflexivity.
Qed.

(** C2: for every symbol string (those of the generator among them), every
    turn angle, twist and extrusion, the 2D and the 3D point sequence start
    at the origin and have one point more than the string has forward-draw
    symbols. *)
Theorem projectors_origin_and_length
    (str : string) (angleDeg twistDeg extrude : R) :
  (head (get2DPoints str angleDeg) = Some (0, 0)
   /\ List.length (get2DPoints str angleDeg) = (countForward str + 1)%nat)
  /\ (head (get3DPoints str angleDeg twistDeg extrude) = Some (0, 0, 0)
      /\ List.length (get3DPoints str angleDeg twistDeg extrude)
         = (countForward str + 1)%nat).
Proof.
  unfold get2DPoints, get3DPoints, countForward. cbv zeta. split.
  - match goal with |- context [fold_left ?f ?l ?t] =>
      destruct (walk2D_points (angleDeg * PI / 180) l t) as (added & -> & Hl)
    end.
    cbn [points2 head app]. split; [reflexivity|].
    cbn [List.length]. lia.
  - match goal with |- context [fold_left (step3D ?p ?m ?e) ?l ?t] =>
      destruct (walk3D_points p m e l t) as (added & -> & Hl)
    end.
    cbn [points3 head app]. split; [reflexivity|].
    cbn [List.length]. lia.
Qed.

(** One iteration with right-angle turns: two segments, the second at a
    right angle to the first. *)
Example get2DPoints_right_angle :
  get2DPoints (expand 1) 90 = [(0, 0); (1, 0); (1, 1)].
Proof.
  change (expand 1) with "F+G"%string. unfold get2DPoints.
  cbn [list_ascii_of_string fold_left step2D Ascii.eqb Bool.eqb orb
       x2 y2 direction points2 app].
  replace (0 + 90 * PI / 180) with (PI / 2) by lra.
  rewrite cos_0, sin_0, cos_PI2, sin_PI2.
  repeat f_equal; lra.
Qed.

(** *** The 3D walk with no twist and no extrusion *)

Lemma zero_degrees : 0 * PI / 180 = 0.
Proof. unfold Rdiv. ring. Qed.

(** With twist 0 the two turn matrices are plain rotations about z. *)
Lemma plusRot_flat (a : R) :
  matMul (getRotationZ a) (getRotationX 0) = getRotationZ a.
Proof.
  unfold matMul, matMulEntry, getRotationZ, getRotationX.
  cbn [fold_left mget vget]. rewrite cos_0, sin_0.
  repeat (f_equal; try ring).
Qed.

(** Turning a z-rotation by a z-rotation adds the angles. *)
Lemma turn_rotationZ (d a : R) :
  matMul (getRotationZ d) (getRotationZ a) = getRotationZ (d + a).
Proof.
  unfold matMul, matMulEntry, getRotationZ.
  cbn [fold_left mget vget]. rewrite cos_plus, sin_plus.
  repeat (f_equal; try ring).
Qed.

Lemma step_mirrors (a : R) (t2 : Turtle2D) (t3 : Turtle3D) (ch : ascii) :
  mirrors t2 t3 ->
  mirrors (step2D a t2 ch)
          (step3D (getRotationZ a) (getRotationZ (- a)) 0 t3 ch).
Proof.
  intros (Ho & Hx & Hy & Hz & Hp). unfold step2D, step3D, mirrors.
  destruct (Ascii.eqb ch "F" || Ascii.eqb ch "G").
  - cbn [orientation x3 y3 z3 points3 direction x2 y2 points2].
    rewrite Ho, Hx, Hy, Hz, map_app, Hp.
    unfold applyMat, getRotationZ. cbn [mget vget map flatten].
    repeat split; try ring. repeat f_equal; ring.
  - destruct (Ascii.eqb ch "+"); [|destruct (Ascii.eqb ch "-")];
      cbn [orientation x3 y3 z3 points3 direction x2 y2 points2];
      rewrite ?Ho, ?turn_rotationZ; repeat split; auto.
Qed.

Lemma walk_mirrors (a : R) (l : list ascii) (t2 : Turtle2D) (t3 : Turtle3D) :
  mirrors t2 t3 ->
  mirrors (fold_left (step2D a) l t2)
          (fold_left (step3D (getRotationZ a) (getRotationZ (- a)) 0) l t3).
Proof.
  revert t2 t3; induction l as [|ch l IH]; intros t2 t3 H; [exact H|].
  cbn [fold_left]. apply IH. now apply step_mirrors.
Qed.

(** With coordinates as real numbers and exact [cos] and [sin]: for every
    symbol string and every turn angle, the 3D projector run with twist 0
    and extrusion 0, its points flattened by dropping the third
    coordinate, gives the points of the 2D projector. *)
Theorem get3DPoints_flat_is_get2DPoints (str : string) (angleDeg : R) :
  map flatten (get3DPoints str angleDeg 0 0) = get2DPoints str angleDeg.
Proof.
  unfold get3DPoints, get2DPoints. cbv zeta.
  rewrite zero_degrees, !plusRot_flat.
  apply (walk_mirrors (angleDeg * PI / 180)).
  unfold mirrors, identity3, getRotationZ.
  cbn [orientation x3 y3 z3 points3 direction x2 y2 points2 map flatten].
  rewrite cos_0, sin_0. repeat split. repeat f_equal; ring.
Qed.

End TurtleFacts.

(** ** The projectors on doubles *)

Module DoublesFacts.
Import LSystem Doubles.
Import PrimFloat.
Local Open Scope float_scope.
Local Open Scope list_scope.

(** A run of either walk on doubles appends one point for every
    forward-draw symbol, whatever [Math.cos] and [Math.sin] return. *)
Lemma walk2D_count (e : Engine) (angleRad : float) (l : list ascii)
    (t : Turtle2D) :
  List.length (points2 (fold_left (step2D e angleRad) l t))
  = (List.length (points2 t) + List.length (List.filter isForward l))%nat.
Proof.
  revert t; induction l as [|ch l IH]; intros t; cbn [fold_left List.filter].
  - cbn [List.length]. lia.
  - rewrite IH. unfold step2D, isForward.
    destruct (Ascii.eqb ch "F" || Ascii.eqb ch "G").
    + cbn [points2 List.length]. rewrite List.length_app. cbn [List.length]. lia.
    + destruct (Ascii.eqb ch "+"); [reflexivity|].
      destruct (Ascii.eqb ch "-"); reflexivity.
Qed.

Lemma walk3D_count (plusRot minusRot : Mat3) (extrude : float)
    (l : list ascii) (t : Turtle3D) :
  List.length (points3 (fold_left (step3D plusRot minusRot extrude) l t))
  = (List.length (points3 t) + List.length (List.filter isForward l))%nat.
Proof.
  revert t; induction l as [|ch l IH]; intros t; cbn [fold_left List.filter].
  - cbn [List.length]. lia.
  - rewrite IH. unfold step3D, isForward.
    destruct (Ascii.eqb ch "F" || Ascii.eqb ch "G").
    + cbn [points3 List.length]. rewrite List.length_app. cbn [List.length]. lia.
    + destruct (Ascii.eqb ch "+"); [reflexivity|].
      destruct (Ascii.eqb ch "-"); reflexivity.
Qed.

(** C3, as the specification has it and refuted on the doubles the script
    computes with: for the string of four iterations and turns of 90
    degrees, with twist 0 and extrusion 0, both walks give 17 points, all
    of them numbers, and the first 13 agree; at point 13 the 2D walk has
    y = -9.957992501029599e-17 and the flattened 3D walk
    y = -9.957992501029601e-17. The 2D walk takes [Math.cos] and
    [Math.sin] of an accumulated angle, the 3D walk multiplies rounded
    rotation matrices. *)
Lemma flattened_3D_differs_in_doubles :
  let str := expand 4 in
  let flat := map flatten (get3DPoints quarterTurns str 90 0 0) in
  let plane := get2DPoints quarterTurns str 90 in
  let isNumber p := negb (is_nan (fst p)) && negb (is_nan (snd p)) in
  (str = "F+G+F-G+F+G-F-G+F+G+F-G-F+G-F-G"%string
   /\ List.length flat = 17%nat /\ List.length plane = 17%nat
   /\ forallb isNumber flat = true /\ forallb isNumber plane = true)
  /\ (firstn 13 flat = firstn 13 plane
      /\ nth 13 plane (0, 0) = (-3, -0x1.cb3b399d747f2p-54)
      /\ nth 13 flat (0, 0) = (-3, -0x1.cb3b399d747f4p-54))
  /\ flat <> plane.
Proof.
  cbv zeta. split; [repeat split; vm_compute; reflexivity|].
  split; [repeat split; vm_compute; reflexivity|].
  intros H.
  apply (f_equal (fun l => snd (nth 13 l (0, 0)) =? -0x1.cb3b399d747f2p-54)) in H.
  vm_compute in H. discriminate H.
Qed.

(** C3, amended: for every symbol string and every turn angle, with
    twist 0 and extrusion 0, the flattened 3D output equals the 2D output
    when coordinates are real numbers and [cos], [sin] and the arithmetic
    are exact; computed in doubles, with whatever [Math.cos] and
    [Math.sin] the engine has, the two outputs have the same number of
    points (their coordinates can differ in the last bits). *)
Theorem flattened_3D_matches_2D :
  (forall (str : string) (angleDeg : R),
     map Turtle.flatten (Turtle.get3DPoints str angleDeg 0%R 0%R)
     = Turtle.get2DPoints str angleDeg)
  /\ (forall (e : Engine) (str : string) (angleDeg : float),
        List.length (map flatten (get3DPoints e str angleDeg 0 0))
        = List.length (get2DPoints e str angleDeg)).
Proof.
  split.
  - exact TurtleFacts.get3DPoints_flat_is_get2DPoints.
  - intros e str angleDeg. rewrite List.length_map.
    unfold get3DPoints, get2DPoints. cbv zeta.
    now rewrite walk3D_count, walk2D_count.
Qed.

End DoublesFacts.

(** ** Colours *)

Module ColourFacts.
Import Colour.
Local Open Scope Z_scope.

(** *** Hex strings *)

(** Every channel value is written with exactly two hex digits. *)
Lemma toHex_two_digits (c : Z) :
  0 <= c <= 255 ->
  toHex c = String (hexDigit (c / 16)) (String (hexDigit (c mod 16)) "").
Proof.
  intros Hc.
  assert (Hall : forallb
            (fun n => String.eqb (toHex (Z.of_nat n))
               (String (hexDigit (Z.of_nat n / 16))
                       (String (hexDigit (Z.of_nat n mod 16)) "")))
            (seq 0 256) = true) by (vm_compute; reflexivity).
  rewrite forallb_forall in Hall.
  specialize (Hall (Z.to_nat c)). rewrite Z2Nat.id in Hall by lia.
  apply String.eqb_eq, Hall, in_seq. lia.
Qed.

(** What [parseInt] needs to know about a hex digit. *)
Lemma hexDigit_facts (d : Z) :
  0 <= d < 16 ->
  digitValue (hexDigit d) = Some d
  /\ isWhiteSpace (hexDigit d) = false
  /\ hexDigit d <> "-"%char /\ hexDigit d <> "+"%char
  /\ hexDigit d <> "x"%char /\ hexDigit d <> "X"%char
  /\ hexDigit d <> "#"%char.
Proof.
  intros Hd.
  assert (Hcases : d = 0 \/ d = 1 \/ d = 2 \/ d = 3 \/ d = 4 \/ d = 5
                   \/ d = 6 \/ d = 7 \/ d = 8 \/ d = 9 \/ d = 10 \/ d = 11
                   \/ d = 12 \/ d = 13 \/ d = 14 \/ d = 15) by lia.
  repeat (destruct Hcases as [-> | Hcases]); try subst d;
    repeat split; discriminate.
Qed.

(** [parseInt] of six hex digits is their value in base 16. *)
Lemma parseInt_six_digits (d1 d2 d3 d4 d5 d6 : Z) :
  0 <= d1 < 16 -> 0 <= d2 < 16 -> 0 <= d3 < 16 ->
  0 <= d4 < 16 -> 0 <= d5 < 16 -> 0 <= d6 < 16 ->
  parseInt (String (hexDigit d1) (String (hexDigit d2) (String (hexDigit d3)
           (String (hexDigit d4) (String (hexDigit d5) (String (hexDigit d6)
           "")))))) 16
  = Some (((((d1 * 16 + d2) * 16 + d3) * 16 + d4) * 16 + d5) * 16 + d6).
Proof.
  intros H1 H2 H3 H4 H5 H6.
  destruct (hexDigit_facts d1 H1) as (V1 & W1 & M1 & P1 & _).
  destruct (hexDigit_facts d2 H2) as (V2 & _ & _ & _ & X2 & XX2 & _).
  destruct (hexDigit_facts d3 H3) as (V3 & _).
  destruct (hexDigit_facts d4 H4) as (V4 & _).
  destruct (hexDigit_facts d5 H5) as (V5 & _).
  destruct (hexDigit_facts d6 H6) as (V6 & _).
  unfold parseInt. cbn [trimStart]. rewrite W1.
  assert (Hsign : forall (rest : string),
            match String (hexDigit d1) rest with
            | String "-"%char r => (-1, r)
            | String "+"%char r => (1, r)
            | _ => (1, String (hexDigit d1) rest)
            end = (1, String (hexDigit d1) rest)).
  { intros rest. clear - M1 P1.
    destruct (hexDigit d1) as [[] [] [] [] [] [] [] []]; congruence. }
  rewrite Hsign. cbn [Z.eqb Pos.eqb].
  assert (Hpre : forall (rest : string),
            match String (hexDigit d1) (String (hexDigit d2) rest) with
            | String "0"%char (String "x"%char r) => r
            | String "0"%char (String "X"%char r) => r
            | _ => String (hexDigit d1) (String (hexDigit d2) rest)
            end = String (hexDigit d1) (String (hexDigit d2) rest)).
  { intros rest. clear - X2 XX2.
    destruct (hexDigit d1) as [[] [] [] [] [] [] [] []]; try reflexivity.
    destruct (hexDigit d2) as [[] [] [] [] [] [] [] []]; congruence. }
  rewrite Hpre. cbn [parseDigits].
  rewrite V1, V2, V3, V4, V5, V6.
  replace (d1 <? 16) with true by (symmetry; apply Z.ltb_lt; lia).
  replace (d2 <? 16) with true by (symmetry; apply Z.ltb_lt; lia).
  replace (d3 <? 16) with true by (symmetry; apply Z.ltb_lt; lia).
  replace (d4 <? 16) with true by (symmetry; apply Z.ltb_lt; lia).
  replace (d5 <? 16) with true by (symmetry; apply Z.ltb_lt; lia).
  replace (d6 <? 16) with true by (symmetry; apply Z.ltb_lt; lia).
  cbn [option_map]. f_equal. lia.
Qed.

(** The three channels packed as [parseInt] returns them come apart again
    under the shifts and masks of [hexToRgb]. *)
Lemma unpack_channels (r g b : Z) :
  0 <= r <= 255 -> 0 <= g <= 255 -> 0 <= b <= 255 ->
  let bigint := Some (r * 65536 + g * 256 + b) in
  Z.land (Z.shiftr (ToInt32 bigint) 16) 255 = r
  /\ Z.land (Z.shiftr (ToInt32 bigint) 8) 255 = g
  /\ Z.land (ToInt32 bigint) 255 = b.
Proof.
  intros Hr Hg Hb bigint. subst bigint. unfold ToInt32.
  change 255 with (Z.ones 8). rewrite !Z.land_ones, !Z.shiftr_div_pow2 by lia.
  change (2 ^ 31) with 2147483648. change (2 ^ 32) with 4294967296.
  change (2 ^ 16) with 65536. change (2 ^ 8) with 256.
  change (Z.ones 8) with 255 in *.
  replace ((r * 65536 + g * 256 + b + 2147483648) mod 4294967296 - 2147483648)
    with (r * 65536 + g * 256 + b)
    by (rewrite Z.mod_small; lia).
  repeat split; Z.div_mod_to_equations; lia.
Qed.

(** C9: for every RGB triple with integer channels from 0 to 255, writing
    it as a hex colour string and reading the string back gives the triple
    again. *)
Theorem hexToRgb_rgbToHex (r g b : Z) :
  0 <= r <= 255 -> 0 <= g <= 255 -> 0 <= b <= 255 ->
  hexToRgb (rgbToHex r g b) = (r, g, b).
Proof.
  intros Hr Hg Hb. unfold rgbToHex.
  rewrite !toHex_two_digits by assumption.
  cbv [String.append]. unfold hexToRgb.
  cbn [removeFirst]. change (Ascii.eqb "#" "#") with true. cbv iota.
  rewrite parseInt_six_digits by (Z.div_mod_to_equations; lia).
  replace (((((r / 16 * 16 + r mod 16) * 16 + g / 16) * 16 + g mod 16) * 16
            + b / 16) * 16 + b mod 16)
    with (r * 65536 + g * 256 + b) by (Z.div_mod_to_equations; lia).
  destruct (unpack_channels r g b Hr Hg Hb) as (-> & -> & ->). reflexivity.
Qed.

Lemma hexToRgb_rgbToHex_witness :
  (0 <= 51 <= 255 /\ 0 <= 102 <= 255 /\ 0 <= 204 <= 255)
  /\ rgbToHex 51 102 204 = "#3366cc"
  /\ hexToRgb (rgbToHex 51 102 204) = (51, 102, 204).
Proof.
  split; [lia|]. split; [reflexivity|].
  apply (hexToRgb_rgbToHex 51 102 204); lia.
Defined.

(** *** Rounding and interpolation *)

Local Open Scope R_scope.

Lemma Math_round_IZR (z : Z) : Math_round (IZR z) = z.
Proof. unfold Math_round. apply Zfloor_eq. lra. Qed.

Lemma Math_round_le (x y : R) : x <= y -> (Math_round x <= Math_round y)%Z.
Proof. intros H. unfold Math_round. apply Zfloor_le. lra. Qed.

(** The interpolation parameter of the last segment is in [0, 1). *)
Lemma last_parameter (N : nat) :
  (0 < N)%nat -> 0 <= INR (N - 1) / INR N < 1.
Proof.
  intros HN. assert (HR : 0 < INR N) by (apply lt_0_INR; lia).
  rewrite minus_INR by lia. simpl (INR 1). split.
  - apply Rmult_le_pos; [|left; now apply Rinv_0_lt_compat].
    assert (1 <= INR N) by (change 1 with (INR 1); apply le_INR; lia). lra.
  - apply Rmult_lt_reg_r with (INR N); [exact HR|].
    unfold Rdiv. rewrite Rmult_assoc, Rinv_l by lra. lra.
Qed.

(** A rounded interpolation stays between the two integers it runs
    between. *)
Lemma interpolate_between (s e : Z) (t : R) :
  0 <= t <= 1 ->
  channelBetween s e (Math_round (IZR s + IZR (e - s) * t)).
Proof.
  intros Ht. unfold channelBetween.
  set (v := IZR s + IZR (e - s) * t).
  assert (Hv : v = IZR s + (IZR e - IZR s) * t)
    by (unfold v; now rewrite minus_IZR).
  destruct (Z.le_ge_cases s e) as [Hse|Hse].
  - rewrite Z.min_l, Z.max_r by lia. apply IZR_le in Hse.
    assert (Hlo := Math_round_le (IZR s) v).
    assert (Hhi := Math_round_le v (IZR e)).
    rewrite Math_round_IZR in Hlo, Hhi. split; [apply Hlo | apply Hhi]; nra.
  - rewrite Z.min_r, Z.max_l by lia. apply IZR_le in Hse.
    assert (Hlo := Math_round_le (IZR e) v).
    assert (Hhi := Math_round_le v (IZR s)).
    rewrite Math_round_IZR in Hlo, Hhi. split; [apply Hlo | apply Hhi]; nra.
Qed.

(** The gradient branch of [segmentColour]. *)
Lemma segmentColour_gradient (startRGB endRGB : RGB) (N i : nat) :
  (0 < N)%nat ->
  segmentColour false true startRGB endRGB N i
  = let '(startR, startG, startB) := startRGB in
    let '(endR, endG, endB) := endRGB in
    let t := INR i / INR N in
    (Math_round (IZR startR + IZR (endR - startR) * t),
     Math_round (IZR startG + IZR (endG - startG) * t),
     Math_round (IZR startB + IZR (endB - startB) * t)).
Proof.
  intros HN. unfold segmentColour.
  destruct startRGB as [[sr sg] sb], endRGB as [[er eg] eb].
  apply Nat.ltb_lt in HN. rewrite HN. reflexivity.
Qed.

(** The rainbow branch of [segmentColour]: it is taken whatever the
    gradient flag and the two colours are. *)
Lemma segmentColour_rainbow (useGradient : bool) (startRGB endRGB : RGB)
    (N i : nat) :
  (0 < N)%nat ->
  segmentColour true useGradient startRGB endRGB N i
  = hslToRgb (360 * (INR i / INR N)) 1 0.5.
Proof.
  intros HN. unfold segmentColour.
  destruct startRGB as [[sr sg] sb], endRGB as [[er eg] eb].
  apply Nat.ltb_lt in HN. rewrite HN. reflexivity.
Qed.

(** From black to [#010101] over four segments, the last segment (index
    3, t = 3/4) gets [Math.round(0.75) = 1] in each channel. *)
Lemma gradient_three_quarters :
  segmentColour false true (0, 0, 0)%Z (1, 1, 1)%Z 4 (4 - 1) = (1, 1, 1)%Z.
Proof.
  rewrite segmentColour_gradient by lia. cbv zeta iota beta.
  assert (H : Math_round (IZR 0 + IZR (1 - 0) * (INR (4 - 1) / INR 4)) = 1%Z).
  { unfold Math_round. apply Zfloor_eq.
    change (1 - 0)%Z with 1%Z. simpl. lra. }
  rewrite H. reflexivity.
Qed.

(** C7, amended: for every start and end colour and every segment count
    [N > 1], the gradient policy draws segment 0 in exactly the start
    colour, and the last segment [N - 1] in a colour whose channels lie
    between those of the start and the end colour, ends included (each
    channel is rounded to an integer, so the end colour can be reached). *)
Theorem gradient_endpoints (startRGB endRGB : RGB) (N : nat) :
  (1 < N)%nat ->
  segmentColour false true startRGB endRGB N 0 = startRGB
  /\ colourBetween startRGB endRGB
       (segmentColour false true startRGB endRGB N (N - 1)).
Proof.
  intros HN. rewrite !segmentColour_gradient by lia.
  destruct startRGB as [[sr sg] sb], endRGB as [[er eg] eb].
  cbv zeta. split.
  - simpl (INR 0). unfold Rdiv. rewrite !Rmult_0_l, !Rmult_0_r, !Rplus_0_r.
    now rewrite !Math_round_IZR.
  - assert (Ht : 0 <= INR (N - 1) / INR N <= 1)
      by (destruct (last_parameter N); [lia | lra]).
    unfold colourBetween. repeat split; apply interpolate_between; exact Ht.
Qed.

Lemma gradient_endpoints_witness :
  (1 < 4)%nat
  /\ segmentColour false true (10, 20, 30)%Z (40, 20, 0)%Z 4 0 = (10, 20, 30)%Z
  /\ colourBetween (10, 20, 30)%Z (40, 20, 0)%Z
       (segmentColour false true (10, 20, 30)%Z (40, 20, 0)%Z 4 (4 - 1)).
Proof.
  split; [lia | apply (gradient_endpoints (10, 20, 30)%Z (40, 20, 0)%Z 4); lia].
Defined.

(** *** The rainbow colour of a hue *)

Lemma remainder_small (a b : R) : 0 <= a < b -> remainder a b = a.
Proof.
  intros [Ha Hb]. unfold remainder, Math_trunc.
  assert (H0 : 0 <= a / b) by (apply Rmult_le_pos; [lra | left; apply Rinv_0_lt_compat; lra]).
  assert (H1 : a / b < 1).
  { apply Rmult_lt_reg_r with b; [lra|].
    unfold Rdiv. rewrite Rmult_assoc, Rinv_l by lra. lra. }
  destruct (Rle_dec 0 (a / b)); [|lra].
  rewrite (Zfloor_eq 0 (a / b)) by (simpl; lra). simpl. lra.
Qed.

(** A quarter of the way round the wheel is the yellow-green
    [rgb(128, 255, 0)]. *)
Example hslToRgb_quarter : hslToRgb (360 * (INR 1 / INR 4)) 1 0.5 = (128, 255, 0)%Z.
Proof.
  replace (360 * (INR 1 / INR 4)) with 90 by (simpl; lra).
  unfold hslToRgb. rewrite remainder_small by lra.
  destruct (Req_dec_T 1 0) as [E|_]; [lra|].
  destruct (Rlt_dec 0.5 0.5) as [E|_]; [lra|].
  unfold hue2rgb.
  repeat match goal with
         | |- context [Rlt_dec ?a ?b] =>
             lazymatch a with
             | context [Rlt_dec] => fail
             | _ => lazymatch b with
                    | context [Rlt_dec] => fail
                    | _ => destruct (Rlt_dec a b); try lra
                    end
             end
         end.
  unfold Math_round. f_equal; [f_equal|]; apply Zfloor_eq; simpl; lra.
Qed.

End ColourFacts.

(** ** Camera, renderer and handlers *)

Module PageFacts.
Import Turtle Colour Page ColourFacts.
Local Open Scope list_scope.
Local Open Scope R_scope.

(** *** The camera *)

Lemma Rgtb_false (a b : R) : a <= b -> Rgtb a b = false.
Proof. intros H. unfold Rgtb. destruct (Rlt_dec b a); [lra | reflexivity]. Qed.

(** The flag of a projection is the test of its denominator, camera
    distance minus rotated depth, against the epsilon. *)
Lemma project3D_valid (v : View) (cv : Canvas) (pt : Point3D) :
  valid (project3D v cv pt)
  = Rgtb (cameraDist v - pz (project3D v cv pt)) 0.001.
Proof. unfold project3D. destruct (viewCenter v) as [[vcx vcy] vcz]. reflexivity. Qed.

(** *** What a drawing loop puts on the canvas *)

Lemma fold_ops_Forall (Q : CanvasOp -> Prop)
    (f : list CanvasOp -> nat -> list CanvasOp) (l : list nat)
    (out : list CanvasOp) :
  (forall out i, Forall Q out -> Forall Q (f out i)) ->
  Forall Q out -> Forall Q (fold_left f l out).
Proof.
  intros Hf. revert out. induction l as [|i l IH]; intros out Hout; simpl; auto.
Qed.

Lemma fold_ops_ext (f g : list CanvasOp -> nat -> list CanvasOp)
    (l : list nat) (out : list CanvasOp) :
  (forall out i, f out i = g out i) ->
  fold_left f l out = fold_left g l out.
Proof.
  intros Hfg. revert out. induction l as [|i l IH]; intros out; simpl; auto.
  now rewrite Hfg, IH.
Qed.

(** Every line of the 3D loop joins two valid projections. *)
Lemma draw3D_valid (st : State) (out : list CanvasOp) :
  let Q op := match op with
              | StrokeLine s => valid (endpoint3D st (segment s)) = true
                                /\ valid (endpoint3D st (segment s + 1)) = true
              | ClearRect _ _ _ _ => True
              end in
  Forall Q out -> Forall Q (draw3D st out).
Proof.
  intros Q Hout. unfold draw3D.
  destruct (Nat.ltb _ 2); [exact Hout|].
  apply fold_ops_Forall; [|exact Hout].
  clear out Hout. intros out i Hout. cbv zeta.
  fold (endpoint3D st i). fold (endpoint3D st (i + 1)).
  destruct (valid (endpoint3D st i)) eqn:V1;
    destruct (valid (endpoint3D st (i + 1))) eqn:V2; cbn [negb orb]; auto.
  apply Forall_app. split; [exact Hout|].
  constructor; [|constructor]. unfold Q. cbn [segment]. now split.
Qed.

(** C5: for every view state and every 3D point, a rotated depth at or
    beyond the camera distance makes the perspective denominator at most
    the epsilon 0.001 and the projection invalid; and in 3D mode every
    line the renderer draws joins two valid projections, so a segment with
    an invalid endpoint is never drawn. *)
Theorem behind_camera_never_drawn :
  (forall (v : View) (cv : Canvas) (pt : Point3D),
      cameraDist v <= pz (project3D v cv pt) ->
      cameraDist v - pz (project3D v cv pt) <= 0.001
      /\ valid (project3D v cv pt) = false)
  /\ (forall (st : State) (s : Stroke),
         enable3dInput_checked (inputs st) = true ->
         In (StrokeLine s) (drawOps st) ->
         valid (endpoint3D st (segment s)) = true
         /\ valid (endpoint3D st (segment s + 1)) = true).
Proof.
  split.
  - intros v cv pt Hdepth.
    assert (Hden : cameraDist v - pz (project3D v cv pt) <= 0.001) by lra.
    split; [exact Hden|]. rewrite project3D_valid. now apply Rgtb_false.
  - intros st s H3D Hin. unfold drawOps in Hin. rewrite H3D in Hin.
    cbn [negb] in Hin.
    pose proof (draw3D_valid st
                  [ClearRect 0 0 (width (canvas st)) (height (canvas st))])
      as Hall.
    cbv zeta in Hall.
    assert (Hclear : Forall
              (fun op => match op with
                         | StrokeLine s =>
                             valid (endpoint3D st (segment s)) = true
                             /\ valid (endpoint3D st (segment s + 1)) = true
                         | ClearRect _ _ _ _ => True
                         end)
              [ClearRect 0 0 (width (canvas st)) (height (canvas st))])
      by (constructor; [exact I | constructor]).
    specialize (Hall Hclear).
    rewrite List.Forall_forall in Hall. exact (Hall (StrokeLine s) Hin).
Qed.

(** On the one-segment scene both ends are in front of the camera and the
    segment is drawn; a point four units deep is not valid. *)
Lemma sampleScene_valid (i : nat) :
  (i <= 1)%nat -> valid (endpoint3D sampleScene i) = true.
Proof.
  intros Hi. rewrite (project3D_valid _ _ _ : valid (endpoint3D _ _) = _).
  unfold endpoint3D, project3D, getViewRotation, Rgtb.
  assert (Hc : i = 0%nat \/ i = 1%nat) by lia.
  destruct Hc as [-> | ->];
    cbn [sampleScene set_curve set_view declared view curve currentPoints3D
         nth viewCenter cameraDist rotX rotY pz mget vget];
    rewrite cos_0, sin_0;
    match goal with |- (if ?d then _ else _) = _ => destruct d end;
    [reflexivity | lra | reflexivity | lra].
Qed.

Lemma behind_camera_never_drawn_witness :
  (exists s, In (StrokeLine s) (drawOps sampleScene)
             /\ segment s = 0%nat
             /\ valid (endpoint3D sampleScene (segment s)) = true
             /\ valid (endpoint3D sampleScene (segment s + 1)) = true)
  /\ cameraDist (view sampleScene)
      <= pz (project3D (view sampleScene) (canvas sampleScene) (0, 0, 4))
  /\ valid (project3D (view sampleScene) (canvas sampleScene) (0, 0, 4)) = false.
Proof.
  split.
  - assert (Hdrawn : exists s, In (StrokeLine s) (drawOps sampleScene)
                               /\ segment s = 0%nat).
    { change (drawOps sampleScene) with
        (fold_left
           (fun out i =>
              let p1 := endpoint3D sampleScene i in
              let p2 := endpoint3D sampleScene (i + 1) in
              if negb (valid p1) || negb (valid p2) then out
              else
                out ++ [StrokeLine
                          (mkStroke i
                             (segmentColour false false (hexToRgb "#3366cc")
                                (hexToRgb "#3366cc") 1 i)
                             (Rmax 0.3 (1 - (pz p1 + pz p2) / 2 / (2 * 1)))
                             (px p1) (py p1) (px p2) (py p2))])
           [0%nat] [ClearRect 0 0 300 150]).
      cbn [fold_left]. cbv zeta.
      rewrite !sampleScene_valid by lia. cbn [negb orb app].
      eexists. split; [right; left; reflexivity | reflexivity]. }
    destruct Hdrawn as (s & Hin & Hseg). exists s.
    split; [exact Hin|]. split; [exact Hseg|].
    exact (proj2 behind_camera_never_drawn sampleScene s eq_refl Hin).
  - assert (H : cameraDist (view sampleScene)
                <= pz (project3D (view sampleScene) (canvas sampleScene)
                                 (0, 0, 4))).
    { unfold project3D, getViewRotation.
      cbn [sampleScene set_curve set_view declared view
           viewCenter cameraDist rotX rotY pz mget vget].
      rewrite cos_0, sin_0. lra. }
    split; [exact H|].
    exact (proj2 (proj1 behind_camera_never_drawn _ _ _ H)).
Defined.

(** *** Colour policy *)

(** The colour of a line is the colour [segmentColour] gives its index;
    a loop that runs has at least one segment. *)
Lemma draw2D_colour (st : State) (out : list CanvasOp) :
  let N := (List.length (currentPoints2D (curve st)) - 1)%nat in
  let Q op := match op with
              | StrokeLine s =>
                  (0 < N)%nat
                  /\ strokeStyle s
                     = segmentColour (useRainbow (palette st))
                         (useGradient (palette st))
                         (hexToRgb (startColor (palette st)))
                         (hexToRgb (endColor (palette st))) N (segment s)
              | ClearRect _ _ _ _ => True
              end in
  Forall Q out -> Forall Q (draw2D st out).
Proof.
  intros N Q Hout. unfold draw2D.
  destruct (Nat.ltb _ 2) eqn:Hlen; [exact Hout|].
  apply Nat.ltb_ge in Hlen.
  apply fold_ops_Forall; [|exact Hout].
  clear out Hout. intros out i Hout. cbv zeta.
  destruct (nth i _ _) as [x1 y1], (nth (i + 1) _ _) as [x2 y2].
  apply Forall_app. split; [exact Hout|].
  constructor; [|constructor]. unfold Q, N. cbn [segment strokeStyle].
  split; [lia | reflexivity].
Qed.

Lemma draw3D_colour (st : State) (out : list CanvasOp) :
  let N := (List.length (currentPoints3D (curve st)) - 1)%nat in
  let Q op := match op with
              | StrokeLine s =>
                  (0 < N)%nat
                  /\ strokeStyle s
                     = segmentColour (useRainbow (palette st))
                         (useGradient (palette st))
                         (hexToRgb (startColor (palette st)))
                         (hexToRgb (endColor (palette st))) N (segment s)
              | ClearRect _ _ _ _ => True
              end in
  Forall Q out -> Forall Q (draw3D st out).
Proof.
  intros N Q Hout. unfold draw3D.
  destruct (Nat.ltb _ 2) eqn:Hlen; [exact Hout|].
  apply Nat.ltb_ge in Hlen.
  apply fold_ops_Forall; [|exact Hout].
  clear out Hout. intros out i Hout. cbv zeta.
  destruct (negb _ || negb _); [exact Hout|].
  apply Forall_app. split; [exact Hout|].
  constructor; [|constructor]. unfold Q, N. cbn [segment strokeStyle].
  split; [lia | reflexivity].
Qed.

(** In either mode, a line on the canvas after [draw] has the colour of
    its index, and there is at least one segment. *)
Lemma drawOps_colour (st : State) (s : Stroke) :
  In (StrokeLine s) (drawOps st) ->
  (0 < totalSegmentsOf st)%nat
  /\ strokeStyle s
     = segmentColour (useRainbow (palette st)) (useGradient (palette st))
         (hexToRgb (startColor (palette st)))
         (hexToRgb (endColor (palette st)))
         (totalSegmentsOf st) (segment s).
Proof.
  intros Hin. unfold drawOps, totalSegmentsOf in *.
  set (cleared := [ClearRect 0 0 (width (canvas st)) (height (canvas st))]) in *.
  assert (Hclear : forall Q : CanvasOp -> Prop,
             Q (ClearRect 0 0 (width (canvas st)) (height (canvas st))) ->
             Forall Q cleared)
    by (intros Q HQ; constructor; [exact HQ | constructor]).
  destruct (enable3dInput_checked (inputs st)); cbn [negb] in Hin.
  - pose proof (draw3D_colour st cleared) as Hall. cbv zeta in Hall.
    specialize (Hall (Hclear _ I)). rewrite List.Forall_forall in Hall.
    exact (Hall (StrokeLine s) Hin).
  - pose proof (draw2D_colour st cleared) as Hall. cbv zeta in Hall.
    specialize (Hall (Hclear _ I)). rewrite List.Forall_forall in Hall.
    exact (Hall (StrokeLine s) Hin).
Qed.

(** With the rainbow flag set, neither the gradient flag nor the two
    colours reach the canvas. *)
Lemma drawOps_rainbow_ignores_gradient (st : State)
    (startColor' endColor' : string) (useGradient' : bool) :
  useRainbow (palette st) = true ->
  drawOps (set_palette (mkPalette startColor' endColor' useGradient' true) st)
  = drawOps st.
Proof.
  intros Hrb. unfold drawOps, draw2D, draw3D.
  cbn [set_palette inputs canvas curve anim view palette
       useRainbow useGradient startColor endColor].
  rewrite Hrb.
  destruct (enable3dInput_checked (inputs st)); cbn [negb];
    (destruct (Nat.ltb _ 2) eqn:Hlen; [reflexivity|]);
    apply Nat.ltb_ge in Hlen; apply fold_ops_ext; intros out i.
  - cbv zeta. destruct (negb _ || negb _); [reflexivity|].
    rewrite !segmentColour_rainbow by lia. reflexivity.
  - destruct (nth i _ _) as [x1 y1], (nth (i + 1) _ _) as [x2 y2].
    rewrite !segmentColour_rainbow by lia. reflexivity.
Qed.

(** C6: when the rainbow and the gradient policy are both enabled, every
    segment the renderer draws has the rainbow colour, hue
    [360 * (i / totalSegments)] at full saturation and half lightness, and
    the gradient is not applied: the canvas gets what it gets with the
    gradient switched off. *)
Theorem rainbow_overrides_gradient (st : State) :
  useRainbow (palette st) = true ->
  useGradient (palette st) = true ->
  (forall s, In (StrokeLine s) (drawOps st) ->
     strokeStyle s
     = hslToRgb (360 * (INR (segment s) / INR (totalSegmentsOf st))) 1 0.5)
  /\ drawOps st
     = drawOps (set_palette (mkPalette (startColor (palette st))
                                       (endColor (palette st)) false true) st).
Proof.
  intros Hrb _. split.
  - intros s Hin. destruct (drawOps_colour st s Hin) as [HN ->].
    rewrite Hrb. now apply segmentColour_rainbow.
  - symmetry. now apply drawOps_rainbow_ignores_gradient.
Qed.

(** Every step of the 2D loop appends one line, so each index below
    [maxSegment] has its line on the canvas. *)
Lemma fold_ops_draws (f : list CanvasOp -> nat -> list CanvasOp)
    (l : list nat) (out : list CanvasOp) (i : nat) :
  (forall out j, exists s, f out j = out ++ [StrokeLine s] /\ segment s = j) ->
  In i l ->
  exists s, In (StrokeLine s) (fold_left f l out) /\ segment s = i.
Proof.
  intros Hf.
  assert (Hkeep : forall l out op, In op out -> In op (fold_left f l out)).
  { clear l out. induction l as [|j l IH]; intros out op Hop; [exact Hop|].
    cbn [fold_left]. apply IH. destruct (Hf out j) as (s & -> & _).
    apply in_or_app. now left. }
  revert out. induction l as [|j l IH]; intros out Hi; [destruct Hi|].
  cbn [fold_left]. destruct Hi as [-> | Hi]; [|now apply IH].
  destruct (Hf out i) as (s & Hs & Hseg). exists s. split; [|exact Hseg].
  apply Hkeep. rewrite Hs. apply in_or_app. right. now left.
Qed.

Lemma draw2D_draws (st : State) (out : list CanvasOp) (i : nat) :
  let pts := currentPoints2D (curve st) in
  (2 <= List.length pts)%nat ->
  (i < maxSegmentOf (animationProgress (anim st)) (List.length pts - 1))%nat ->
  exists s, In (StrokeLine s) (draw2D st out) /\ segment s = i.
Proof.
  intros pts Hlen Hi. unfold draw2D. fold pts.
  apply Nat.ltb_ge in Hlen. rewrite Hlen.
  apply fold_ops_draws; [|apply in_seq; lia].
  intros out' j. cbv zeta.
  destruct (nth j pts _) as [x1 y1], (nth (j + 1) pts _) as [x2 y2].
  eexists. split; reflexivity.
Qed.

Lemma drawOps_2D (st : State) :
  enable3dInput_checked (inputs st) = false ->
  drawOps st
  = draw2D st [ClearRect 0 0 (width (canvas st)) (height (canvas st))].
Proof. intros H. unfold drawOps. now rewrite H. Qed.

(** The sample page in 2D with both policies on: its second segment is on
    the canvas, in the rainbow colour of hue 360 * (1 / 4). *)
Lemma rainbow_overrides_gradient_witness :
  let st := samplePage true true false in
  (useRainbow (palette st) = true /\ useGradient (palette st) = true)
  /\ (exists s, In (StrokeLine s) (drawOps st) /\ segment s = 1%nat
                /\ strokeStyle s = hslToRgb (360 * (INR 1 / INR 4)) 1 0.5)
  /\ drawOps st
     = drawOps (set_palette (mkPalette (startColor (palette st))
                                       (endColor (palette st)) false true) st).
Proof.
  cbv zeta.
  pose proof (rainbow_overrides_gradient (samplePage true true false)
                eq_refl eq_refl) as [Hcol Hsame].
  split; [split; reflexivity|]. split; [|exact Hsame].
  destruct (draw2D_draws (samplePage true true false)
              [ClearRect 0 0 (width (canvas (samplePage true true false)))
                             (height (canvas (samplePage true true false)))]
              1)
    as (s & Hin & Hseg).
  - change (2 <= 5)%nat. lia.
  - change (1 < 4)%nat. lia.
  - rewrite <- (drawOps_2D (samplePage true true false) eq_refl) in Hin.
    exists s. split; [exact Hin|]. split; [exact Hseg|].
    rewrite (Hcol s Hin), Hseg.
    change (totalSegmentsOf (samplePage true true false)) with 4%nat.
    reflexivity.
Defined.

(** C7, as the specification has it and refuted: on the sample page with
    the gradient from [#000000] to [#010101] and four segments, the last
    segment (index 3 of 4) is on the canvas in the end colour itself. *)
Lemma gradient_last_segment_reaches_end :
  let st := samplePage true false false in
  (useRainbow (palette st) = false /\ useGradient (palette st) = true
   /\ totalSegmentsOf st = 4%nat
   /\ hexToRgb (startColor (palette st)) = (0, 0, 0)%Z
   /\ hexToRgb (endColor (palette st)) = (1, 1, 1)%Z)
  /\ exists s, In (StrokeLine s) (drawOps st)
               /\ segment s = (totalSegmentsOf st - 1)%nat
               /\ strokeStyle s = hexToRgb (endColor (palette st)).
Proof.
  cbv zeta. split; [repeat split; reflexivity|].
  destruct (draw2D_draws (samplePage true false false)
              [ClearRect 0 0 (width (canvas (samplePage true false false)))
                             (height (canvas (samplePage true false false)))]
              3)
    as (s & Hin & Hseg).
  - change (2 <= 5)%nat. lia.
  - change (3 < 4)%nat. lia.
  - rewrite <- (drawOps_2D (samplePage true false false) eq_refl) in Hin.
    exists s. split; [exact Hin|]. split; [exact Hseg|].
    destruct (drawOps_colour _ s Hin) as [_ ->]. rewrite Hseg.
    exact gradient_three_quarters.
Qed.

(** *** Animation *)

(** C8: a start-animation request that arrives while an animation is
    running is ignored: the handler returns the state it was given, with
    the running flag, the progress counter, the pending timers, the point
    caches, the control flags and the canvas as they were. *)
Theorem start_while_running_is_ignored (st : State) :
  isAnimating (anim st) = true ->
  onAnimateClick st = st /\ handle st AnimateClick = st.
Proof.
  intros Hrun. unfold handle, onAnimateClick. rewrite Hrun. now split.
Qed.

(** A first click on the sample page starts the animation and queues a
    timer; a second click changes nothing. *)
Lemma start_while_running_is_ignored_witness :
  let idle := samplePage false false false in
  let running := onAnimateClick idle in
  (isAnimating (anim idle) = false /\ isAnimating (anim running) = true
   /\ animationProgress (anim running) = 1%Z
   /\ List.length (timers running) = 1%nat)
  /\ onAnimateClick running = running
  /\ handle running AnimateClick = running.
Proof.
  cbv zeta. split; [repeat split; reflexivity|].
  apply (start_while_running_is_ignored
           (onAnimateClick (samplePage false false false))).
  reflexivity.
Defined.

(** *** Zoom *)

(** The zoom the wheel handler leaves in 3D mode. *)
Lemma onWheel_userZoom (deltaY : R) (st : State) :
  enable3dInput_checked (inputs st) = true ->
  userZoom (view (onWheel deltaY st))
  = Rmax 0.1 (Rmin 10 (userZoom (view st) * exp (- deltaY * 0.001))).
Proof. intros H3D. unfold onWheel. rewrite H3D. reflexivity. Qed.

(** C10: in 3D mode, for any wheel delta and any starting zoom in
    [0.1, 10], the user zoom after the wheel event is in [0.1, 10] again:
    every zoom step preserves the clamping invariant. *)
Theorem wheel_zoom_clamped (deltaY : R) (st : State) :
  enable3dInput_checked (inputs st) = true ->
  0.1 <= userZoom (view st) <= 10 ->
  0.1 <= userZoom (view (onWheel deltaY st)) <= 10.
Proof.
  intros H3D _. rewrite onWheel_userZoom by exact H3D. split.
  - apply Rmax_l.
  - apply Rmax_lub; [lra | apply Rmin_l].
Qed.

Lemma wheel_zoom_clamped_witness :
  let st := samplePage false false true in
  (enable3dInput_checked (inputs st) = true /\ userZoom (view st) = 1)
  /\ 0.1 <= userZoom (view (onWheel (-120) st)) <= 10.
Proof.
  cbv zeta. split; [split; reflexivity|].
  apply (wheel_zoom_clamped (-120) (samplePage false false true));
    [reflexivity|].
  change (userZoom (view (samplePage false false true))) with 1. lra.
Defined.

End PageFacts.

(** ** More on colours *)

Module ColourMore.
Import Colour ColourRange ColourFacts.
Local Open Scope Z_scope.

Lemma land_255_channel (x : Z) : channel (Z.land x 255).
Proof.
  unfold channel.
  assert (E : Z.land x 255 = x mod 256)
    by (change 255 with (Z.ones 8); now rewrite Z.land_ones by lia).
  rewrite E. pose proof (Z.mod_pos_bound x 256). lia.
Qed.

Lemma hexToRgb_valid (hex : string) : validRGB (hexToRgb hex).
Proof. unfold hexToRgb, validRGB. repeat split; apply land_255_channel. Qed.

(** Whatever string it is given, [hexToRgb] returns three channels between
    0 and 255; a string with no hex digit after the first [#] is removed
    ([parseInt] gives [NaN]) reads as black. *)
Theorem hexToRgb_always_in_range (hex : string) :
  validRGB (hexToRgb hex)
  /\ (parseInt (removeFirst "#" hex) 16 = None -> hexToRgb hex = (0, 0, 0)).
Proof.
  split; [apply hexToRgb_valid|].
  intros HNaN. unfold hexToRgb. rewrite HNaN. reflexivity.
Qed.

(** Reading six hex digits gives the three two-digit values. *)
Lemma hexToRgb_hexColour (d1 d2 d3 d4 d5 d6 : Z) :
  0 <= d1 < 16 -> 0 <= d2 < 16 -> 0 <= d3 < 16 ->
  0 <= d4 < 16 -> 0 <= d5 < 16 -> 0 <= d6 < 16 ->
  hexToRgb (hexColour d1 d2 d3 d4 d5 d6)
  = (d1 * 16 + d2, d3 * 16 + d4, d5 * 16 + d6).
Proof.
  intros H1 H2 H3 H4 H5 H6. unfold hexColour, hexToRgb.
  cbn [removeFirst]. change (Ascii.eqb "#" "#") with true. cbv iota.
  rewrite parseInt_six_digits by assumption.
  replace (((((d1 * 16 + d2) * 16 + d3) * 16 + d4) * 16 + d5) * 16 + d6)
    with ((d1 * 16 + d2) * 65536 + (d3 * 16 + d4) * 256 + (d5 * 16 + d6))
    by lia.
  destruct (unpack_channels (d1 * 16 + d2) (d3 * 16 + d4) (d5 * 16 + d6))
    as (-> & -> & ->); [lia | lia | lia | reflexivity].
Qed.

(** The round trip from the string side: a colour string of [#] and six
    lower-case hex digits, read by [hexToRgb] and written by [rgbToHex],
    comes back as it was. *)
Theorem rgbToHex_hexToRgb (d1 d2 d3 d4 d5 d6 : Z) :
  0 <= d1 < 16 -> 0 <= d2 < 16 -> 0 <= d3 < 16 ->
  0 <= d4 < 16 -> 0 <= d5 < 16 -> 0 <= d6 < 16 ->
  let hex := hexColour d1 d2 d3 d4 d5 d6 in
  let '(r, g, b) := hexToRgb hex in
  rgbToHex r g b = hex.
Proof.
  intros H1 H2 H3 H4 H5 H6 hex. subst hex.
  rewrite hexToRgb_hexColour by assumption.
  unfold rgbToHex. rewrite !toHex_two_digits by lia.
  replace ((d1 * 16 + d2) / 16) with d1 by (Z.div_mod_to_equations; lia).
  replace ((d1 * 16 + d2) mod 16) with d2 by (Z.div_mod_to_equations; lia).
  replace ((d3 * 16 + d4) / 16) with d3 by (Z.div_mod_to_equations; lia).
  replace ((d3 * 16 + d4) mod 16) with d4 by (Z.div_mod_to_equations; lia).
  replace ((d5 * 16 + d6) / 16) with d5 by (Z.div_mod_to_equations; lia).
  replace ((d5 * 16 + d6) mod 16) with d6 by (Z.div_mod_to_equations; lia).
  reflexivity.
Qed.

Lemma rgbToHex_hexToRgb_witness :
  (0 <= 3 < 16 /\ 0 <= 6 < 16 /\ 0 <= 12 < 16)
  /\ hexColour 3 3 6 6 12 12 = "#3366cc"%string
  /\ (let '(r, g, b) := hexToRgb "#3366cc" in rgbToHex r g b)
     = "#3366cc"%string.
Proof.
  split; [lia|]. split; [reflexivity|].
  apply (rgbToHex_hexToRgb 3 3 6 6 12 12); lia.
Defined.

(** *** Ranges of the real-valued colour arithmetic *)

Local Open Scope R_scope.

Lemma Math_round_channel (x : R) : 0 <= x <= 1 -> channel (Math_round (x * 255)).
Proof.
  intros Hx. unfold channel.
  pose proof (Math_round_le (IZR 0) (x * 255)) as Hlo.
  pose proof (Math_round_le (x * 255) (IZR 255)) as Hhi.
  rewrite Math_round_IZR in Hlo, Hhi. split; [apply Hlo | apply Hhi]; lra.
Qed.

(** The remainder of a non-negative number is in [0, b). *)
Lemma remainder_range (a b : R) : 0 <= a -> 0 < b -> 0 <= remainder a b < b.
Proof.
  intros Ha Hb. unfold remainder, Math_trunc.
  assert (H0 : 0 <= a / b)
    by (apply Rmult_le_pos; [lra | left; now apply Rinv_0_lt_compat]).
  destruct (Rle_dec 0 (a / b)); [|lra].
  pose proof (Zfloor_bound (a / b)) as [Hl Hu].
  assert (E : a = b * (a / b)) by (field; lra).
  set (k := IZR (Zfloor (a / b))) in *.
  split; [| rewrite E at 1]; nra.
Qed.

(** Between [p] and [q], for an argument the one wrap of [hue2rgb] brings
    into [0, 1]. *)
Lemma hue2rgb_range (p q t : R) :
  p <= q -> -1 <= t <= 2 -> p <= hue2rgb p q t <= q.
Proof.
  intros Hpq Ht. unfold hue2rgb.
  destruct (Rlt_dec t 0) as [Hneg|Hneg].
  - destruct (Rlt_dec 1 (t + 1)); [lra|].
    destruct (Rlt_dec (t + 1) (1 / 6)); [nra|].
    destruct (Rlt_dec (t + 1) (1 / 2)); [lra|].
    destruct (Rlt_dec (t + 1) (2 / 3)); [nra | lra].
  - destruct (Rlt_dec 1 t).
    + destruct (Rlt_dec (t - 1) (1 / 6)); [nra|].
      destruct (Rlt_dec (t - 1) (1 / 2)); [lra|].
      destruct (Rlt_dec (t - 1) (2 / 3)); [nra | lra].
    + destruct (Rlt_dec t (1 / 6)); [nra|].
      destruct (Rlt_dec t (1 / 2)); [lra|].
      destruct (Rlt_dec t (2 / 3)); [nra | lra].
Qed.

(** The channels of [hslToRgb] for a hue that is not negative. *)
Lemma hslToRgb_channels (h s l : R) :
  0 <= h -> 0 <= s <= 1 -> 0 <= l <= 1 ->
  validRGB (hslToRgb h s l).
Proof.
  intros Hh Hs Hl. unfold hslToRgb.
  pose proof (remainder_range h 360 Hh ltac:(lra)) as Hrem.
  set (h' := remainder h 360 / 360).
  assert (Hh' : 0 <= h' < 1) by (unfold h'; lra).
  destruct (Req_dec_T s 0) as [_|_].
  - unfold validRGB. repeat split; apply Math_round_channel; lra.
  - set (q := if Rlt_dec l 0.5 then l * (1 + s) else l + s - l * s).
    assert (Hq : l <= q <= 1 /\ 0 <= 2 * l - q)
      by (unfold q; destruct (Rlt_dec l 0.5); split; nra).
    destruct Hq as [Hq Hp].
    assert (Hr : forall t, -1 <= t <= 2 ->
                 0 <= hue2rgb (2 * l - q) q t <= 1).
    { intros t Ht. pose proof (hue2rgb_range (2 * l - q) q t ltac:(lra) Ht).
      lra. }
    unfold validRGB.
    repeat split; apply Math_round_channel; apply Hr; lra.
Qed.

(** For a hue that is not negative and saturation and lightness in
    [0, 1], [hslToRgb] returns three channels between 0 and 255. *)
Theorem hslToRgb_in_range (h s l : R) :
  0 <= h -> 0 <= s <= 1 -> 0 <= l <= 1 ->
  validRGB (hslToRgb h s l).
Proof. intros Hh Hs Hl. now apply hslToRgb_channels. Qed.

Lemma hslToRgb_in_range_witness :
  (0 <= 270 /\ 0 <= 1 <= 1 /\ 0 <= 0.5 <= 1)
  /\ validRGB (hslToRgb 270 1 0.5).
Proof.
  split; [lra | apply (hslToRgb_in_range 270 1 0.5); lra].
Defined.

(** A negative hue is outside what [hslToRgb] is written for: the wrap of
    [hue2rgb] adds 1 once, and the blue channel of hue -350 is -467. *)
Example hslToRgb_negative_hue :
  hslToRgb (-350) 1 0.5 = (255, 43, -467)%Z.
Proof.
  unfold hslToRgb.
  assert (Hrem : remainder (-350) 360 = -350).
  { unfold remainder, Math_trunc.
    destruct (Rle_dec 0 (-350 / 360)); [lra|].
    rewrite (Zceil_eq 0 (-350 / 360)) by (simpl; lra). simpl. lra. }
  rewrite Hrem.
  destruct (Req_dec_T 1 0) as [E|_]; [lra|].
  destruct (Rlt_dec 0.5 0.5) as [E|_]; [lra|].
  unfold hue2rgb.
  repeat match goal with
         | |- context [Rlt_dec ?a ?b] =>
             lazymatch a with
             | context [Rlt_dec] => fail
             | _ => lazymatch b with
                    | context [Rlt_dec] => fail
                    | _ => destruct (Rlt_dec a b); try lra
                    end
             end
         end.
  unfold Math_round. f_equal; [f_equal|]; apply Zfloor_eq; simpl; lra.
Qed.

(** *** The gradient along the curve *)

Lemma interpolate_monotone (s e : Z) (t u : R) :
  0 <= t <= u ->
  channelBetween s (Math_round (IZR s + IZR (e - s) * u))
                   (Math_round (IZR s + IZR (e - s) * t)).
Proof.
  intros Ht. unfold channelBetween. rewrite minus_IZR.
  set (vt := IZR s + (IZR e - IZR s) * t).
  set (vu := IZR s + (IZR e - IZR s) * u).
  destruct (Z.le_ge_cases s e) as [Hse|Hse]; apply IZR_le in Hse.
  - assert (H1 := Math_round_le (IZR s) vt).
    assert (H2 := Math_round_le vt vu).
    rewrite Math_round_IZR in H1.
    assert (Math_round vt <= Math_round vu)%Z by (apply H2; unfold vt, vu; nra).
    assert (s <= Math_round vt)%Z by (apply H1; unfold vt; nra).
    lia.
  - assert (H1 := Math_round_le vt (IZR s)).
    assert (H2 := Math_round_le vu vt).
    rewrite Math_round_IZR in H1.
    assert (Math_round vu <= Math_round vt)%Z by (apply H2; unfold vt, vu; nra).
    assert (Math_round vt <= s)%Z by (apply H1; unfold vt; nra).
    lia.
Qed.

(** Under the gradient policy each channel moves one way along the curve:
    for segment indices [i <= j], the colour of segment [i] lies, channel
    by channel, between the start colour and the colour of segment [j];
    no later segment is closer to the start colour than an earlier one. *)
Theorem gradient_monotone (startRGB endRGB : RGB) (N i j : nat) :
  (0 < N)%nat -> (i <= j)%nat ->
  colourBetween startRGB (segmentColour false true startRGB endRGB N j)
                (segmentColour false true startRGB endRGB N i).
Proof.
  intros HN Hij. rewrite !segmentColour_gradient by exact HN.
  destruct startRGB as [[sr sg] sb], endRGB as [[er eg] eb]. cbv zeta.
  assert (HR : 0 < INR N) by (apply lt_0_INR; lia).
  assert (Ht : 0 <= INR i / INR N <= INR j / INR N).
  { assert (0 <= INR i) by apply pos_INR.
    assert (INR i <= INR j) by (apply le_INR; lia).
    assert (0 < / INR N) by now apply Rinv_0_lt_compat.
    unfold Rdiv. split; nra. }
  unfold colourBetween. repeat split; apply interpolate_monotone; exact Ht.
Qed.

Lemma gradient_monotone_witness :
  ((0 < 4)%nat /\ (1 <= 3)%nat)
  /\ colourBetween (200, 0, 50)%Z
       (segmentColour false true (200, 0, 50)%Z (0, 255, 50)%Z 4 3)
       (segmentColour false true (200, 0, 50)%Z (0, 255, 50)%Z 4 1).
Proof.
  split; [lia|].
  apply (gradient_monotone (200, 0, 50)%Z (0, 255, 50)%Z 4 1 3); lia.
Defined.

(** *** Every policy gives a colour that [rgb()] takes *)

Lemma channelBetween_channel (s e c : Z) :
  channel s -> channel e -> channelBetween s e c -> channel c.
Proof. unfold channel, channelBetween. lia. Qed.

Lemma segmentColour_valid (useRainbow useGradient : bool)
    (startRGB endRGB : RGB) (N i : nat) :
  validRGB startRGB -> validRGB endRGB -> (i <= N)%nat ->
  validRGB (segmentColour useRainbow useGradient startRGB endRGB N i).
Proof.
  intros Hs He Hi.
  destruct (Nat.ltb 0 N) eqn:HN.
  - apply Nat.ltb_lt in HN.
    assert (HR : 0 < INR N) by (apply lt_0_INR; lia).
    assert (Ht : 0 <= INR i / INR N <= 1).
    { assert (0 <= INR i) by apply pos_INR.
      assert (INR i <= INR N) by (apply le_INR; lia).
      assert (0 < / INR N) by now apply Rinv_0_lt_compat.
      split; [unfold Rdiv; nra|].
      apply Rmult_le_reg_r with (INR N); [exact HR|].
      unfold Rdiv. rewrite Rmult_assoc, Rinv_l by lra. lra. }
    destruct useRainbow.
    + rewrite segmentColour_rainbow by exact HN.
      apply hslToRgb_channels; nra.
    + destruct useGradient.
      * rewrite segmentColour_gradient by exact HN.
        destruct startRGB as [[sr sg] sb], endRGB as [[er eg] eb].
        destruct Hs as (? & ? & ?), He as (? & ? & ?). cbv zeta.
        repeat split;
          (eapply channelBetween_channel;
           [| | apply interpolate_between; exact Ht]; assumption).
      * unfold segmentColour.
        destruct startRGB as [[sr sg] sb], endRGB as [[er eg] eb].
        exact Hs.
  - unfold segmentColour.
    destruct startRGB as [[sr sg] sb], endRGB as [[er eg] eb].
    rewrite HN, !andb_false_r. exact Hs.
Qed.

End ColourMore.

(** ** More on the renderer *)

Module RenderMore.
Import Turtle Colour ColourRange Page Frames ColourFacts ColourMore PageFacts.
Local Open Scope list_scope.
Local Open Scope R_scope.

Lemma maxSegmentOf_le (k : Z) (N : nat) : (maxSegmentOf k N <= N)%nat.
Proof. unfold maxSegmentOf. destruct (0 <=? k)%Z; lia. Qed.

Lemma maxSegmentOf_mono (k k' : Z) (N : nat) :
  (0 <= k)%Z -> (k <= k' \/ k' < 0)%Z ->
  (maxSegmentOf k N <= maxSegmentOf k' N)%nat.
Proof.
  intros Hk Hk'. unfold maxSegmentOf.
  destruct (Z.leb_spec 0 k); [|lia]. destruct (Z.leb_spec 0 k'); lia.
Qed.

(** *** Loops that only append *)

Lemma fold_ops_Forall_in (Q : CanvasOp -> Prop)
    (f : list CanvasOp -> nat -> list CanvasOp) (l : list nat)
    (out : list CanvasOp) :
  (forall out i, In i l -> Forall Q out -> Forall Q (f out i)) ->
  Forall Q out -> Forall Q (fold_left f l out).
Proof.
  revert out. induction l as [|i l IH]; intros out Hf Hout; cbn [fold_left].
  - exact Hout.
  - apply IH.
    + intros out' j Hj. apply Hf. now right.
    + apply Hf; [now left | exact Hout].
Qed.

Lemma fold_ops_extends (f : list CanvasOp -> nat -> list CanvasOp)
    (l : list nat) (out : list CanvasOp) :
  (forall out i, exists a, f out i = out ++ a) ->
  exists rest, fold_left f l out = out ++ rest.
Proof.
  intros Hf. revert out. induction l as [|i l IH]; intros out; cbn [fold_left].
  - exists []. now rewrite app_nil_r.
  - destruct (IH (f out i)) as (rest & ->). destruct (Hf out i) as (a & ->).
    exists (a ++ rest). now rewrite app_assoc.
Qed.

Lemma fold_ops_prefix (f : list CanvasOp -> nat -> list CanvasOp)
    (m m' : nat) (out : list CanvasOp) :
  (forall out i, exists a, f out i = out ++ a) ->
  (m <= m')%nat ->
  exists rest, fold_left f (seq 0 m') out = fold_left f (seq 0 m) out ++ rest.
Proof.
  intros Hf Hm. replace m' with (m + (m' - m))%nat by lia.
  rewrite seq_app, fold_left_app. now apply fold_ops_extends.
Qed.

Lemma strokesOf_app (a b : list CanvasOp) :
  strokesOf (a ++ b) = strokesOf a ++ strokesOf b.
Proof. unfold strokesOf. apply flat_map_app. Qed.

(** A loop that appends one line per round draws the indices in order. *)
Lemma fold_ops_segments (f : list CanvasOp -> nat -> list CanvasOp)
    (l : list nat) (out : list CanvasOp) :
  (forall out i, exists s, f out i = out ++ [StrokeLine s] /\ segment s = i) ->
  map segment (strokesOf (fold_left f l out))
  = map segment (strokesOf out) ++ l.
Proof.
  intros Hf. revert out. induction l as [|i l IH]; intros out; cbn [fold_left].
  - now rewrite app_nil_r.
  - rewrite IH. destruct (Hf out i) as (s & -> & Hs).
    rewrite strokesOf_app, map_app. cbn [strokesOf flat_map map app].
    rewrite Hs, <- app_assoc. reflexivity.
Qed.

(** The loop bodies of [draw] only append. *)
Lemma draw2D_body_appends (st : State) (out : list CanvasOp) :
  exists rest, draw2D st out = out ++ rest.
Proof.
  unfold draw2D. destruct (Nat.ltb _ 2).
  - exists []. now rewrite app_nil_r.
  - apply fold_ops_extends. intros out' i. cbv zeta.
    destruct (nth i _ _) as [x1 y1], (nth (i + 1) _ _) as [x2 y2].
    eexists. reflexivity.
Qed.

Lemma fold_ops_strokes (f : list CanvasOp -> nat -> list CanvasOp)
    (l : list nat) (out : list CanvasOp) :
  (forall out i, exists s, f out i = out ++ [StrokeLine s] /\ segment s = i) ->
  exists strokes,
    fold_left f l out = out ++ map StrokeLine strokes
    /\ map segment strokes = l.
Proof.
  intros Hf. revert out. induction l as [|i l IH]; intros out; cbn [fold_left].
  - exists []. split; [now rewrite app_nil_r | reflexivity].
  - destruct (IH (f out i)) as (strokes & -> & Hl).
    destruct (Hf out i) as (s & -> & Hs).
    exists (s :: strokes). cbn [map]. rewrite <- app_assoc, Hs, Hl.
    split; reflexivity.
Qed.

(** Every line on the canvas belongs to a segment of the curve. *)
Lemma drawOps_index (st : State) (s : Stroke) :
  In (StrokeLine s) (drawOps st) ->
  (segment s < totalSegmentsOf st)%nat.
Proof.
  intros Hin.
  set (Q := fun op => match op with
                      | StrokeLine s => (segment s < totalSegmentsOf st)%nat
                      | ClearRect _ _ _ _ => True
                      end).
  assert (Hall : Forall Q (drawOps st)).
  { unfold drawOps.
    assert (Hclear : Forall Q [ClearRect 0 0 (width (canvas st))
                                               (height (canvas st))])
      by (constructor; [exact I | constructor]).
    destruct (enable3dInput_checked (inputs st)) eqn:H3D; cbn [negb].
    - unfold draw3D. destruct (Nat.ltb _ 2); [exact Hclear|].
      apply fold_ops_Forall_in; [|exact Hclear].
      intros out i Hi Hout. cbv zeta. apply in_seq in Hi.
      destruct (negb _ || negb _); [exact Hout|].
      apply Forall_app. split; [exact Hout|].
      constructor; [|constructor]. unfold Q, totalSegmentsOf. rewrite H3D.
      cbn [segment].
      pose proof (maxSegmentOf_le (animationProgress (anim st))
                    (List.length (currentPoints3D (curve st)) - 1)). lia.
    - unfold draw2D. destruct (Nat.ltb _ 2); [exact Hclear|].
      apply fold_ops_Forall_in; [|exact Hclear].
      intros out i Hi Hout. cbv zeta. apply in_seq in Hi.
      destruct (nth i _ _) as [x1 y1], (nth (i + 1) _ _) as [x2 y2].
      apply Forall_app. split; [exact Hout|].
      constructor; [|constructor]. unfold Q, totalSegmentsOf. rewrite H3D.
      cbn [segment].
      pose proof (maxSegmentOf_le (animationProgress (anim st))
                    (List.length (currentPoints2D (curve st)) - 1)). lia. }
  rewrite List.Forall_forall in Hall. exact (Hall (StrokeLine s) Hin).
Qed.

(** Whatever the mode, the colour policy, the two colour strings and the
    progress of the animation, every line [draw] strokes has a colour with
    three channels between 0 and 255 and belongs to a segment of the
    curve. *)
Theorem draw_strokes_valid_colours (st : State) (s : Stroke) :
  In (StrokeLine s) (drawOps st) ->
  validRGB (strokeStyle s) /\ (segment s < totalSegmentsOf st)%nat.
Proof.
  intros Hin. pose proof (drawOps_index st s Hin) as Hidx.
  split; [|exact Hidx].
  destruct (drawOps_colour st s Hin) as [_ ->].
  apply segmentColour_valid; [apply hexToRgb_valid | apply hexToRgb_valid | lia].
Qed.

(** The gradient page: its last line is there and its colour is valid. *)
Lemma draw_strokes_valid_colours_witness :
  exists s, In (StrokeLine s) (drawOps (samplePage true false false))
            /\ segment s = 3%nat /\ validRGB (strokeStyle s).
Proof.
  destruct (draw2D_draws (samplePage true false false)
              [ClearRect 0 0 (width (canvas (samplePage true false false)))
                             (height (canvas (samplePage true false false)))]
              3)
    as (s & Hin & Hseg).
  - change (2 <= 5)%nat. lia.
  - change (3 < 4)%nat. lia.
  - rewrite <- (drawOps_2D (samplePage true false false) eq_refl) in Hin.
    exists s. split; [exact Hin|]. split; [exact Hseg|].
    exact (proj1 (draw_strokes_valid_colours _ s Hin)).
Defined.

(** *** Frames *)

(** In 2D mode [draw] clears the canvas and then, with at least two
    points, strokes the segments 0, 1, ... up to [maxSegment] in order,
    each once and with line width 1: all of them when nothing is animated,
    the first [min(progress, total)] during an animation. With fewer than
    two points it only clears. *)
Theorem draw2D_frame (st : State) (k : Z) :
  enable3dInput_checked (inputs st) = false ->
  let pts := currentPoints2D (curve st) in
  let cleared := ClearRect 0 0 (width (canvas st)) (height (canvas st)) in
  ((List.length pts < 2)%nat -> drawOps (withProgress k st) = [cleared])
  /\ ((2 <= List.length pts)%nat ->
      exists strokes,
        drawOps (withProgress k st) = cleared :: map StrokeLine strokes
        /\ map segment strokes
           = seq 0 (maxSegmentOf k (List.length pts - 1))).
Proof.
  intros H2D pts cleared. unfold drawOps, draw2D.
  cbn [withProgress set_anim inputs canvas curve anim palette animationProgress].
  rewrite H2D. cbn [negb]. fold pts. split; intros Hlen.
  - apply Nat.ltb_lt in Hlen. now rewrite Hlen.
  - apply Nat.ltb_ge in Hlen. rewrite Hlen.
    match goal with
    | |- context [fold_left ?f ?l ?out] =>
        destruct (fold_ops_strokes f l out) as (strokes & -> & Hsegs)
    end.
    + intros out i. cbv zeta.
      destruct (nth i pts _) as [x1 y1], (nth (i + 1) pts _) as [x2 y2].
      eexists. split; reflexivity.
    + exists strokes. split; [reflexivity | exact Hsegs].
Qed.

Lemma draw2D_frame_witness :
  let st := samplePage false false false in
  enable3dInput_checked (inputs st) = false
  /\ (2 <= List.length (currentPoints2D (curve st)))%nat
  /\ exists strokes,
       drawOps (withProgress 3 st)
       = ClearRect 0 0 (width (canvas st)) (height (canvas st))
         :: map StrokeLine strokes
       /\ map segment strokes = [0; 1; 2]%nat.
Proof.
  cbv zeta. split; [reflexivity|].
  split; [change (2 <= 5)%nat; lia|].
  apply (proj2 (draw2D_frame (samplePage false false false) 3 eq_refl)).
  change (2 <= 5)%nat. lia.
Defined.

(** In either mode the frame drawn at progress [k] is the beginning of
    the frame drawn at any later progress and of the finished picture
    (progress -1): the animation only ever adds lines to what an earlier
    tick drew. *)
Theorem frames_grow (st : State) (k k' : Z) :
  (0 <= k)%Z -> (k <= k' \/ k' < 0)%Z ->
  exists rest,
    drawOps (withProgress k' st) = drawOps (withProgress k st) ++ rest.
Proof.
  intros Hk Hk'. unfold drawOps, draw2D, draw3D.
  cbn [withProgress set_anim inputs canvas curve anim palette view
       animationProgress].
  destruct (enable3dInput_checked (inputs st)); cbn [negb];
    (destruct (Nat.ltb _ 2); [exists []; now rewrite app_nil_r|]);
    apply fold_ops_prefix; try (apply maxSegmentOf_mono; assumption);
    intros out i; cbv zeta.
  - destruct (negb _ || negb _).
    + exists []. now rewrite app_nil_r.
    + eexists. reflexivity.
  - destruct (nth i _ _) as [x1 y1], (nth (i + 1) _ _) as [x2 y2].
    eexists. reflexivity.
Qed.

Lemma frames_grow_witness :
  ((0 <= 2)%Z /\ (2 <= 3 \/ 3 < 0)%Z)
  /\ exists rest,
       drawOps (withProgress 3 (samplePage true true true))
       = drawOps (withProgress 2 (samplePage true true true)) ++ rest.
Proof.
  split; [lia|].
  apply (frames_grow (samplePage true true true) 2 3); lia.
Defined.

End RenderMore.

(** ** More on the L-system string and the curves it gives *)

Module LSystemMore.
Import LSystem LSystemShape Turtle LSystemFacts TurtleFacts.
Local Open Scope list_scope.

(** *** The cache *)

(** Memoisation does not show: after any history of calls,
    [generateLSystem(n)] returns the string the rewriting loop gives for
    [n], stores it under [n], and a second call returns the same string
    from the cache and leaves the cache as it is. *)
Theorem generateLSystem_memoised (calls : list Z) (n : Z) :
  let first := generateLSystem (cacheAfter calls) n in
  fst first = expand n
  /\ snd first !! n = Some (expand n)
  /\ generateLSystem (snd first) n = (expand n, snd first).
Proof.
  cbv zeta. pose proof (cacheAfter_ok calls) as Hok.
  assert (Hfst := generateLSystem_expand (cacheAfter calls) n Hok).
  assert (Hlook : snd (generateLSystem (cacheAfter calls) n) !! n
                  = Some (expand n)).
  { unfold generateLSystem.
    destruct (cacheAfter calls !! n) as [s|] eqn:E.
    - destruct (truthy s) eqn:T; cbn [snd].
      + rewrite E. f_equal. now apply Hok.
      + apply lookup_insert_eq.
    - cbn [snd]. apply lookup_insert_eq. }
  split; [exact Hfst|]. split; [exact Hlook|].
  unfold generateLSystem at 1. rewrite Hlook, expand_truthy. reflexivity.
Qed.

(** *** Alternation *)

Lemma alternates_rewrite (l : list ascii) (b : bool) :
  alternates b l = true ->
  alternates b (flat_map (fun ch => list_ascii_of_string (rewriteSymbol ch)) l)
  = true.
Proof.
  revert b. induction l as [|ch l IH]; intros b H; [exact H|].
  cbn [alternates] in H. apply andb_true_iff in H as [Hch Hrest].
  specialize (IH _ Hrest). cbn [flat_map]. unfold rewriteSymbol.
  destruct b; cbn [negb] in *.
  - unfold isForward in Hch.
    destruct (Ascii.eqb_spec ch "F") as [->|NF];
      [cbn [list_ascii_of_string app alternates]; exact IH|].
    destruct (Ascii.eqb_spec ch "G") as [->|NG];
      [cbn [list_ascii_of_string app alternates]; exact IH|].
    discriminate Hch.
  - unfold isTurn in Hch.
    destruct (Ascii.eqb_spec ch "F") as [->|NF]; [discriminate Hch|].
    destruct (Ascii.eqb_spec ch "G") as [->|NG]; [discriminate Hch|].
    cbn [list_ascii_of_string app alternates negb].
    unfold isTurn. rewrite Hch. exact IH.
Qed.

Lemma alternates_iterate (k : nat) (s : string) :
  alternates true (list_ascii_of_string s) = true ->
  alternates true (list_ascii_of_string (iterate k s)) = true.
Proof.
  revert s. induction k as [|k IH]; intros s H; [exact H|].
  cbn [iterate]. apply IH. rewrite rewritePass_as_list.
  now apply alternates_rewrite.
Qed.

(** Every generated string, for any iteration count and history of calls,
    starts and ends with a forward-draw symbol and alternates between
    forward-draw symbols and single turns: the curve never turns twice in
    a row and never draws two segments without a turn between them. *)
Theorem generateLSystem_alternates (calls : list Z) (n : Z) :
  alternates true
    (list_ascii_of_string (fst (generateLSystem (cacheAfter calls) n)))
  = true.
Proof.
  rewrite generateLSystem_expand by apply cacheAfter_ok.
  unfold expand. now apply alternates_iterate.
Qed.

(** *** One more iteration extends the curve *)

Lemma string_of_list_inj (s t : string) :
  list_ascii_of_string s = list_ascii_of_string t -> s = t.
Proof.
  intros H. rewrite <- (string_of_list_ascii_of_string s),
              <- (string_of_list_ascii_of_string t). now rewrite H.
Qed.

Lemma rewritePass_app (s t : string) :
  rewritePass (s ++ t)%string = (rewritePass s ++ rewritePass t)%string.
Proof.
  apply string_of_list_inj.
  rewrite list_of_append, !rewritePass_as_list, list_of_append.
  apply flat_map_app.
Qed.

Lemma iterate_app (k : nat) (s t : string) :
  iterate k (s ++ t)%string = (iterate k s ++ iterate k t)%string.
Proof.
  revert s t. induction k as [|k IH]; intros s t; [reflexivity|].
  cbn [iterate]. now rewrite rewritePass_app, IH.
Qed.

Lemma iterate_turn (k : nat) : iterate k "+" = "+"%string.
Proof. induction k as [|k IH]; [reflexivity | exact IH]. Qed.

Lemma iterate_succ (k : nat) (s : string) :
  iterate (S k) s = iterate k (rewritePass s).
Proof. reflexivity. Qed.

(** The string for [n + 1] is the string for [n], a left turn, and the
    expansion of [G]. *)
Lemma expand_succ (n : Z) :
  (0 <= n)%Z ->
  expand (n + 1)
  = (expand n ++ "+" ++ iterate (Z.to_nat n) "G")%string.
Proof.
  intros Hn. unfold expand.
  replace (Z.to_nat (n + 1)) with (S (Z.to_nat n)) by lia.
  rewrite iterate_succ. change (rewritePass "F") with ("F" ++ "+" ++ "G")%string.
  now rewrite !iterate_app, iterate_turn.
Qed.

(** Walking a longer string only adds points after those of its
    beginning. *)
Lemma get2DPoints_app (s t : string) (angleDeg : R) :
  exists rest,
    get2DPoints (s ++ t)%string angleDeg = get2DPoints s angleDeg ++ rest.
Proof.
  unfold get2DPoints. cbv zeta. rewrite list_of_append, fold_left_app.
  match goal with
  | |- context [fold_left ?f (list_ascii_of_string t) ?w] =>
      destruct (walk2D_points (angleDeg * PI / 180) (list_ascii_of_string t) w)
        as (added & -> & _)
  end.
  now exists added.
Qed.

Lemma get3DPoints_app (s t : string) (angleDeg twistDeg extrude : R) :
  exists rest,
    get3DPoints (s ++ t)%string angleDeg twistDeg extrude
    = get3DPoints s angleDeg twistDeg extrude ++ rest.
Proof.
  unfold get3DPoints. cbv zeta. rewrite list_of_append, fold_left_app.
  match goal with
  | |- context [fold_left (step3D ?p ?m ?e) (list_ascii_of_string t) ?w] =>
      destruct (walk3D_points p m e (list_ascii_of_string t) w)
        as (added & -> & _)
  end.
  now exists added.
Qed.

(** Raising the iteration count by one keeps the curve and extends it:
    for [n >= 0], whatever was generated before, the string generated for
    [n + 1] begins with the string generated for [n], and for any angles
    and extrusion the 2D and the 3D points for [n + 1] begin with the
    points for [n]. *)
Theorem next_iteration_extends (calls calls' : list Z) (n : Z)
    (angleDeg twistDeg extrude : R) :
  (0 <= n)%Z ->
  let str := fst (generateLSystem (cacheAfter calls) n) in
  let next := fst (generateLSystem (cacheAfter calls') (n + 1)) in
  (exists more, next = (str ++ more)%string)
  /\ (exists rest,
        get2DPoints next angleDeg = get2DPoints str angleDeg ++ rest)
  /\ (exists rest,
        get3DPoints next angleDeg twistDeg extrude
        = get3DPoints str angleDeg twistDeg extrude ++ rest).
Proof.
  intros Hn str next. subst str next.
  rewrite !generateLSystem_expand by apply cacheAfter_ok.
  rewrite (expand_succ n Hn). split; [eexists; reflexivity|].
  split; [apply get2DPoints_app | apply get3DPoints_app].
Qed.

Lemma next_iteration_extends_witness :
  (0 <= 1)%Z
  /\ (exists more,
        fst (generateLSystem (cacheAfter [1; 2]%Z) (1 + 1))
        = (fst (generateLSystem (cacheAfter []) 1) ++ more)%string)
  /\ (exists rest,
        get2DPoints (fst (generateLSystem (cacheAfter [1; 2]%Z) (1 + 1))) 90
        = get2DPoints (fst (generateLSystem (cacheAfter []) 1)) 90 ++ rest)
  /\ (exists rest,
        get3DPoints (fst (generateLSystem (cacheAfter [1; 2]%Z) (1 + 1)))
                    90 30 0.5
        = get3DPoints (fst (generateLSystem (cacheAfter []) 1)) 90 30 0.5
          ++ rest).
Proof.
  split; [lia | apply (next_iteration_extends [] [1; 2]%Z 1 90 30 0.5); lia].
Defined.

End LSystemMore.

(** ** More on the projectors *)

Module TurtleMore.
Import LSystem Turtle TurtleShape TurtleFacts.
Local Open Scope list_scope.
Local Open Scope R_scope.

Lemma chain_snoc {A : Type} (P : A -> A -> Prop) (init : list A) (a b : A) :
  chain P (init ++ [a]) -> P a b -> chain P ((init ++ [a]) ++ [b]).
Proof.
  intros Hc Hab. induction init as [|x init IH].
  - cbn. split; [exact Hab | exact I].
  - destruct init as [|y init'].
    + cbn in *. destruct Hc as [Hxa _]. repeat split; assumption.
    + cbn [app chain] in *. destruct Hc as [Hxy Hrest].
      split; [exact Hxy | apply IH; exact Hrest].
Qed.

Lemma cos_sin_unit (d : R) : cos d * cos d + sin d * sin d = 1.
Proof. pose proof (sin2_cos2 d) as H. unfold Rsqr in H. lra. Qed.

(** *** Unit steps in 2D *)

(** The recorded points end with the position of the turtle and are one
    unit apart. *)
Lemma walk2D_unit (angleRad : R) (l : list ascii) (t : Turtle2D) :
  (exists init, points2 t = init ++ [(x2 t, y2 t)]) ->
  chain unitStep2D (points2 t) ->
  chain unitStep2D (points2 (fold_left (step2D angleRad) l t)).
Proof.
  revert t. induction l as [|ch l IH]; intros t Hlast Hc; [exact Hc|].
  cbn [fold_left]. unfold step2D at 2.
  destruct (Ascii.eqb ch "F" || Ascii.eqb ch "G").
  - apply IH; cbn [points2 x2 y2].
    + eexists. reflexivity.
    + destruct Hlast as (init & E). rewrite E in *.
      apply chain_snoc; [exact Hc|]. unfold unitStep2D.
      replace (x2 t + cos (direction t) - x2 t) with (cos (direction t)) by ring.
      replace (y2 t + sin (direction t) - y2 t) with (sin (direction t)) by ring.
      apply cos_sin_unit.
  - destruct (Ascii.eqb ch "+"); [|destruct (Ascii.eqb ch "-")];
      apply IH; cbn [points2 x2 y2]; assumption.
Qed.

(** For every string and every turn angle, each 2D segment has length
    one: consecutive points of [get2DPoints] are one unit apart. *)
Theorem get2DPoints_unit_steps (str : string) (angleDeg : R) :
  chain unitStep2D (get2DPoints str angleDeg).
Proof.
  unfold get2DPoints. cbv zeta. apply walk2D_unit.
  - exists []. reflexivity.
  - exact I.
Qed.

(** *** The orientation matrix stays a rotation *)

Ltac mat_entries :=
  unfold orthogonal, matMul, matMulEntry, transpose, identity3,
         getRotationZ, getRotationX;
  cbn [fold_left mget vget].

Lemma matMul_assoc (A B C : Mat3) :
  matMul (matMul A B) C = matMul A (matMul B C).
Proof.
  destruct A as [[[[a00 a01] a02] [[a10 a11] a12]] [[a20 a21] a22]].
  destruct B as [[[[b00 b01] b02] [[b10 b11] b12]] [[b20 b21] b22]].
  destruct C as [[[[c00 c01] c02] [[c10 c11] c12]] [[c20 c21] c22]].
  mat_entries. repeat (f_equal; try ring).
Qed.

Lemma transpose_matMul (A B : Mat3) :
  transpose (matMul A B) = matMul (transpose B) (transpose A).
Proof.
  destruct A as [[[[a00 a01] a02] [[a10 a11] a12]] [[a20 a21] a22]].
  destruct B as [[[[b00 b01] b02] [[b10 b11] b12]] [[b20 b21] b22]].
  mat_entries. repeat (f_equal; try ring).
Qed.

Lemma matMul_identity_l (A : Mat3) : matMul identity3 A = A.
Proof.
  destruct A as [[[[a00 a01] a02] [[a10 a11] a12]] [[a20 a21] a22]].
  mat_entries. repeat (f_equal; try ring).
Qed.

Lemma orthogonal_identity : orthogonal identity3.
Proof. mat_entries. repeat (f_equal; try ring). Qed.

Lemma orthogonal_matMul (A B : Mat3) :
  orthogonal A -> orthogonal B -> orthogonal (matMul A B).
Proof.
  unfold orthogonal. intros HA HB.
  rewrite transpose_matMul, matMul_assoc, <- (matMul_assoc (transpose A)).
  now rewrite HA, matMul_identity_l.
Qed.

Lemma orthogonal_rotationZ (a : R) : orthogonal (getRotationZ a).
Proof.
  pose proof (cos_sin_unit a). mat_entries. repeat (f_equal; try nra).
Qed.

Lemma orthogonal_rotationX (a : R) : orthogonal (getRotationX a).
Proof.
  pose proof (cos_sin_unit a). mat_entries. repeat (f_equal; try nra).
Qed.

(** The local forward axis of an orthogonal frame has length one. *)
Lemma forward_axis_unit (M : Mat3) :
  orthogonal M ->
  let dir := applyMat M (1, 0, 0) in
  vget dir 0 * vget dir 0 + vget dir 1 * vget dir 1 + vget dir 2 * vget dir 2
  = 1.
Proof.
  destruct M as [[[[a00 a01] a02] [[a10 a11] a12]] [[a20 a21] a22]].
  unfold applyMat. mat_entries. intros H. injection H as H00 _ _ _ _ _ _ _ _.
  nra.
Qed.

(** *** Unit steps in 3D *)

Lemma walk3D_unit (plusRot minusRot : Mat3) (extrude : R)
    (l : list ascii) (t : Turtle3D) :
  orthogonal plusRot -> orthogonal minusRot ->
  orthogonal (orientation t) ->
  (exists init, points3 t = init ++ [(x3 t, y3 t, z3 t)]) ->
  chain (unitStep3D extrude) (points3 t) ->
  let t' := fold_left (step3D plusRot minusRot extrude) l t in
  orthogonal (orientation t') /\ chain (unitStep3D extrude) (points3 t').
Proof.
  intros Hp Hm. revert t. induction l as [|ch l IH]; intros t Ho Hlast Hc;
    [split; assumption|].
  cbn [fold_left]. unfold step3D at 2 4.
  destruct (Ascii.eqb ch "F" || Ascii.eqb ch "G").
  - apply IH; cbn [points3 x3 y3 z3 orientation].
    + exact Ho.
    + eexists. reflexivity.
    + destruct Hlast as (init & E). rewrite E in *.
      apply chain_snoc; [exact Hc|]. unfold unitStep3D.
      pose proof (forward_axis_unit _ Ho) as Hu. cbv zeta in Hu.
      etransitivity; [|exact Hu]. ring.
  - destruct (Ascii.eqb ch "+"); [|destruct (Ascii.eqb ch "-")];
      apply IH; cbn [points3 x3 y3 z3 orientation];
      try assumption; now apply orthogonal_matMul.
Qed.

(** For every string, turn angle, twist and extrusion, the orientation
    of the 3D turtle stays a rotation, so each 3D segment is a step of
    length one along the local forward axis plus the extrusion along the
    global z axis; with extrusion 0 every segment has length one. *)
Theorem get3DPoints_unit_steps (str : string) (angleDeg twistDeg extrude : R) :
  chain (unitStep3D extrude) (get3DPoints str angleDeg twistDeg extrude).
Proof.
  unfold get3DPoints. cbv zeta. apply walk3D_unit.
  - apply orthogonal_matMul;
      [apply orthogonal_rotationZ | apply orthogonal_rotationX].
  - apply orthogonal_matMul;
      [apply orthogonal_rotationZ | apply orthogonal_rotationX].
  - apply orthogonal_identity.
  - exists []. reflexivity.
  - exact I.
Qed.

(** *** Negative angles *)

Lemma walk2D_mirror (a : R) (l : list ascii) (t t' : Turtle2D) :
  x2 t' = x2 t -> y2 t' = - y2 t -> direction t' = - direction t ->
  points2 t' = map mirrorY (points2 t) ->
  points2 (fold_left (step2D (- a)) l t')
  = map mirrorY (points2 (fold_left (step2D a) l t)).
Proof.
  revert t t'. induction l as [|ch l IH]; intros t t' Hx Hy Hd Hp; [exact Hp|].
  cbn [fold_left]. unfold step2D at 2 4.
  destruct (Ascii.eqb ch "F" || Ascii.eqb ch "G").
  - apply IH; cbn [x2 y2 direction points2];
      rewrite ?Hx, ?Hy, ?Hd, ?Hp, ?cos_neg, ?sin_neg; try ring.
    rewrite map_app. cbn [map mirrorY]. repeat f_equal. ring.
  - destruct (Ascii.eqb ch "+"); [|destruct (Ascii.eqb ch "-")];
      apply IH; cbn [x2 y2 direction points2];
      rewrite ?Hd; try assumption; ring.
Qed.

(** Turning by the negated angle draws the mirror image: for every
    string, the 2D points for angle [-a] are the points for angle [a]
    with the sign of y flipped. *)
Theorem get2DPoints_negated_angle (str : string) (angleDeg : R) :
  get2DPoints str (- angleDeg) = map mirrorY (get2DPoints str angleDeg).
Proof.
  unfold get2DPoints. cbv zeta.
  replace (- angleDeg * PI / 180) with (- (angleDeg * PI / 180))
    by (unfold Rdiv; ring).
  apply walk2D_mirror; cbn [x2 y2 direction points2 map mirrorY];
    try ring. repeat f_equal; ring.
Qed.

End TurtleMore.

(** ** More on the camera *)

Module CameraMore.
Import Turtle Colour Page Frames PageFacts RenderMore.
Local Open Scope list_scope.
Local Open Scope R_scope.

(** *** Bounding boxes *)

(** A running minimum that has not been set to minus infinity ends below
    every number it has seen and below the number it started from. *)
Lemma lower_fold (xs : list R) (b : Bound) :
  b <> NegInfinity ->
  let r := fold_left lower xs b in
  r <> NegInfinity
  /\ (forall x, In x xs -> exists m, r = Finite m /\ m <= x)
  /\ (forall m0, b = Finite m0 -> exists m, r = Finite m /\ m <= m0).
Proof.
  revert b. induction xs as [|x xs IH]; intros b Hb; cbn [fold_left].
  - split; [exact Hb|]. split; [intros x []|].
    intros m0 ->. exists m0. split; [reflexivity | lra].
  - assert (Hstep : exists m, lower b x = Finite m /\ m <= x
                              /\ forall m0, b = Finite m0 -> m <= m0).
    { destruct b as [|m0|]; [congruence | |]; cbn [lower].
      - destruct (Rlt_dec x m0).
        + exists x. repeat split; [lra|]. intros ? [= <-]. lra.
        + exists m0. repeat split; [lra|]. intros ? [= <-]. lra.
      - exists x. repeat split; [lra|]. intros ? [=]. }
    destruct Hstep as (m & Em & Hmx & Hm0).
    destruct (IH (lower b x)) as (Hr & Hin & Hfin); [rewrite Em; congruence|].
    destruct (Hfin m Em) as (m' & Er & Hm').
    split; [exact Hr|]. split.
    + intros y [<- | Hy]; [|now apply Hin].
      exists m'. split; [exact Er | lra].
    + intros m0 E0. exists m'. split; [exact Er|]. specialize (Hm0 m0 E0). lra.
Qed.

Lemma upper_fold (xs : list R) (b : Bound) :
  b <> PosInfinity ->
  let r := fold_left upper xs b in
  r <> PosInfinity
  /\ (forall x, In x xs -> exists m, r = Finite m /\ x <= m)
  /\ (forall m0, b = Finite m0 -> exists m, r = Finite m /\ m0 <= m).
Proof.
  revert b. induction xs as [|x xs IH]; intros b Hb; cbn [fold_left].
  - split; [exact Hb|]. split; [intros x []|].
    intros m0 ->. exists m0. split; [reflexivity | lra].
  - assert (Hstep : exists m, upper b x = Finite m /\ x <= m
                              /\ forall m0, b = Finite m0 -> m0 <= m).
    { destruct b as [|m0|]; [| |congruence]; cbn [upper].
      - exists x. repeat split; [lra|]. intros ? [=].
      - destruct (Rlt_dec m0 x).
        + exists x. repeat split; [lra|]. intros ? [= <-]. lra.
        + exists m0. repeat split; [lra|]. intros ? [= <-]. lra. }
    destruct Hstep as (m & Em & Hmx & Hm0).
    destruct (IH (upper b x)) as (Hr & Hin & Hfin); [rewrite Em; congruence|].
    destruct (Hfin m Em) as (m' & Er & Hm').
    split; [exact Hr|]. split.
    + intros y [<- | Hy]; [|now apply Hin].
      exists m'. split; [exact Er | lra].
    + intros m0 E0. exists m'. split; [exact Er|]. specialize (Hm0 m0 E0). lra.
Qed.

(** The number a running minimum or maximum holds after the loop bounds
    every number of the list. *)
Lemma lower_fold_bound (xs : list R) (x : R) :
  In x xs -> bound (fold_left lower xs PosInfinity) <= x.
Proof.
  intros Hx. destruct (lower_fold xs PosInfinity) as (_ & Hin & _);
    [congruence|].
  destruct (Hin x Hx) as (m & -> & Hm). exact Hm.
Qed.

Lemma upper_fold_bound (xs : list R) (x : R) :
  In x xs -> x <= bound (fold_left upper xs NegInfinity).
Proof.
  intros Hx. destruct (upper_fold xs NegInfinity) as (_ & Hin & _);
    [congruence|].
  destruct (Hin x Hx) as (m & -> & Hm). exact Hm.
Qed.

(** The six fields of the box of the 3D loop are the running minima and
    maxima of the three coordinates. *)
Lemma box3D_fields (pts : list Point3D) (box : Box) :
  let final :=
    fold_left
      (fun box '(x, y, z) =>
         mkBox (lower (minX box) x) (lower (minY box) y) (lower (minZ box) z)
               (upper (maxX box) x) (upper (maxY box) y) (upper (maxZ box) z))
      pts box in
  minX final = fold_left lower (map (fun p => vget p 0) pts) (minX box)
  /\ minY final = fold_left lower (map (fun p => vget p 1) pts) (minY box)
  /\ minZ final = fold_left lower (map (fun p => vget p 2) pts) (minZ box)
  /\ maxX final = fold_left upper (map (fun p => vget p 0) pts) (maxX box)
  /\ maxY final = fold_left upper (map (fun p => vget p 1) pts) (maxY box)
  /\ maxZ final = fold_left upper (map (fun p => vget p 2) pts) (maxZ box).
Proof.
  revert box. induction pts as [|[[x y] z] pts IH]; intros box; cbv zeta.
  - repeat split.
  - cbn [fold_left map]. apply (IH (mkBox _ _ _ _ _ _)).
Qed.

Lemma box2D_fields (pts : list Point2D) (box : Box) :
  let final :=
    fold_left
      (fun box '(x, y) =>
         mkBox (lower (minX box) x) (lower (minY box) y) (minZ box)
               (upper (maxX box) x) (upper (maxY box) y) (maxZ box))
      pts box in
  minX final = fold_left lower (map fst pts) (minX box)
  /\ minY final = fold_left lower (map snd pts) (minY box)
  /\ maxX final = fold_left upper (map fst pts) (maxX box)
  /\ maxY final = fold_left upper (map snd pts) (maxY box).
Proof.
  revert box. induction pts as [|[x y] pts IH]; intros box; cbv zeta.
  - repeat split.
  - cbn [fold_left map]. apply (IH (mkBox _ _ _ _ _ _)).
Qed.

(** *** Depth after the view rotation *)

Lemma cauchy3 (a b c x y z : R) :
  (a * x + b * y + c * z) * (a * x + b * y + c * z)
  <= (a * a + b * b + c * c) * (x * x + y * y + z * z).
Proof.
  pose proof (Rle_0_sqr (a * y - b * x)).
  pose proof (Rle_0_sqr (a * z - c * x)).
  pose proof (Rle_0_sqr (b * z - c * y)).
  unfold Rsqr in *. nra.
Qed.

Lemma unit_circle (d : R) : cos d * cos d + sin d * sin d = 1.
Proof. pose proof (sin2_cos2 d) as H. unfold Rsqr in H. lra. Qed.

(** The view rotation does not lengthen: the square of the rotated depth
    of a point is at most its squared distance from the view centre. *)
Lemma depth_bound (v : View) (cv : Canvas) (pt : Point3D) :
  let '(vcx, vcy, vcz) := viewCenter v in
  let rz := pz (project3D v cv pt) in
  rz * rz <= (vget pt 0 - vcx) * (vget pt 0 - vcx)
             + (vget pt 1 - vcy) * (vget pt 1 - vcy)
             + (vget pt 2 - vcz) * (vget pt 2 - vcz).
Proof.
  unfold project3D, getViewRotation.
  destruct (viewCenter v) as [[vcx vcy] vcz]. cbn [pz mget vget].
  set (dx := vget pt 0 - vcx). set (dy := vget pt 1 - vcy).
  set (dz := vget pt 2 - vcz).
  pose proof (cauchy3 (- cos (rotX v) * sin (rotY v)) (sin (rotX v))
                (cos (rotX v) * cos (rotY v)) dx dy dz) as HC.
  assert (Hunit : - cos (rotX v) * sin (rotY v) * (- cos (rotX v) * sin (rotY v))
                  + sin (rotX v) * sin (rotX v)
                  + cos (rotX v) * cos (rotY v) * (cos (rotX v) * cos (rotY v))
                  = 1).
  { pose proof (unit_circle (rotX v)). pose proof (unit_circle (rotY v)).
    set (cx := cos (rotX v)) in *. set (sx := sin (rotX v)) in *.
    set (cy := cos (rotY v)) in *. set (sy := sin (rotY v)) in *.
    replace (- cx * sy * (- cx * sy) + sx * sx + cx * cy * (cx * cy))
      with (cx * cx * (cy * cy + sy * sy) + sx * sx) by ring.
    replace (cy * cy + sy * sy) with 1 by lra. lra. }
  rewrite Hunit, Rmult_1_l in HC. exact HC.
Qed.

(** *** The view that [compute3DBounds] sets *)

(** With points to look at, the view centre is the centre of their
    bounding box, the bounding radius half its diagonal and the camera
    distance three radii; the points and the canvas stay. *)
Lemma compute3DBounds_view (preserveView : bool) (st : State) :
  currentPoints3D (curve st) <> [] ->
  let pts := currentPoints3D (curve st) in
  let lo i := bound (fold_left lower (map (fun p => vget p i) pts) PosInfinity) in
  let hi i := bound (fold_left upper (map (fun p => vget p i) pts) NegInfinity) in
  let dx := hi 0%nat - lo 0%nat in
  let dy := hi 1%nat - lo 1%nat in
  let dz := hi 2%nat - lo 2%nat in
  let radius := sqrt (dx * dx + dy * dy + dz * dz) / 2 in
  let st' := compute3DBounds preserveView st in
  viewCenter (view st')
  = ((lo 0%nat + hi 0%nat) / 2, (lo 1%nat + hi 1%nat) / 2,
     (lo 2%nat + hi 2%nat) / 2)
  /\ boundingRadius (view st') = radius
  /\ cameraDist (view st') = 3 * radius
  /\ curve st' = curve st /\ canvas st' = canvas st
  /\ inputs st' = inputs st /\ anim st' = anim st /\ palette st' = palette st.
Proof.
  intros Hne. cbv zeta. unfold compute3DBounds.
  destruct (currentPoints3D (curve st)) as [|p0 pts] eqn:E; [congruence|].
  cbn [List.length Nat.eqb].
  destruct (box3D_fields (p0 :: pts) emptyBox) as (-> & -> & -> & -> & -> & ->).
  cbn [emptyBox minX minY minZ maxX maxY maxZ].
  destruct preserveView; cbn [set_view view viewCenter boundingRadius
                              cameraDist curve canvas inputs anim palette];
    repeat split; reflexivity.
Qed.

Lemma Rgtb_true_intro (a b : R) : b < a -> Rgtb a b = true.
Proof. intros H. unfold Rgtb. destruct (Rlt_dec b a); [reflexivity | lra]. Qed.

Lemma centred_square (lo hi x : R) :
  lo <= x <= hi ->
  (x - (lo + hi) / 2) * (x - (lo + hi) / 2) <= (hi - lo) * (hi - lo) / 4.
Proof. intros H. nra. Qed.

(** The box of [compute3DBounds] covers the points: rotated depths stay
    within the radius, and the camera at three radii sees them all. *)
Lemma bounds_cover_points (preserveView : bool) (st : State)
    (v' : View) (p : Point3D) :
  let st' := compute3DBounds preserveView st in
  In p (currentPoints3D (curve st)) ->
  viewCenter v' = viewCenter (view st') ->
  cameraDist v' = cameraDist (view st') ->
  Rabs (pz (project3D v' (canvas st') p)) <= boundingRadius (view st')
  /\ (0.0005 < boundingRadius (view st') ->
      valid (project3D v' (canvas st') p) = true).
Proof.
  intros st' Hp Hc Hd.
  assert (Hne : currentPoints3D (curve st) <> [])
    by (intros E; rewrite E in Hp; destruct Hp).
  destruct (compute3DBounds_view preserveView st Hne)
    as (Ec & Er & Ed & _). cbv zeta beta in Ec, Er, Ed. fold st' in Ec, Er, Ed.
  set (pts := currentPoints3D (curve st)) in *.
  assert (Hlo : forall i : nat,
             bound (fold_left lower (map (fun q => vget q i) pts) PosInfinity)
             <= vget p i)
    by (intros i; apply lower_fold_bound;
        apply (in_map (fun q => vget q i)); exact Hp).
  assert (Hhi : forall i : nat,
             vget p i
             <= bound (fold_left upper (map (fun q => vget q i) pts) NegInfinity))
    by (intros i; apply upper_fold_bound;
        apply (in_map (fun q => vget q i)); exact Hp).
  pose proof (Hlo 0%nat) as Hlo0. pose proof (Hlo 1%nat) as Hlo1.
  pose proof (Hlo 2%nat) as Hlo2. pose proof (Hhi 0%nat) as Hhi0.
  pose proof (Hhi 1%nat) as Hhi1. pose proof (Hhi 2%nat) as Hhi2.
  clear Hlo Hhi.
  set (lo0 := bound (fold_left lower (map (fun q => vget q 0%nat) pts) _)) in *.
  set (lo1 := bound (fold_left lower (map (fun q => vget q 1%nat) pts) _)) in *.
  set (lo2 := bound (fold_left lower (map (fun q => vget q 2%nat) pts) _)) in *.
  set (hi0 := bound (fold_left upper (map (fun q => vget q 0%nat) pts) _)) in *.
  set (hi1 := bound (fold_left upper (map (fun q => vget q 1%nat) pts) _)) in *.
  set (hi2 := bound (fold_left upper (map (fun q => vget q 2%nat) pts) _)) in *.
  set (D := (hi0 - lo0) * (hi0 - lo0) + (hi1 - lo1) * (hi1 - lo1)
            + (hi2 - lo2) * (hi2 - lo2)) in *.
  assert (HD : 0 <= D) by (unfold D; nra).
  assert (Hsq : sqrt D * sqrt D = D) by now apply sqrt_sqrt.
  assert (Hr0 : 0 <= boundingRadius (view st'))
    by (rewrite Er; pose proof (sqrt_pos D); lra).
  pose proof (depth_bound v' (canvas st') p) as Hdepth.
  rewrite Hc, Ec in Hdepth. cbv zeta in Hdepth.
  set (rz := pz (project3D v' (canvas st') p)) in *.
  pose proof (centred_square _ _ _ (conj Hlo0 Hhi0)) as H0.
  pose proof (centred_square _ _ _ (conj Hlo1 Hhi1)) as H1.
  pose proof (centred_square _ _ _ (conj Hlo2 Hhi2)) as H2.
  assert (Hrz : rz * rz
                <= boundingRadius (view st') * boundingRadius (view st')).
  { rewrite Er.
    assert (E4 : sqrt D / 2 * (sqrt D / 2) = D / 4) by nra.
    rewrite E4. unfold D. lra. }
  assert (Hb : - boundingRadius (view st') <= rz <= boundingRadius (view st'))
    by (split; nra).
  split; [now apply Rabs_le|].
  intros Hbig. rewrite project3D_valid. apply Rgtb_true_intro.
  fold rz. rewrite Hd, Ed, <- Er. lra.
Qed.



(** *** Curves of the generator are at least one unit wide *)

Lemma sqrt_ge_1 (x : R) : 1 <= x -> 1 <= sqrt x.
Proof.
  intros Hx. rewrite <- sqrt_1 at 1. apply sqrt_le_1_alt. exact Hx.
Qed.

(** With the origin and a point of x coordinate 1 among the points, the
    bounding radius is at least one half. *)
Lemma radius_at_least_half (preserveView : bool) (st : State) (q : Point3D) :
  In (0, 0, 0) (currentPoints3D (curve st)) ->
  In q (currentPoints3D (curve st)) -> vget q 0 = 1 ->
  1 / 2 <= boundingRadius (view (compute3DBounds preserveView st)).
Proof.
  intros H0 Hq Hqx.
  assert (Hne : currentPoints3D (curve st) <> [])
    by (intros E; rewrite E in H0; destruct H0).
  destruct (compute3DBounds_view preserveView st Hne) as (_ & -> & _).
  cbv zeta beta.
  set (pts := currentPoints3D (curve st)) in *.
  pose proof (lower_fold_bound (map (fun p => vget p 0%nat) pts) 0
                (in_map (fun p => vget p 0%nat) _ _ H0)) as Hlo.
  pose proof (upper_fold_bound (map (fun p => vget p 0%nat) pts) (vget q 0)
                (in_map (fun p => vget p 0%nat) _ _ Hq)) as Hhi.
  rewrite Hqx in Hhi.
  set (lo0 := bound (fold_left lower (map (fun q => vget q 0%nat) pts) _)) in *.
  set (lo1 := bound (fold_left lower (map (fun q => vget q 1%nat) pts) _)) in *.
  set (lo2 := bound (fold_left lower (map (fun q => vget q 2%nat) pts) _)) in *.
  set (hi0 := bound (fold_left upper (map (fun q => vget q 0%nat) pts) _)) in *.
  set (hi1 := bound (fold_left upper (map (fun q => vget q 1%nat) pts) _)) in *.
  set (hi2 := bound (fold_left upper (map (fun q => vget q 2%nat) pts) _)) in *.
  assert (HD : 1 <= (hi0 - lo0) * (hi0 - lo0) + (hi1 - lo1) * (hi1 - lo1)
                    + (hi2 - lo2) * (hi2 - lo2)).
  { pose proof (Rle_0_sqr (hi1 - lo1)) as S1.
    pose proof (Rle_0_sqr (hi2 - lo2)) as S2. unfold Rsqr in S1, S2.
    assert (1 * 1 <= (hi0 - lo0) * (hi0 - lo0))
      by (apply Rmult_le_compat; lra).
    lra. }
  apply sqrt_ge_1 in HD. lra.
Qed.

(** A string that starts with a forward-draw symbol gives 3D points that
    start at the origin and go on with a point of x coordinate 1. *)
Lemma get3DPoints_first_step (ch : ascii) (rest : string)
    (angleDeg twistDeg extrude : R) :
  LSystem.isForward ch = true ->
  exists q added,
    get3DPoints (String ch rest) angleDeg twistDeg extrude
    = (0, 0, 0) :: q :: added
    /\ vget q 0 = 1.
Proof.
  intros Hch. unfold get3DPoints. cbv zeta.
  cbn [list_ascii_of_string fold_left]. unfold step3D at 2.
  unfold LSystem.isForward in Hch. rewrite Hch.
  match goal with
  | |- context [fold_left (step3D ?p ?m ?e) ?l ?w] =>
      destruct (TurtleFacts.walk3D_points p m e l w) as (added & -> & _)
  end.
  cbn [points3 x3 y3 z3 orientation app].
  eexists. exists added. split; [reflexivity|].
  unfold applyMat, identity3. cbn [mget vget]. ring.
Qed.

(** *** No segment of a generated curve is hidden *)

Lemma fold_ops_strokes_in (P : Stroke -> Prop)
    (f : list CanvasOp -> nat -> list CanvasOp)
    (l : list nat) (out : list CanvasOp) :
  (forall out i, In i l ->
     exists s, f out i = out ++ [StrokeLine s] /\ segment s = i /\ P s) ->
  exists strokes,
    fold_left f l out = out ++ map StrokeLine strokes
    /\ map segment strokes = l /\ Forall P strokes.
Proof.
  revert out. induction l as [|i l IH]; intros out Hf; cbn [fold_left].
  - exists []. repeat split; [now rewrite app_nil_r | constructor].
  - destruct (IH (f out i)) as (strokes & -> & Hl & HP);
      [intros out' j Hj; apply Hf; now right|].
    destruct (Hf out i (or_introl eq_refl)) as (s & -> & Hs & HPs).
    exists (s :: strokes). cbn [map]. rewrite <- app_assoc, Hs, Hl.
    repeat split. now constructor.
Qed.

(** Validity and depth of a projection do not depend on the canvas. *)
Lemma project3D_canvas (v : View) (cv cv' : Canvas) (pt : Point3D) :
  valid (project3D v cv pt) = valid (project3D v cv' pt)
  /\ pz (project3D v cv pt) = pz (project3D v cv' pt).
Proof.
  unfold project3D. destruct (viewCenter v) as [[vcx vcy] vcz].
  split; reflexivity.
Qed.

Lemma Rabs_bounds (z r : R) : Rabs z <= r -> - r <= z <= r.
Proof. unfold Rabs. destruct (Rcase_abs z); lra. Qed.

(** For two depths within the bounding radius the depth cue is between
    0.5 and 1.5; the floor of 0.3 is not reached. *)
Lemma depth_cue_range (z1 z2 r : R) :
  0 < r -> Rabs z1 <= r -> Rabs z2 <= r ->
  0.5 <= Rmax 0.3 (1 - (z1 + z2) / 2 / (2 * r)) <= 1.5.
Proof.
  intros Hr H1 H2. apply Rabs_bounds in H1, H2.
  set (q := (z1 + z2) / 2 / (2 * r)).
  assert (Eq : (z1 + z2) / 2 = q * (2 * r)) by (unfold q; field; lra).
  assert (Hq : - (1 / 2) <= q <= 1 / 2) by (split; nra).
  unfold Rmax. destruct (Rle_dec 0.3 (1 - q)); lra.
Qed.

(** When every point projects as valid with a depth within a positive
    bounding radius, the 3D loop strokes every segment below
    [maxSegment], in order, with a line width between 0.5 and 1.5. *)
Lemma draw3D_all_drawn (st : State) (out : list CanvasOp) :
  let pts := currentPoints3D (curve st) in
  (2 <= List.length pts)%nat ->
  0 < boundingRadius (view st) ->
  (forall p, In p pts ->
     valid (project3D (view st) (canvas st) p) = true
     /\ Rabs (pz (project3D (view st) (canvas st) p))
        <= boundingRadius (view st)) ->
  exists strokes,
    draw3D st out = out ++ map StrokeLine strokes
    /\ map segment strokes
       = seq 0 (maxSegmentOf (animationProgress (anim st))
                             (List.length pts - 1))
    /\ Forall (fun s => 0.5 <= lineWidth s <= 1.5) strokes.
Proof.
  intros pts Hlen Hr Hall. unfold draw3D. fold pts.
  apply Nat.ltb_ge in Hlen. rewrite Hlen. apply Nat.ltb_ge in Hlen.
  apply fold_ops_strokes_in. intros out' i Hi. apply in_seq in Hi. cbv zeta.
  pose proof (maxSegmentOf_le (animationProgress (anim st))
                (List.length pts - 1)) as Hmax.
  destruct (Hall (nth i pts (0, 0, 0))) as [V1 D1]; [apply nth_In; lia|].
  destruct (Hall (nth (i + 1) pts (0, 0, 0))) as [V2 D2]; [apply nth_In; lia|].
  rewrite V1, V2. cbn [negb orb].
  eexists. split; [reflexivity|]. split; [reflexivity|].
  cbn [lineWidth]. now apply depth_cue_range.
Qed.

Lemma expand_starts_forward (n : Z) :
  exists ch rest, LSystem.expand n = String ch rest
                  /\ LSystem.isForward ch = true.
Proof.
  pose proof (LSystemMore.alternates_iterate (Z.to_nat n) "F" eq_refl) as H.
  fold (LSystem.expand n) in H.
  destruct (LSystem.expand n) as [|ch rest]; [discriminate H|].
  cbn [list_ascii_of_string LSystemShape.alternates] in H.
  apply andb_true_iff in H as [Hch _]. now exists ch, rest.
Qed.

(** [compute3DBounds] writes the view and nothing else. *)
Lemma compute3DBounds_frame (preserveView : bool) (st : State) :
  let st' := compute3DBounds preserveView st in
  curve st' = curve st /\ canvas st' = canvas st /\ inputs st' = inputs st
  /\ anim st' = anim st /\ palette st' = palette st
  /\ widgets st' = widgets st /\ timers st' = timers st
  /\ lSystemCache st' = lSystemCache st.
Proof.
  cbv zeta. unfold compute3DBounds.
  destruct (Nat.eqb _ 0); [|destruct preserveView]; repeat split.
Qed.

(** What [updateFractal] leaves in 3D mode, with a cache that holds only
    expansions: the points of the expansion for the slider values, and
    the view [compute3DBounds] gives for them. *)
Lemma updateFractal_3D_facts (st : State) :
  enable3dInput_checked (inputs st) = true ->
  LSystem.cache_ok (lSystemCache st) ->
  let pts := get3DPoints (LSystem.expand (iterationInput_value (inputs st)))
               (angleInput_value (inputs st)) (twistInput_value (inputs st))
               (extrudeInput_value (inputs st)) in
  exists st0,
    currentPoints3D (curve st0) = pts
    /\ view (updateFractal st) = view (compute3DBounds true st0)
    /\ currentPoints3D (curve (updateFractal st)) = pts
    /\ inputs (updateFractal st) = inputs st
    /\ width (canvas (updateFractal st)) = width (canvas st)
    /\ height (canvas (updateFractal st)) = height (canvas st).
Proof.
  intros H3D Hok pts. unfold updateFractal. cbv zeta.
  cbn [set_widgets set_anim set_palette inputs lSystemCache anim widgets].
  pose proof (LSystemFacts.generateLSystem_expand (lSystemCache st)
                (iterationInput_value (inputs st)) Hok) as Hstr.
  destruct (LSystem.generateLSystem (lSystemCache st)
              (iterationInput_value (inputs st))) as [str cache].
  cbn [fst] in Hstr. subst str.
  repeat match goal with
         | |- context [inputs (?f ?a ?s)] =>
             change (inputs (f a s)) with (inputs s)
         end.
  rewrite H3D.
  match goal with
  | |- context [compute3DBounds true ?s] => set (st0 := s)
  end.
  exists st0.
  destruct (compute3DBounds_frame true st0) as (Ec & Ecv & Ei & Ea & _).
  cbv zeta in Ec, Ecv, Ei, Ea.
  split; [reflexivity|].
  destruct (negb (isAnimating (anim (compute3DBounds true st0))));
    cbn [draw set_log view curve inputs canvas width height];
    rewrite ?Ec, ?Ecv, ?Ei; repeat split; reflexivity.
Qed.

(** In 3D mode, after [updateFractal] (with a cache that holds only
    expansions, as every cache the page builds does) and however the view
    is rotated or zoomed afterwards, [draw] strokes every segment of the
    curve up to [maxSegment], in order: none is skipped as behind the
    camera, and every line width is between 0.5 and 1.5. *)
Theorem updateFractal_3D_shows_all (st : State) (v' : View) (k : Z) :
  enable3dInput_checked (inputs st) = true ->
  LSystem.cache_ok (lSystemCache st) ->
  let st' := updateFractal st in
  viewCenter v' = viewCenter (view st') ->
  cameraDist v' = cameraDist (view st') ->
  boundingRadius v' = boundingRadius (view st') ->
  exists strokes,
    drawOps (withProgress k (set_view v' st'))
    = ClearRect 0 0 (width (canvas st)) (height (canvas st))
      :: map StrokeLine strokes
    /\ map segment strokes = seq 0 (maxSegmentOf k (totalSegmentsOf st'))
    /\ Forall (fun s => 0.5 <= lineWidth s <= 1.5) strokes.
Proof.
  intros H3D Hok st' Hc Hd Hr.
  destruct (updateFractal_3D_facts st H3D Hok)
    as (st0 & Ep0 & Ev & Ep & Ei & Ew & Eh). cbv zeta in Ep0, Ep. fold st' in Ev, Ep, Ei, Ew, Eh.
  destruct (expand_starts_forward (iterationInput_value (inputs st)))
    as (ch & rest & Eexp & Hch).
  destruct (get3DPoints_first_step ch rest (angleInput_value (inputs st))
              (twistInput_value (inputs st)) (extrudeInput_value (inputs st))
              Hch) as (q & added & Eshape & Hq).
  rewrite <- Eexp in Eshape.
  assert (Hhalf : 1 / 2 <= boundingRadius (view st')).
  { rewrite Ev. apply (radius_at_least_half true st0 q);
      [rewrite Ep0, Eshape; left; reflexivity
      | rewrite Ep0, Eshape; right; left; reflexivity
      | exact Hq]. }
  set (shown := withProgress k (set_view v' st')).
  assert (Epts : currentPoints3D (curve shown)
                 = currentPoints3D (curve st0)) by (rewrite Ep0; exact Ep).
  destruct (draw3D_all_drawn shown
              [ClearRect 0 0 (width (canvas shown)) (height (canvas shown))])
    as (strokes & Hdraw & Hsegs & Hwidth).
  - rewrite Epts, Ep0, Eshape. cbn [List.length]. lia.
  - change (boundingRadius (view shown)) with (boundingRadius v'). lra.
  - intros p Hp. rewrite Epts in Hp.
    change (view shown) with v'.
    change (boundingRadius v') with (boundingRadius v'). rewrite Hr, Ev.
    destruct (bounds_cover_points true st0 v' p Hp) as [Hdepth Hvalid];
      [now rewrite <- Ev | now rewrite <- Ev|].
    destruct (project3D_canvas v' (canvas shown)
                (canvas (compute3DBounds true st0)) p) as [-> ->].
    split; [apply Hvalid; rewrite <- Ev; lra | exact Hdepth].
  - exists strokes. split; [|split; [|exact Hwidth]].
    + unfold drawOps.
      change (inputs shown) with (inputs st'). rewrite Ei, H3D. cbn [negb].
      rewrite Hdraw. change (canvas shown) with (canvas st').
      rewrite Ew, Eh. reflexivity.
    + rewrite Hsegs. unfold totalSegmentsOf. rewrite Ei, H3D.
      change (animationProgress (anim shown)) with k.
      change (currentPoints3D (curve shown))
        with (currentPoints3D (curve st')). reflexivity.
Qed.

Lemma updateFractal_3D_shows_all_witness :
  let st := declared (sampleInputs false false true) 300 150 300 150 in
  let st' := updateFractal st in
  (enable3dInput_checked (inputs st) = true
   /\ LSystem.cache_ok (lSystemCache st))
  /\ exists strokes,
       drawOps (withProgress (-1) (set_view (view st') st'))
       = ClearRect 0 0 300 150 :: map StrokeLine strokes
       /\ map segment strokes = [0; 1; 2; 3]%nat
       /\ Forall (fun s => 0.5 <= lineWidth s <= 1.5) strokes.
Proof.
  cbv zeta.
  assert (Hok : LSystem.cache_ok
                  (lSystemCache
                     (declared (sampleInputs false false true) 300 150 300 150)))
    by (intros k s H; cbn [declared lSystemCache] in H;
        rewrite lookup_empty in H; discriminate H).
  split; [split; [reflexivity | exact Hok]|].
  exact (updateFractal_3D_shows_all
           (declared (sampleInputs false false true) 300 150 300 150)
           (view (updateFractal
                    (declared (sampleInputs false false true) 300 150 300 150)))
           (-1) eq_refl Hok eq_refl eq_refl eq_refl).
Defined.

End CameraMore.

(** ** The 2D drawing fits the canvas *)

Module FitMore.
Import Turtle Colour Page Frames RenderShape PageFacts RenderMore CameraMore.
Local Open Scope list_scope.
Local Open Scope R_scope.

Lemma orOne_pos (d : R) : 0 <= d -> 0 < orOne d.
Proof. intros Hd. unfold orOne. destruct (Req_dec_T d 0); lra. Qed.

(** The scale fits both extents into what is available. *)
Lemma scale_fits (availW availH adjW adjH : R) :
  0 <= availW -> 0 <= availH -> 0 < adjW -> 0 < adjH ->
  let scale := Rmin (availW / adjW) (availH / adjH) in
  0 <= scale /\ adjW * scale <= availW /\ adjH * scale <= availH.
Proof.
  intros HW HH HaW HaH scale.
  assert (HqW : 0 <= availW / adjW)
    by (apply Rmult_le_pos; [lra | left; now apply Rinv_0_lt_compat]).
  assert (HqH : 0 <= availH / adjH)
    by (apply Rmult_le_pos; [lra | left; now apply Rinv_0_lt_compat]).
  assert (EW : adjW * (availW / adjW) = availW) by (field; lra).
  assert (EH : adjH * (availH / adjH) = availH) by (field; lra).
  pose proof (Rmin_l (availW / adjW) (availH / adjH)) as Hl.
  pose proof (Rmin_r (availW / adjW) (availH / adjH)) as Hr.
  fold scale in Hl, Hr.
  assert (H0 : 0 <= scale) by (unfold scale; apply Rmin_glb; assumption).
  repeat split; [exact H0 | |]; nra.
Qed.

(** A coordinate inside the bounds lands inside the margin. *)
Lemma coordinate_fits (lo hi x avail scale : R) :
  lo <= x <= hi -> 0 <= scale ->
  let expand := orOne (hi - lo) * 0.05 in
  let adjMin := lo - expand in
  let adjW := hi + expand - adjMin in
  adjW * scale <= avail ->
  let offset := 20 + (avail - adjW * scale) / 2 in
  20 <= offset + (x - adjMin) * scale <= 20 + avail.
Proof.
  intros Hx Hs expand adjMin adjW Hfit offset.
  pose proof (orOne_pos (hi - lo) ltac:(lra)) as Hw.
  assert (He : 0 < expand) by (unfold expand; lra).
  assert (H1 : 0 <= (x - adjMin) * scale)
    by (apply Rmult_le_pos; [unfold adjMin; lra | exact Hs]).
  assert (H2 : (x - adjMin) * scale <= adjW * scale)
    by (apply Rmult_le_compat_r; [exact Hs | unfold adjW, adjMin; lra]).
  unfold offset. lra.
Qed.

Lemma draw2D_fits (st : State) (out : list CanvasOp) :
  40 <= clientWidth (canvas st) -> 40 <= clientHeight (canvas st) ->
  let Q op := match op with
              | StrokeLine s => insideMargin (canvas st) s
              | ClearRect _ _ _ _ => True
              end in
  Forall Q out -> Forall Q (draw2D st out).
Proof.
  intros HW HH Q Hout. unfold draw2D.
  set (pts := currentPoints2D (curve st)).
  destruct (Nat.ltb _ 2) eqn:Hlen; [exact Hout|]. apply Nat.ltb_ge in Hlen.
  cbv zeta.
  destruct (box2D_fields pts emptyBox) as (E1 & E2 & E3 & E4).
  cbv zeta in E1, E2, E3, E4. rewrite E1, E2, E3, E4.
  cbn [emptyBox minX minY maxX maxY].
  set (loX := bound (fold_left lower (map fst pts) PosInfinity)).
  set (loY := bound (fold_left lower (map snd pts) PosInfinity)).
  set (hiX := bound (fold_left upper (map fst pts) NegInfinity)).
  set (hiY := bound (fold_left upper (map snd pts) NegInfinity)).
  assert (Hbox : forall q, In q pts ->
                   (loX <= fst q <= hiX) /\ (loY <= snd q <= hiY)).
  { intros q Hq. repeat split.
    - apply lower_fold_bound. now apply in_map.
    - apply upper_fold_bound. now apply in_map.
    - apply lower_fold_bound. now apply in_map.
    - apply upper_fold_bound. now apply in_map. }
  assert (Hfirst : In (nth 0 pts (0, 0)) pts) by (apply nth_In; lia).
  destruct (Hbox _ Hfirst) as [HbX HbY].
  pose proof (orOne_pos (hiX - loX) ltac:(lra)) as HwX.
  pose proof (orOne_pos (hiY - loY) ltac:(lra)) as HwY.
  set (adjW := hiX + orOne (hiX - loX) * 0.05 - (loX - orOne (hiX - loX) * 0.05)).
  set (adjH := hiY + orOne (hiY - loY) * 0.05 - (loY - orOne (hiY - loY) * 0.05)).
  set (availW := clientWidth (canvas st) - 2 * 20).
  set (availH := clientHeight (canvas st) - 2 * 20).
  destruct (scale_fits availW availH adjW adjH) as (Hs0 & HsW & HsH);
    [unfold availW; lra | unfold availH; lra | unfold adjW; lra
    | unfold adjH; lra |].
  cbv zeta in Hs0, HsW, HsH.
  set (scale := Rmin (availW / adjW) (availH / adjH)) in *.
  apply fold_ops_Forall_in; [|exact Hout].
  clear out Hout. intros out i Hi Hout. apply in_seq in Hi.
  pose proof (maxSegmentOf_le (animationProgress (anim st))
                (List.length pts - 1)) as Hmax.
  assert (Hp1 : In (nth i pts (0, 0)) pts) by (apply nth_In; lia).
  assert (Hp2 : In (nth (i + 1) pts (0, 0)) pts) by (apply nth_In; lia).
  destruct (Hbox _ Hp1) as [Hx1 Hy1]. destruct (Hbox _ Hp2) as [Hx2 Hy2].
  destruct (nth i pts (0, 0)) as [x1 y1].
  destruct (nth (i + 1) pts (0, 0)) as [x2 y2].
  cbn [fst snd] in Hx1, Hy1, Hx2, Hy2.
  apply Forall_app. split; [exact Hout|].
  constructor; [|constructor]. unfold Q, insideMargin.
  cbn [fromX fromY toX toY].
  pose proof (coordinate_fits loX hiX x1 availW scale Hx1 Hs0 HsW) as F1.
  pose proof (coordinate_fits loX hiX x2 availW scale Hx2 Hs0 HsW) as F2.
  pose proof (coordinate_fits loY hiY y1 availH scale Hy1 Hs0 HsH) as F3.
  pose proof (coordinate_fits loY hiY y2 availH scale Hy2 Hs0 HsH) as F4.
  cbv zeta in F1, F2, F3, F4. fold adjW in F1, F2. fold adjH in F3, F4.
  unfold availW, availH in *. repeat split; lra.
Qed.

(** In 2D mode, on a canvas at least 40 wide and 40 high, every line
    [draw] strokes lies inside the canvas with the margin of 20 on every
    side, whatever the curve and its size. *)
Theorem draw2D_inside_margin (st : State) (s : Stroke) :
  enable3dInput_checked (inputs st) = false ->
  40 <= clientWidth (canvas st) -> 40 <= clientHeight (canvas st) ->
  In (StrokeLine s) (drawOps st) ->
  insideMargin (canvas st) s.
Proof.
  intros H2D HW HH Hin. rewrite (drawOps_2D st H2D) in Hin.
  pose proof (draw2D_fits st
                [ClearRect 0 0 (width (canvas st)) (height (canvas st))]
                HW HH) as Hall.
  cbv zeta in Hall.
  assert (Hclear : Forall
            (fun op => match op with
                       | StrokeLine s => insideMargin (canvas st) s
                       | ClearRect _ _ _ _ => True
                       end)
            [ClearRect 0 0 (width (canvas st)) (height (canvas st))])
    by (constructor; [exact I | constructor]).
  specialize (Hall Hclear). rewrite List.Forall_forall in Hall.
  exact (Hall (StrokeLine s) Hin).
Qed.

Lemma draw2D_inside_margin_witness :
  exists s, In (StrokeLine s) (drawOps (samplePage false false false))
            /\ segment s = 2%nat
            /\ insideMargin (canvas (samplePage false false false)) s.
Proof.
  destruct (draw2D_draws (samplePage false false false)
              [ClearRect 0 0 (width (canvas (samplePage false false false)))
                             (height (canvas (samplePage false false false)))]
              2)
    as (s & Hin & Hseg).
  - change (2 <= 5)%nat. lia.
  - change (2 < 4)%nat. lia.
  - rewrite <- (drawOps_2D (samplePage false false false) eq_refl) in Hin.
    exists s. split; [exact Hin|]. split; [exact Hseg|].
    apply (draw2D_inside_margin (samplePage false false false) s eq_refl);
      [| |exact Hin].
    + change (40 <= 300). lra.
    + change (40 <= 150). lra.
Defined.

End FitMore.

(** ** The animation *)

Module AnimationMore.
Import Turtle Colour Page Frames AnimationShape.
Local Open Scope Z_scope.
Local Open Scope list_scope.

(** *** What the handlers leave alone *)

Lemma sameScene_refl (s : State) : sameScene s s.
Proof. now repeat split. Qed.

Lemma sameScene_trans (s1 s2 s3 : State) :
  sameScene s1 s2 -> sameScene s2 s3 -> sameScene s1 s3.
Proof.
  unfold sameScene.
  intros (A1 & A2 & A3 & A4 & A5 & A6 & A7 & A8)
         (B1 & B2 & B3 & B4 & B5 & B6 & B7 & B8).
  repeat split; etransitivity; eassumption.
Qed.

(** [draw] reads the curve, the palette, the view, the mode, the size of
    the canvas and the progress, and nothing else. *)
Lemma drawOps_ext (s1 s2 : State) :
  sameScene s1 s2 ->
  animationProgress (anim s1) = animationProgress (anim s2) ->
  drawOps s1 = drawOps s2.
Proof.
  destruct s1 as [c1 [p1 r1 t1 v1] pal1 ch1 vw1 i1 w1 [cw1 chh1 ccw1 cch1 l1] ts1 n1].
  destruct s2 as [c2 [p2 r2 t2 v2] pal2 ch2 vw2 i2 w2 [cw2 chh2 ccw2 cch2 l2] ts2 n2].
  unfold sameScene. cbn.
  intros (-> & -> & -> & -> & -> & -> & -> & ->) ->. reflexivity.
Qed.

Lemma draw_frame (st : State) :
  sameScene (draw st) st /\ anim (draw st) = anim st
  /\ widgets (draw st) = widgets st /\ timers (draw st) = timers st
  /\ nextTimerId (draw st) = nextTimerId st
  /\ lSystemCache (draw st) = lSystemCache st
  /\ log (canvas (draw st)) = log (canvas st) ++ drawOps st.
Proof. now repeat split. Qed.

(** [compute3DBounds] writes the view and nothing else, and with
    [preserveView] it keeps the user's zoom. *)
Lemma compute3DBounds_keeps (preserveView : bool) (st : State) :
  let st' := compute3DBounds preserveView st in
  curve st' = curve st /\ canvas st' = canvas st /\ inputs st' = inputs st
  /\ anim st' = anim st /\ palette st' = palette st
  /\ widgets st' = widgets st /\ timers st' = timers st
  /\ nextTimerId st' = nextTimerId st
  /\ lSystemCache st' = lSystemCache st
  /\ (preserveView = true -> userZoom (view st') = userZoom (view st)).
Proof.
  cbv zeta. unfold compute3DBounds.
  destruct (Nat.eqb _ 0); [|destruct preserveView]; repeat split;
    discriminate.
Qed.

(** [updateFractal] keeps the animation flags, the timers, the controls
    and the size of the canvas, and draws only when nothing is animated. *)
Lemma updateFractal_frame (st : State) :
  let st' := updateFractal st in
  (isAnimating (anim st') = isAnimating (anim st)
   /\ animationProgress (anim st') = animationProgress (anim st)
   /\ animationTimer (anim st') = animationTimer (anim st)
   /\ animationSpeed (anim st') = speedInput_value (inputs st))
  /\ (timers st' = timers st /\ nextTimerId st' = nextTimerId st)
  /\ (disabled (widgets st') = disabled (widgets st)
      /\ animateBtn_display (widgets st') = animateBtn_display (widgets st)
      /\ cancelBtn_display (widgets st') = cancelBtn_display (widgets st))
  /\ inputs st' = inputs st
  /\ userZoom (view st') = userZoom (view st)
  /\ log (canvas st')
     = (if isAnimating (anim st) then log (canvas st)
        else log (canvas st) ++ drawOps st')
  /\ width (canvas st') = width (canvas st)
  /\ height (canvas st') = height (canvas st)
  /\ clientWidth (canvas st') = clientWidth (canvas st)
  /\ clientHeight (canvas st') = clientHeight (canvas st).
Proof.
  cbv zeta. unfold updateFractal.
  destruct (LSystem.generateLSystem _ _) as [str cache].
  match goal with
  | |- context [compute3DBounds true ?s] => set (s1 := s)
  end.
  set (s2 := if enable3dInput_checked (inputs s1)
             then compute3DBounds true s1 else s1).
  assert (K : canvas s2 = canvas s1 /\ inputs s2 = inputs s1
              /\ anim s2 = anim s1 /\ widgets s2 = widgets s1
              /\ timers s2 = timers s1 /\ nextTimerId s2 = nextTimerId s1
              /\ userZoom (view s2) = userZoom (view s1)).
  { unfold s2. destruct (enable3dInput_checked (inputs s1)).
    - destruct (compute3DBounds_keeps true s1)
        as (_ & K2 & K3 & K4 & _ & K6 & K7 & K8 & _ & K10).
      cbv zeta in *. repeat split; auto.
    - now repeat split. }
  destruct K as (K1 & K2 & K3 & K4 & K5 & K6 & K7).
  rewrite K3.
  change (isAnimating (anim s1)) with (isAnimating (anim st)).
  destruct (isAnimating (anim st)) eqn:Hrun; cbn [negb].
  - rewrite K1, K2, K3, K4, K5, K6, K7. repeat split; exact Hrun.
  - destruct (draw_frame s2) as (_ & D2 & D3 & D4 & D5 & _ & D7).
    rewrite D2, D3, D4, D5, D7.
    change (inputs (draw s2)) with (inputs s2).
    change (view (draw s2)) with (view s2).
    change (width (canvas (draw s2))) with (width (canvas s2)).
    change (height (canvas (draw s2))) with (height (canvas s2)).
    change (clientWidth (canvas (draw s2))) with (clientWidth (canvas s2)).
    change (clientHeight (canvas (draw s2))) with (clientHeight (canvas s2)).
    rewrite K1, K2, K3, K4, K5, K6, K7.
    assert (E : drawOps (draw s2) = drawOps s2).
    { apply drawOps_ext; [apply draw_frame|]. now rewrite D2. }
    rewrite E. repeat split; exact Hrun.
Qed.

(** The loop over [controlsToDisable] reaches every control. *)
Lemma setDisabled_all (v : bool) (d : Control -> bool) (c : Control) :
  setDisabled v d c = v.
Proof. destruct c; reflexivity. Qed.

(** One call of [animateSegment] while the animation runs: it draws the
    frame of the current progress, then either queues the next call or
    ends the animation and redraws. *)
Lemma animateSegment_spec (use3D : bool) (s : State) :
  isAnimating (anim s) = true ->
  let p := animationProgress (anim s) + 1 in
  let total :=
    Z.of_nat (if use3D then List.length (currentPoints3D (curve s))
              else List.length (currentPoints2D (curve s))) - 1 in
  let s' := animateSegment use3D s in
  (p <= total ->
   anim s' = mkAnimation p true (Some (nextTimerId s)) (animationSpeed (anim s))
   /\ timers s'
      = timers s ++ [mkTimer (nextTimerId s)
                             (1000 / IZR (animationSpeed (anim s)))%R use3D]
   /\ nextTimerId s' = Pos.succ (nextTimerId s)
   /\ widgets s' = widgets s /\ sameScene s' s
   /\ log (canvas s') = log (canvas s) ++ drawOps s)
  /\ (total < p ->
      isAnimating (anim s') = false /\ animationProgress (anim s') = -1
      /\ timers s' = timers s /\ nextTimerId s' = nextTimerId s
      /\ (forall c, disabled (widgets s') c = false)
      /\ animateBtn_display (widgets s') = "inline-block"%string
      /\ cancelBtn_display (widgets s') = "none"%string
      /\ inputs s' = inputs s
      /\ log (canvas s') = (log (canvas s) ++ drawOps s) ++ drawOps s'
      /\ width (canvas s') = width (canvas s)
      /\ height (canvas s') = height (canvas s)).
Proof.
  intros Hrun p total. cbv zeta. unfold animateSegment.
  rewrite Hrun. cbn [negb].
  match goal with
  | |- context [Z.leb ?a ?b] => change b with total; change a with p
  end.
  destruct (Z.leb_spec p total) as [Hle|Hgt].
  - split; [intros _|lia].
    cbn [anim timers nextTimerId widgets set_anim set_timers].
    change (isAnimating (anim (draw s))) with (isAnimating (anim s)).
    rewrite Hrun. repeat split.
  - split; [lia|intros _].
    match goal with
    | |- context [updateFractal ?x] => set (s2 := x)
    end.
    destruct (updateFractal_frame s2)
      as ((U1 & U2 & U3 & U4) & (U5 & U6) & (U7 & U8 & U9) & U10 & _ & U12
          & U13 & U14 & _).
    cbv zeta in *.
    rewrite U1, U2, U5, U6, U7, U8, U9, U10, U12, U13, U14.
    repeat split. intros c. apply setDisabled_all.
Qed.

Lemma get2DPoints_nonempty (str : string) (angleDeg : R) :
  (1 <= List.length (get2DPoints str angleDeg))%nat.
Proof.
  unfold get2DPoints. cbv zeta.
  match goal with
  | |- context [fold_left (step2D ?a) ?l ?t] =>
      destruct (TurtleFacts.walk2D_points a l t) as (added & -> & _)
  end.
  cbn [points2 app List.length]. lia.
Qed.

Lemma get3DPoints_nonempty (str : string) (angleDeg twistDeg extrude : R) :
  (1 <= List.length (get3DPoints str angleDeg twistDeg extrude))%nat.
Proof.
  unfold get3DPoints. cbv zeta.
  match goal with
  | |- context [fold_left (step3D ?p ?m ?e) ?l ?t] =>
      destruct (TurtleFacts.walk3D_points p m e l t) as (added & -> & _)
  end.
  cbn [points3 app List.length]. lia.
Qed.

(** The click handler up to its call of [animateSegment]. *)
Lemma onAnimateClick_armed (st : State) :
  isAnimating (anim st) = false ->
  exists sa,
    onAnimateClick st = animateSegment (enable3dInput_checked (inputs st)) sa
    /\ anim sa = mkAnimation 0 true (animationTimer (anim st))
                             (animationSpeed (anim st))
    /\ (timers sa = timers st /\ nextTimerId sa = nextTimerId st)
    /\ ((forall c, disabled (widgets sa) c = true)
        /\ animateBtn_display (widgets sa) = "none"%string
        /\ cancelBtn_display (widgets sa) = "inline-block"%string)
    /\ (inputs sa = inputs st /\ canvas sa = canvas st
        /\ palette sa = palette st)
    /\ Z.of_nat (if enable3dInput_checked (inputs st)
                 then List.length (currentPoints3D (curve sa))
                 else List.length (currentPoints2D (curve sa))) - 1
       = Z.of_nat (targetSegments st).
Proof.
  intros Hidle. unfold onAnimateClick, targetSegments. rewrite Hidle. cbv zeta.
  destruct (LSystem.generateLSystem _ _) as [finalString cache]. cbn [fst].
  match goal with
  | |- context [compute3DBounds false ?s] => set (s1 := s)
  end.
  change (inputs (set_lSystemCache cache st)) with (inputs st).
  pose proof (get2DPoints_nonempty finalString (angleInput_value (inputs st))).
  pose proof (get3DPoints_nonempty finalString (angleInput_value (inputs st))
                (twistInput_value (inputs st)) (extrudeInput_value (inputs st))).
  destruct (enable3dInput_checked (inputs st)).
  - destruct (compute3DBounds_keeps false s1)
      as (K1 & K2 & K3 & K4 & K5 & K6 & K7 & K8 & _ & _).
    cbv zeta in *.
    eexists. split; [reflexivity|].
    cbn [anim timers nextTimerId widgets inputs canvas palette curve
         set_anim set_widgets disabled animateBtn_display cancelBtn_display].
    rewrite K1, K2, K3, K4, K5, K6, K7, K8.
    repeat split; try apply setDisabled_all.
    cbn [curve s1 set_curve currentPoints3D]. lia.
  - eexists. split; [reflexivity|].
    repeat split; try apply setDisabled_all.
    cbn [curve s1 set_curve set_anim set_widgets currentPoints2D]. lia.
Qed.

(** *** The invariant *)

Lemma animateSegment_consistent (use3D : bool) (s : State) :
  isAnimating (anim s) = true -> timers s = [] ->
  (forall c, disabled (widgets s) c = true) ->
  animateBtn_display (widgets s) = "none"%string ->
  cancelBtn_display (widgets s) = "inline-block"%string ->
  0 <= animationProgress (anim s) ->
  consistent (animateSegment use3D s).
Proof.
  intros Hrun Hts Hdis Ha Hc Hp.
  destruct (animateSegment_spec use3D s Hrun) as [Hgo Hend].
  cbv zeta in Hgo, Hend. unfold consistent.
  match type of Hgo with
  | ?p <= ?total -> _ => destruct (Z.le_gt_cases p total) as [Hle|Hgt]
  end.
  - destruct (Hgo Hle) as (E1 & E2 & _ & E4 & _). rewrite E1. cbn.
    rewrite E2, Hts. split; [|split; [|split; [|split]]].
    + eexists. split; reflexivity.
    + intros c _. rewrite E4. apply Hdis.
    + now rewrite E4.
    + now rewrite E4.
    + lia.
  - destruct (Hend Hgt) as (E1 & E2 & E3 & _ & E5 & _). rewrite E1.
    split; [now rewrite E3|]. split; [|exact E2].
    intros c _. apply E5.
Qed.

Lemma updateFractal_consistent (st : State) :
  consistent st -> consistent (updateFractal st).
Proof.
  destruct (updateFractal_frame st)
    as ((U1 & U2 & U3 & _) & (U5 & _) & (U7 & U8 & U9) & _).
  cbv zeta in *. unfold consistent, allDisabled.
  rewrite U1, U2, U3, U5, U7, U8, U9. exact (fun H => H).
Qed.

Lemma handle_consistent (st : State) (e : Event) :
  consistent st -> consistent (handle st e).
Proof.
  intros Hc. destruct e as [| |id|deltaY|inp]; cbn [handle].
  - (* animate *)
    destruct (isAnimating (anim st)) eqn:Hrun.
    + unfold onAnimateClick. now rewrite Hrun.
    + destruct (onAnimateClick_armed st Hrun)
        as (sa & -> & A1 & (A2 & _) & (A4 & A5 & A6) & _).
      unfold consistent in Hc. rewrite Hrun in Hc. destruct Hc as (Hts & _).
      apply animateSegment_consistent; auto.
      * now rewrite A1.
      * now rewrite A2.
      * rewrite A1. cbn. lia.
  - (* cancel *)
    unfold onCancelClick.
    destruct (isAnimating (anim st)) eqn:Hrun; cbn [negb]; [|exact Hc].
    unfold consistent in Hc. rewrite Hrun in Hc.
    destruct Hc as ((t & Hts & Htimer) & _).
    cbv zeta. cbn [anim set_anim animationTimer]. rewrite Htimer.
    apply updateFractal_consistent. unfold consistent, allDisabled.
    cbn [anim timers widgets set_anim set_widgets set_timers isAnimating
         animationProgress disabled].
    rewrite Hts. unfold clearTimeout. cbn [List.filter].
    rewrite Pos.eqb_refl. cbn [negb].
    repeat split. intros c _. apply setDisabled_all.
  - (* timer *)
    unfold onTimer, consistent in *.
    destruct (isAnimating (anim st)) eqn:Hrun.
    + destruct Hc as ((t & Hts & Htimer) & Hdis & Ha & Hcn & Hp).
      rewrite Hts. cbn [List.find].
      destruct (Pos.eqb (timerId t) id) eqn:Hid.
      * apply animateSegment_consistent; auto.
        -- unfold clearTimeout. cbn [timers set_timers List.filter].
           now rewrite Hid.
        -- intros c. apply Hdis. destruct c; cbn; tauto.
        -- change (0 <= animationProgress (anim st)). lia.
      * rewrite Hrun. repeat split; eauto.
    + destruct Hc as (Hts & Hrest). rewrite Hts. cbn [List.find].
      rewrite Hrun. now split.
  - (* wheel *)
    unfold onWheel. destruct (negb _); exact Hc.
  - (* parameter *)
    apply updateFractal_consistent. exact Hc.
Qed.

Lemma run_consistent (es : list Event) (st : State) :
  consistent st -> consistent (run st es).
Proof.
  unfold run. revert st. induction es as [|e es IH]; intros st Hc; [exact Hc|].
  cbn [fold_left]. apply IH. now apply handle_consistent.
Qed.

Lemma loaded_consistent (inp : Inputs) (w h cw ch : R) :
  consistent (loaded inp w h cw ch).
Proof.
  unfold loaded. apply updateFractal_consistent. now repeat split.
Qed.

(** *** Frames *)

Lemma frames_succ (sa : State) (k : nat) :
  frames sa (k + 1) = frames sa k ++ drawOps (withProgress (Z.of_nat k) sa).
Proof.
  unfold frames. rewrite Nat.add_1_r, seq_S, map_app, concat_app.
  cbn [map concat Nat.add]. now rewrite app_nil_r.
Qed.

Lemma maxSegmentOf_0 (n : nat) : maxSegmentOf 0 n = 0%nat.
Proof. unfold maxSegmentOf. cbn. rewrite Z.min_l by lia. reflexivity. Qed.

(** Frame 0 of an animation is the cleared canvas. *)
Lemma drawOps_progress_0 (s : State) :
  animationProgress (anim s) = 0 ->
  drawOps s = [ClearRect 0 0 (width (canvas s)) (height (canvas s))].
Proof.
  intros Hp. unfold drawOps, draw2D, draw3D. cbv zeta. rewrite Hp.
  rewrite !maxSegmentOf_0.
  destruct (negb _); destruct (Nat.ltb _ 2); reflexivity.
Qed.

Lemma animateSegment_tick (sa : State) (use3D : bool) (N : nat)
    (L : list CanvasOp) (k : nat) (s : State) :
  Z.of_nat (if use3D then List.length (currentPoints3D (curve sa))
            else List.length (currentPoints2D (curve sa))) - 1 = Z.of_nat N ->
  anim s = mkAnimation (Z.of_nat k) true (animationTimer (anim s))
                       (animationSpeed (anim sa)) ->
  timers s = [] -> sameScene s sa ->
  log (canvas s) = L ++ frames sa k ->
  let s' := animateSegment use3D s in
  ((k + 1 <= N)%nat -> playing sa use3D L k s')
  /\ ((N < k + 1)%nat ->
      isAnimating (anim s') = false /\ animationProgress (anim s') = -1
      /\ timers s' = []
      /\ (forall c, disabled (widgets s') c = false)
      /\ animateBtn_display (widgets s') = "inline-block"%string
      /\ cancelBtn_display (widgets s') = "none"%string
      /\ log (canvas s') = L ++ frames sa (k + 1) ++ drawOps s'
      /\ width (canvas s') = width (canvas sa)
      /\ height (canvas s') = height (canvas sa)).
Proof.
  intros Htotal Hanim Hts Hscene Hlog. cbv zeta.
  assert (Hrun : isAnimating (anim s) = true) by now rewrite Hanim.
  assert (Hp : animationProgress (anim s) = Z.of_nat k) by now rewrite Hanim.
  assert (Hv : animationSpeed (anim s) = animationSpeed (anim sa))
    by now rewrite Hanim.
  destruct (animateSegment_spec use3D s Hrun) as [Hgo Hend].
  cbv zeta in Hgo, Hend.
  assert (Hcurve : curve s = curve sa) by apply Hscene.
  rewrite Hcurve, Htotal, Hp in Hgo, Hend.
  assert (Hframe : drawOps s = drawOps (withProgress (Z.of_nat k) sa)).
  { apply drawOps_ext; [|exact Hp].
    destruct Hscene as (S1 & S2 & S3 & S4 & S5 & S6 & S7 & S8).
    now repeat split. }
  split.
  - intros Hk. destruct (Hgo ltac:(lia)) as (E1 & E2 & _ & _ & E5 & E6).
    unfold playing. rewrite E1, E2, E6, Hts, Hv, Hlog, Hframe, frames_succ.
    cbn [animationTimer app]. rewrite <- app_assoc.
    split; [reflexivity|]. split; [eauto|].
    split; [exact (sameScene_trans _ _ _ E5 Hscene) | reflexivity].
  - intros Hk.
    destruct (Hend ltac:(lia)) as (E1 & E2 & E3 & _ & E5 & E6 & E7 & _ & E9
                                   & E10 & E11).
    rewrite E1, E2, E3, E6, E7, E9, E10, E11, Hts, Hlog, Hframe, frames_succ.
    rewrite <- !app_assoc.
    destruct Hscene as (_ & _ & _ & _ & S5 & S6 & _).
    now repeat split.
Qed.

Lemma firePending_playing (sa : State) (use3D : bool) (N : nat)
    (L : list CanvasOp) (k : nat) (s : State) :
  Z.of_nat (if use3D then List.length (currentPoints3D (curve sa))
            else List.length (currentPoints2D (curve sa))) - 1 = Z.of_nat N ->
  playing sa use3D L k s ->
  let s' := firePending s in
  ((k + 2 <= N)%nat -> playing sa use3D L (k + 1) s')
  /\ ((N < k + 2)%nat ->
      isAnimating (anim s') = false /\ animationProgress (anim s') = -1
      /\ timers s' = []
      /\ (forall c, disabled (widgets s') c = false)
      /\ animateBtn_display (widgets s') = "inline-block"%string
      /\ cancelBtn_display (widgets s') = "none"%string
      /\ log (canvas s') = L ++ frames sa (k + 2) ++ drawOps s'
      /\ width (canvas s') = width (canvas sa)
      /\ height (canvas s') = height (canvas sa)).
Proof.
  intros Htotal (Hanim & (id & Hts) & Hscene & Hlog). cbv zeta.
  unfold firePending. rewrite Hts. cbn [handle timerId].
  unfold onTimer. rewrite Hts. cbn [List.find timerId].
  rewrite Pos.eqb_refl. cbn [timerUse3D].
  set (sc := set_timers _ _ s).
  destruct (animateSegment_tick sa use3D N L (k + 1) sc Htotal) as [Hgo Hend].
  - change (anim sc) with (anim s). rewrite Hanim at 1.
    rewrite Nat2Z.inj_add. reflexivity.
  - unfold sc, clearTimeout. cbn [timers set_timers List.filter timerId].
    now rewrite Pos.eqb_refl.
  - exact Hscene.
  - exact Hlog.
  - cbv zeta in Hgo, Hend.
    replace (k + 1 + 1)%nat with (k + 2)%nat in * by lia.
    split; assumption.
Qed.

Lemma frames_ext (s1 s2 : State) (n : nat) :
  sameScene s1 s2 -> frames s1 n = frames s2 n.
Proof.
  intros Hs. unfold frames. f_equal. apply map_ext. intros j.
  apply drawOps_ext; [|reflexivity].
  destruct Hs as (S1 & S2 & S3 & S4 & S5 & S6 & S7 & S8). now repeat split.
Qed.

Lemma afterTicks_succ (k : nat) (s : State) :
  afterTicks (S k) s = firePending (afterTicks k s).
Proof. reflexivity. Qed.

Lemma afterTicks_idle (k : nat) (s : State) :
  timers s = [] -> afterTicks k s = s.
Proof.
  intros Hts. induction k as [|k IH]; [reflexivity|].
  rewrite afterTicks_succ, IH. unfold firePending. now rewrite Hts.
Qed.

Lemma afterTicks_add (j k : nat) (s : State) :
  afterTicks (j + k) s = afterTicks j (afterTicks k s).
Proof. unfold afterTicks. apply Nat.iter_add. Qed.

(** A click on the animate button of an idle page with no timer pending
    plays the whole curve: with [N] the segments of the curve for the
    controls, after the click and [k < N] timer ticks the animation runs,
    [animationProgress] is [k + 1], one timer of delay
    [1000 / animationSpeed] is pending, and the canvas has received the
    frames [0 .. k] in order, frame [j] being [draw] at progress [j]; from
    [N] ticks on the animation is over, nothing is pending, the controls
    are enabled, and the canvas has received the frames [0 .. N] followed
    by one redraw of the final state. *)
Theorem animation_plays_all_frames (st : State) (k : nat) :
  isAnimating (anim st) = false -> timers st = [] ->
  let N := targetSegments st in
  let st0 := onAnimateClick st in
  let stk := afterTicks k st0 in
  ((k < N)%nat ->
   isAnimating (anim stk) = true
   /\ animationProgress (anim stk) = Z.of_nat k + 1
   /\ (exists id,
         timers stk = [mkTimer id (1000 / IZR (animationSpeed (anim st)))%R
                               (enable3dInput_checked (inputs st))])
   /\ log (canvas stk) = log (canvas st) ++ frames st0 (k + 1))
  /\ ((N <= k)%nat ->
      isAnimating (anim stk) = false /\ animationProgress (anim stk) = -1
      /\ timers stk = [] /\ allDisabled false stk
      /\ log (canvas stk)
         = log (canvas st) ++ frames st0 (N + 1) ++ drawOps stk).
Proof.
  intros Hidle Hts N st0 stk.
  destruct (onAnimateClick_armed st Hidle)
    as (sa & Hst0 & A1 & (A2 & _) & _ & (A3 & A4 & _) & Htotal).
  fold N in Htotal. fold st0 in Hst0.
  set (use3D := enable3dInput_checked (inputs st)) in *.
  set (L := log (canvas st)).
  assert (Hv : animationSpeed (anim sa) = animationSpeed (anim st))
    by now rewrite A1.
  (* the click draws frame 0 *)
  destruct (animateSegment_tick sa use3D N L 0 sa Htotal) as [Hgo0 Hend0].
  { now rewrite A1. }
  { now rewrite A2. }
  { apply sameScene_refl. }
  { rewrite A4. unfold frames. cbn. now rewrite app_nil_r. }
  cbv zeta in Hgo0, Hend0. rewrite <- Hst0 in Hgo0, Hend0.
  (* every tick before the last draws the next frame *)
  assert (Hplay : forall j, (j < N)%nat ->
                    playing sa use3D L j (afterTicks j st0)).
  { induction j as [|j IH]; intros Hj.
    - apply Hgo0. lia.
    - rewrite afterTicks_succ.
      replace (S j) with (j + 1)%nat by lia.
      apply (firePending_playing sa use3D N L j _ Htotal); [|lia].
      apply IH. lia. }
  (* the last tick ends the animation *)
  assert (Hdone : let sN := afterTicks N st0 in
                  isAnimating (anim sN) = false
                  /\ animationProgress (anim sN) = -1 /\ timers sN = []
                  /\ (forall c, disabled (widgets sN) c = false)
                  /\ log (canvas sN) = L ++ frames sa (N + 1) ++ drawOps sN
                  /\ width (canvas sN) = width (canvas sa)
                  /\ height (canvas sN) = height (canvas sa)).
  { cbv zeta. destruct N as [|m] eqn:HN.
    - destruct (Hend0 ltac:(lia)) as (E1 & E2 & E3 & E4 & _ & _ & E7 & E8 & E9).
      change (afterTicks 0 st0) with st0. now repeat split.
    - rewrite afterTicks_succ.
      destruct (firePending_playing sa use3D (S m) L m (afterTicks m st0)
                  Htotal (Hplay m ltac:(lia))) as [_ Hend].
      cbv zeta in Hend.
      destruct (Hend ltac:(lia)) as (E1 & E2 & E3 & E4 & _ & _ & E7 & E8 & E9).
      replace (S m + 1)%nat with (m + 2)%nat by lia. now repeat split. }
  cbv zeta in Hdone.
  destruct Hdone as (D1 & D2 & D3 & D4 & D5 & D6 & D7).
  (* the frames as the state after the click shows them *)
  assert (Hframes : forall n, (n <= N + 1)%nat -> frames st0 n = frames sa n).
  { intros n Hn. destruct (Nat.eq_dec N 0%nat) as [HN0|HN0].
    - assert (Hst0N : afterTicks N st0 = st0) by now rewrite HN0.
      rewrite Hst0N in D6, D7.
      assert (Hn' : n = 0%nat \/ n = 1%nat) by lia.
      destruct Hn' as [-> | ->]; [reflexivity|].
      unfold frames. cbn [seq map concat].
      rewrite !drawOps_progress_0 by reflexivity.
      change (canvas (withProgress (Z.of_nat 0) st0)) with (canvas st0).
      change (canvas (withProgress (Z.of_nat 0) sa)) with (canvas sa).
      now rewrite D6, D7.
    - apply frames_ext. apply (Hplay 0%nat). lia. }
  split.
  - intros Hk. destruct (Hplay k Hk) as (P1 & (id & P2) & _ & P4).
    fold stk in P1, P2, P4. rewrite P1. cbn [isAnimating animationProgress].
    rewrite Hframes by lia. rewrite <- Hv.
    split; [reflexivity|]. split; [reflexivity|]. split; [eauto|exact P4].
  - intros Hk.
    assert (Hstk : stk = afterTicks N st0).
    { unfold stk. replace k with ((k - N) + N)%nat by lia.
      rewrite afterTicks_add. now apply afterTicks_idle. }
    rewrite Hstk, Hframes by lia.
    split; [exact D1|]. split; [exact D2|]. split; [exact D3|].
    split; [|exact D5]. intros c _. apply D4.
Qed.

(** The sample page has a curve of four segments: two ticks after the
    click the animation is at progress 3, after four ticks it is over. *)
Lemma animation_plays_all_frames_witness :
  let st := samplePage false false false in
  (isAnimating (anim st) = false /\ timers st = []
   /\ targetSegments st = 4%nat)
  /\ animationProgress (anim (afterTicks 2 (onAnimateClick st))) = 3
  /\ isAnimating (anim (afterTicks 4 (onAnimateClick st))) = false.
Proof.
  cbv zeta. split; [repeat split; reflexivity|]. split.
  - exact (proj1 (proj2 (proj1 (animation_plays_all_frames
                                  (samplePage false false false) 2
                                  eq_refl eq_refl)
                               (le_S 3 3 (le_n 3))))).
  - exact (proj1 (proj2 (animation_plays_all_frames
                           (samplePage false false false) 4
                           eq_refl eq_refl)
                        (le_n 4))).
Defined.

End AnimationMore.

(** ** The session: every listener together *)

Module SessionMore.
Import Turtle Colour Page Frames AnimationShape Session.
Import PageFacts CameraMore AnimationMore.
Local Open Scope R_scope.
Local Open Scope list_scope.

(** *** States that agree on what the renderer tracks *)

Lemma sameModel_refl (s : State) : sameModel s s.
Proof. now repeat split. Qed.

Lemma sameModel_trans (s1 s2 s3 : State) :
  sameModel s1 s2 -> sameModel s2 s3 -> sameModel s1 s3.
Proof.
  intros (A1 & A2 & A3 & A4) (B1 & B2 & B3 & B4).
  repeat split; etransitivity; eassumption.
Qed.

Lemma tiltLimit_pos : 0 < tiltLimit.
Proof. unfold tiltLimit. pose proof PI2_1. lra. Qed.

(** *** Zoom and tilt *)

Lemma viewOK_transfer (s1 s2 : State) :
  sameModel s1 s2 -> viewOK s2 -> viewOK s1.
Proof. intros (_ & _ & E & _). unfold viewOK. now rewrite E. Qed.

Lemma compute3DBounds_rot (preserveView : bool) (st : State) :
  let st' := compute3DBounds preserveView st in
  (rotX (view st') = rotX (view st) /\ userZoom (view st') = userZoom (view st))
  \/ (rotX (view st') = 0 /\ userZoom (view st') = 1).
Proof.
  cbv zeta. unfold compute3DBounds.
  destruct (Nat.eqb _ 0); [|destruct preserveView]; cbn; auto.
Qed.

Lemma viewOK_compute3DBounds (preserveView : bool) (st : State) :
  viewOK st -> viewOK (compute3DBounds preserveView st).
Proof.
  pose proof tiltLimit_pos.
  unfold viewOK.
  destruct (compute3DBounds_rot preserveView st) as [[-> ->]|[-> ->]];
    [tauto | lra].
Qed.

(** What [updateFractal] leaves for the renderer: the cache and the points
    of the call of [generateLSystem], and in 3D mode the view that
    [compute3DBounds] fits to them with the rotation and zoom kept. *)
Lemma updateFractal_model (st : State) :
  let st' := updateFractal st in
  let call := LSystem.generateLSystem (lSystemCache st)
                (iterationInput_value (inputs st)) in
  exists s1,
    lSystemCache st' = snd call
    /\ currentPoints3D (curve st')
       = get3DPoints (fst call) (angleInput_value (inputs st))
           (twistInput_value (inputs st)) (extrudeInput_value (inputs st))
    /\ curve s1 = curve st' /\ view s1 = view st
    /\ inputs st' = inputs st
    /\ view st' = (if enable3dInput_checked (inputs st)
                   then view (compute3DBounds true s1) else view st).
Proof.
  cbv zeta. unfold updateFractal.
  destruct (LSystem.generateLSystem _ _) as [str cache]. cbn [fst snd].
  match goal with
  | |- context [compute3DBounds true ?s] => set (s1 := s)
  end.
  exists s1.
  change (enable3dInput_checked (inputs s1))
    with (enable3dInput_checked (inputs st)).
  destruct (enable3dInput_checked (inputs st)).
  - destruct (compute3DBounds_keeps true s1)
      as (K1 & K2 & K3 & K4 & _ & _ & _ & _ & K9 & _).
    cbv zeta in *.
    destruct (negb _); cbn [draw set_log lSystemCache curve view inputs];
      rewrite ?K1, ?K3, ?K9; repeat split.
  - destruct (negb _); repeat split.
Qed.

Lemma viewOK_updateFractal (st : State) :
  viewOK st -> viewOK (updateFractal st).
Proof.
  intros Hv. destruct (updateFractal_model st) as (s1 & _ & _ & _ & E1 & _ & E2).
  cbv zeta in E2. unfold viewOK. rewrite E2.
  destruct (enable3dInput_checked (inputs st)); [|exact Hv].
  apply (viewOK_compute3DBounds true s1). unfold viewOK. now rewrite E1.
Qed.

(** *** The fitted view *)

(** A state whose view has the centre, radius and camera distance that
    [compute3DBounds] gives for its own points is fitted. *)
Lemma fitted_compute (preserveView : bool) (s s' : State) :
  currentPoints3D (curve s) <> [] ->
  currentPoints3D (curve s') = currentPoints3D (curve s) ->
  viewCenter (view s') = viewCenter (view (compute3DBounds preserveView s)) ->
  boundingRadius (view s')
  = boundingRadius (view (compute3DBounds preserveView s)) ->
  cameraDist (view s') = cameraDist (view (compute3DBounds preserveView s)) ->
  fitted s'.
Proof.
  intros Hne Hpts Hc Hr Hd. unfold fitted. cbv zeta.
  assert (Hne' : currentPoints3D (curve s') <> []) by now rewrite Hpts.
  destruct (compute3DBounds_view preserveView s Hne) as (Ec & Er & Ed & _).
  destruct (compute3DBounds_view true s' Hne') as (Ec' & Er' & Ed' & _).
  cbv zeta beta in Ec, Er, Ed, Ec', Er', Ed'.
  rewrite Hpts in Ec', Er', Ed'.
  rewrite Hc, Hr, Hd, Ec, Er, Ed, Ec', Er', Ed'. now repeat split.
Qed.

Lemma expansion_points (n : Z) (angleDeg twistDeg extrude : R) :
  exists q added,
    get3DPoints (LSystem.expand n) angleDeg twistDeg extrude
    = (0, 0, 0) :: q :: added
    /\ vget q 0 = 1.
Proof.
  destruct (expand_starts_forward n) as (ch & rest & -> & Hch).
  now apply get3DPoints_first_step.
Qed.

Lemma tracked_points (st : State) :
  tracked st ->
  exists q added,
    currentPoints3D (curve st) = (0, 0, 0) :: q :: added /\ vget q 0 = 1.
Proof.
  intros (_ & (n & a & t & e & ->) & _). apply expansion_points.
Qed.

(** [tracked] reads the cache, the points, the mode and the centre, radius
    and camera distance of the view. *)
Lemma tracked_transfer_view (s1 s2 : State) :
  lSystemCache s1 = lSystemCache s2 -> curve s1 = curve s2 ->
  enable3dInput_checked (inputs s1) = enable3dInput_checked (inputs s2) ->
  viewCenter (view s1) = viewCenter (view s2) ->
  boundingRadius (view s1) = boundingRadius (view s2) ->
  cameraDist (view s1) = cameraDist (view s2) ->
  tracked s2 -> tracked s1.
Proof.
  intros E1 E2 E4 Ec Er Ed Ht.
  destruct (tracked_points s2 Ht) as (q & added & Hpts & _).
  destruct Ht as (Hok & Hexp & Hfit).
  unfold tracked. rewrite E1, E2, E4. split; [exact Hok|]. split; [exact Hexp|].
  intros H3D. specialize (Hfit H3D). destruct Hfit as (F1 & F2 & F3).
  cbv zeta in F1, F2, F3.
  apply (fitted_compute true s2 s1); rewrite ?E2, ?Ec, ?Er, ?Ed; auto.
  rewrite Hpts. discriminate.
Qed.

Lemma tracked_transfer (s1 s2 : State) :
  sameModel s1 s2 -> tracked s2 -> tracked s1.
Proof.
  intros (E1 & E2 & E3 & E4).
  apply tracked_transfer_view; auto; now rewrite E3.
Qed.

Lemma tracked_compute3DBounds (preserveView : bool) (st : State) :
  LSystem.cache_ok (lSystemCache st) ->
  (exists n angleDeg twistDeg extrude,
     currentPoints3D (curve st)
     = get3DPoints (LSystem.expand n) angleDeg twistDeg extrude) ->
  tracked (compute3DBounds preserveView st).
Proof.
  intros Hok Hexp.
  destruct (compute3DBounds_keeps preserveView st)
    as (K1 & _ & _ & _ & _ & _ & _ & _ & K9 & _).
  cbv zeta in K1, K9. unfold tracked. rewrite K1, K9.
  split; [exact Hok|]. split; [exact Hexp|]. intros _.
  apply (fitted_compute preserveView st); [|now rewrite K1|reflexivity..].
  destruct Hexp as (n & a & t & e & ->).
  destruct (expansion_points n a t e) as (q & added & -> & _). discriminate.
Qed.

Lemma tracked_updateFractal (st : State) :
  LSystem.cache_ok (lSystemCache st) -> tracked (updateFractal st).
Proof.
  intros Hok.
  destruct (updateFractal_model st) as (s1 & E1 & E2 & E3 & E4 & E5 & E6).
  cbv zeta in E1, E2, E6.
  rewrite (LSystemFacts.generateLSystem_expand _ _ Hok) in E2.
  unfold tracked. rewrite E1, E2, E5.
  split; [now apply LSystemFacts.generateLSystem_cache_ok|].
  split; [eauto|]. intros H3D. rewrite H3D in E6.
  assert (Hpts : currentPoints3D (curve s1)
                 = currentPoints3D (curve (updateFractal st)))
    by now rewrite E3.
  apply (fitted_compute true s1); rewrite ?E6; auto.
  rewrite Hpts, E2.
  destruct (expansion_points (iterationInput_value (inputs st))
              (angleInput_value (inputs st)) (twistInput_value (inputs st))
              (extrudeInput_value (inputs st))) as (q & added & -> & _).
  discriminate.
Qed.

(** *** The animation handlers and the renderer's data *)

(** [animateSegment] returns a state with the cache, curve, view and mode
    it was given, or [updateFractal] of such a state. *)
Lemma animateSegment_model (use3D : bool) (s : State) :
  let s' := animateSegment use3D s in
  sameModel s' s \/ exists s2, sameModel s2 s /\ s' = updateFractal s2.
Proof.
  cbv zeta. unfold animateSegment.
  destruct (negb _); [left; apply sameModel_refl|]. cbv zeta.
  destruct (Z.leb _ _).
  - left. now repeat split.
  - right. eexists. split; [|reflexivity]. now repeat split.
Qed.

Lemma onCancelClick_model (s : State) :
  let s' := onCancelClick s in
  sameModel s' s \/ exists s2, sameModel s2 s /\ s' = updateFractal s2.
Proof.
  cbv zeta. unfold onCancelClick.
  destruct (negb _); [left; apply sameModel_refl|]. cbv zeta.
  right. eexists. split; [|reflexivity].
  cbn [anim set_anim animationTimer].
  destruct (animationTimer (anim s)); now repeat split.
Qed.

(** A property of the renderer's data that [updateFractal] keeps is kept
    by every handler built from it. *)
Lemma kept_through_model (P : State -> Prop) (s s' : State) :
  (forall s1 s2, sameModel s1 s2 -> P s2 -> P s1) ->
  (forall s0, P s0 -> P (updateFractal s0)) ->
  sameModel s' s \/ (exists s2, sameModel s2 s /\ s' = updateFractal s2) ->
  P s -> P s'.
Proof.
  intros Htr Hup [Hsame | (s2 & Hsame & ->)] Hs.
  - now apply (Htr s' s).
  - apply Hup. now apply (Htr s2 s).
Qed.

Lemma tracked_updateFractal' (st : State) :
  tracked st -> tracked (updateFractal st).
Proof. intros (Hok & _). now apply tracked_updateFractal. Qed.

(** The state that the click handler passes to [animateSegment]. *)
Lemma onAnimateClick_model (st : State) :
  isAnimating (anim st) = false ->
  tracked st -> viewOK st ->
  exists sa,
    onAnimateClick st = animateSegment (enable3dInput_checked (inputs st)) sa
    /\ tracked sa /\ viewOK sa.
Proof.
  intros Hidle (Hok & _ & _) Hview. unfold onAnimateClick. rewrite Hidle.
  cbv zeta.
  pose proof (LSystemFacts.generateLSystem_expand (lSystemCache st)
                (iterationInput_value (inputs st)) Hok) as Hexp.
  pose proof (LSystemFacts.generateLSystem_cache_ok (lSystemCache st)
                (iterationInput_value (inputs st)) Hok) as Hok'.
  destruct (LSystem.generateLSystem _ _) as [finalString cache].
  cbn [fst snd] in Hexp, Hok'. subst finalString.
  match goal with
  | |- context [compute3DBounds false ?s] => set (s1 := s)
  end.
  change (inputs (set_lSystemCache cache st)) with (inputs st).
  assert (Hpts : exists n angleDeg twistDeg extrude,
             currentPoints3D (curve s1)
             = get3DPoints (LSystem.expand n) angleDeg twistDeg extrude)
    by (unfold s1; cbn [curve set_curve currentPoints3D]; eauto).
  eexists. split; [reflexivity|].
  destruct (enable3dInput_checked (inputs st)) eqn:H3D.
  - split.
    + apply (tracked_transfer _ (compute3DBounds false s1));
        [now repeat split|].
      now apply tracked_compute3DBounds.
    + apply (viewOK_compute3DBounds false s1). exact Hview.
  - split; [|exact Hview].
    split; [exact Hok'|]. split; [exact Hpts|].
    intros H. change (enable3dInput_checked (inputs st) = true) in H.
    congruence.
Qed.

Lemma kept_transfer (s1 s2 : State) :
  sameModel s1 s2 -> tracked s2 /\ viewOK s2 -> tracked s1 /\ viewOK s1.
Proof.
  intros Hs [Ht Hv]. split; [now apply (tracked_transfer s1 s2)|].
  now apply (viewOK_transfer s1 s2).
Qed.

Lemma kept_updateFractal (st : State) :
  tracked st /\ viewOK st ->
  tracked (updateFractal st) /\ viewOK (updateFractal st).
Proof.
  intros [Ht Hv]. split; [now apply tracked_updateFractal'|].
  now apply viewOK_updateFractal.
Qed.

Lemma onWheel_kept (deltaY : R) (st : State) :
  tracked st /\ viewOK st ->
  tracked (onWheel deltaY st) /\ viewOK (onWheel deltaY st).
Proof.
  intros [Ht Hv]. unfold onWheel. destruct (negb _); [now split|].
  cbv zeta. split.
  - now apply (tracked_transfer_view _ st).
  - destruct Hv as [_ Htilt]. split; [|exact Htilt].
    cbn [draw set_log set_view view userZoom]. split.
    + apply Rmax_l.
    + apply Rmax_lub; [lra | apply Rmin_l].
Qed.

(** The events of the page keep the renderer's data and the limits of
    the view. *)
Lemma handle_kept (st : State) (e : Page.Event) :
  tracked st /\ viewOK st ->
  tracked (Page.handle st e) /\ viewOK (Page.handle st e).
Proof.
  intros Hk. destruct e as [| |id|deltaY|inp]; cbn [Page.handle].
  - destruct (isAnimating (anim st)) eqn:Hrun.
    + unfold onAnimateClick. now rewrite Hrun.
    + destruct Hk as [Ht Hv].
      destruct (onAnimateClick_model st Hrun Ht Hv) as (sa & -> & Hta & Hva).
      apply (kept_through_model (fun s => tracked s /\ viewOK s) sa);
        [exact kept_transfer | exact kept_updateFractal
        | apply animateSegment_model | now split].
  - apply (kept_through_model (fun s => tracked s /\ viewOK s) st);
      [exact kept_transfer | exact kept_updateFractal
      | apply onCancelClick_model | exact Hk].
  - unfold onTimer. destruct (List.find _ _) as [t|]; [|exact Hk].
    match goal with
    | |- context [animateSegment ?u ?x] => set (sc := x)
    end.
    apply (kept_through_model (fun s => tracked s /\ viewOK s) sc);
      [exact kept_transfer | exact kept_updateFractal
      | apply animateSegment_model |].
    apply (kept_transfer sc st); [now repeat split | exact Hk].
  - now apply onWheel_kept.
  - destruct Hk as [(Hok & _) Hv]. split.
    + now apply tracked_updateFractal.
    + now apply viewOK_updateFractal.
Qed.

(** *** The whole session *)

Lemma consistent_transfer (s1 s2 : State) :
  isAnimating (anim s1) = isAnimating (anim s2) ->
  animationProgress (anim s1) = animationProgress (anim s2) ->
  animationTimer (anim s1) = animationTimer (anim s2) ->
  timers s1 = timers s2 -> widgets s1 = widgets s2 ->
  consistent s2 -> consistent s1.
Proof.
  unfold consistent, allDisabled. now intros -> -> -> -> ->.
Qed.

(** The two [if]s of the drag leave the tilt within the limit. *)
Lemma tilt_clamped (r : R) :
  let limit := PI / 2 - 0.01 in
  let r1 := if Rgtb r limit then limit else r in
  let r2 := if Rltb r1 (- limit) then - limit else r1 in
  - tiltLimit <= r2 <= tiltLimit.
Proof.
  pose proof tiltLimit_pos as Hpos. unfold tiltLimit in *. cbv zeta.
  unfold Rgtb, Rltb.
  destruct (Rlt_dec (PI / 2 - 0.01) r);
    match goal with
    | |- context [Rlt_dec ?a ?b] => destruct (Rlt_dec a b)
    end; lra.
Qed.

Ltac light_handler :=
  match goal with
  | Hc : consistent ?st, Ht : tracked ?st, Hv : viewOK ?st |- _ =>
      split; [apply (consistent_transfer _ st); auto; reflexivity|];
      split; [apply (tracked_transfer _ st); auto; now repeat split|];
      apply (viewOK_transfer _ st); auto; now repeat split
  end.

Lemma session_handle_inv (s : Session) (e : Session.Event) :
  inv s -> inv (Session.handle s e).
Proof.
  unfold inv. destruct s as [st drag lx ly]. cbn [page].
  intros (Hc & Ht & Hv).
  destruct e; cbn [Session.handle onPage page].
  - (* page *)
    split; [now apply handle_consistent|]. now apply handle_kept.
  - (* mousedown *)
    unfold onMouseDown. destruct (negb _); cbn [page]; auto.
  - (* mousemove *)
    unfold onMouseMove. destruct (_ || _); cbn [page]; auto.
    cbv zeta. cbn [page lastX lastY].
    split; [apply (consistent_transfer _ st); auto; reflexivity|].
    split; [now apply (tracked_transfer_view _ st)|].
    split; [exact (proj1 Hv)|]. apply tilt_clamped.
  - (* mouseup *)
    auto.
  - (* reset *)
    unfold onResetClick. destruct (enable3dInput_checked _); auto.
    cbv zeta.
    split; [apply (consistent_transfer _ st); auto; reflexivity|].
    split; [now apply (tracked_transfer_view _ st)|].
    pose proof tiltLimit_pos. split; cbn; lra.
  - (* enable 3D *)
    unfold onEnable3dChange. cbv zeta.
    set (st1 := set_inputs _ st).
    change (enable3dInput_checked (inputs st1)) with checked.
    destruct Ht as (Hok & Hexp & Hfit).
    destruct checked.
    + destruct (compute3DBounds_keeps false st1)
        as (_ & _ & _ & K4 & _ & K6 & K7 & _).
      cbv zeta in K4, K6, K7.
      split; [apply (consistent_transfer _ st); auto;
              cbn [draw set_log anim timers widgets]; rewrite ?K4, ?K6, ?K7;
              reflexivity|].
      split.
      * apply (tracked_transfer _ (compute3DBounds false st1));
          [now repeat split|].
        now apply tracked_compute3DBounds.
      * apply (viewOK_transfer _ (compute3DBounds false st1));
          [now repeat split|].
        apply viewOK_compute3DBounds. exact Hv.
    + split; [apply (consistent_transfer _ st); auto; reflexivity|].
      split; [|exact Hv].
      split; [exact Hok|]. split; [exact Hexp|]. discriminate.
  - (* dark mode *)
    unfold onDarkModeChange. light_handler.
  - unfold onColorStartInput. cbv zeta. destruct (negb _); light_handler.
  - unfold onColorEndInput. cbv zeta. destruct (negb _); light_handler.
  - unfold onGradientChange. cbv zeta. destruct (negb _); light_handler.
  - unfold onRainbowChange. cbv zeta. destruct (negb _); light_handler.
  - unfold onSpeedInput. cbv zeta. light_handler.
Qed.

Lemma session_run_inv (es : list Session.Event) (s : Session) :
  inv s -> inv (Session.run s es).
Proof.
  unfold Session.run. revert s.
  induction es as [|e es IH]; intros s Hs; [exact Hs|].
  cbn [fold_left]. apply IH. now apply session_handle_inv.
Qed.

Lemma start_inv (inp : Inputs) (w h cw ch : R) : inv (start inp w h cw ch).
Proof.
  unfold inv, start. cbn [page]. split; [apply loaded_consistent|].
  unfold loaded. split.
  - apply tracked_updateFractal. intros k s.
    cbn [draw set_log declared lSystemCache]. now rewrite lookup_empty.
  - apply viewOK_updateFractal. pose proof tiltLimit_pos.
    split; cbn; lra.
Qed.

Lemma reachable_inv (inp : Inputs) (w h cw ch : R) (es : list Session.Event) :
  inv (Session.run (start inp w h cw ch) es).
Proof. apply session_run_inv, start_inv. Qed.

(** *** The animation in a session *)

(** Whatever events arrive after the page has loaded (clicks on either
    button, timers, wheel turns, slider and colour input, drags, resets,
    toggles), the animation variables, the timer queue and the controls
    stay consistent: while an animation runs exactly the timer of
    [animationTimer] is pending, all controls are disabled, the animate
    button is hidden and the cancel button shown; otherwise no timer is
    pending, all controls are enabled and [animationProgress] is [-1]. *)
Theorem session_stays_consistent
    (inp : Inputs) (w h cw ch : R) (es : list Session.Event) :
  consistent (page (Session.run (start inp w h cw ch) es)).
Proof. apply reachable_inv. Qed.

(** A click on the cancel button, in any state the session can reach,
    leaves the page idle with no timer pending and the controls enabled,
    so that no timer of the cancelled animation can fire afterwards: timer
    events leave the state as it is. If an animation was running, the
    click redraws the canvas once, at progress [-1]. *)
Theorem cancel_stops_animation
    (inp : Inputs) (w h cw ch : R) (es : list Session.Event)
    (ids : list positive) :
  let st := page (Session.run (start inp w h cw ch) es) in
  let st' := Page.handle st CancelClick in
  (isAnimating (anim st') = false /\ animationProgress (anim st') = (-1)%Z
   /\ timers st' = [] /\ allDisabled false st')
  /\ Page.run st' (map TimerFires ids) = st'
  /\ (isAnimating (anim st) = true ->
      log (canvas st') = log (canvas st) ++ drawOps st').
Proof.
  intros st st'.
  assert (Hc : consistent st) by apply reachable_inv.
  assert (Hc' : consistent st') by now apply handle_consistent.
  assert (Hidle : isAnimating (anim st') = false
                  /\ (isAnimating (anim st) = true ->
                      log (canvas st') = log (canvas st) ++ drawOps st')).
  { unfold st'. cbn [Page.handle]. unfold onCancelClick.
    destruct (isAnimating (anim st)) eqn:Hrun; cbn [negb];
      [|split; [exact Hrun | discriminate]].
    cbv zeta.
    match goal with
    | |- context [updateFractal ?x] => set (s2 := x)
    end.
    destruct (updateFractal_frame s2) as ((U1 & _) & _ & _ & _ & _ & U6 & _).
    cbv zeta in U1, U6.
    assert (H2 : isAnimating (anim s2) = false).
    { unfold s2. destruct (animationTimer (anim st)); reflexivity. }
    assert (H3 : log (canvas s2) = log (canvas st)).
    { unfold s2. destruct (animationTimer (anim st)); reflexivity. }
    rewrite H2 in U1, U6. rewrite H3 in U6. split; [exact U1|].
    intros _. exact U6. }
  destruct Hidle as [Hidle Hlog].
  unfold consistent in Hc'. rewrite Hidle in Hc'.
  destruct Hc' as (Hts & Hdis & Hp).
  split; [now repeat split|]. split; [|exact Hlog].
  unfold Page.run. induction ids as [|id ids IH]; [reflexivity|].
  cbn [map fold_left Page.handle]. unfold onTimer at 1. rewrite Hts.
  cbn [List.find]. exact IH.
Qed.

(** *** The 3D view in a session *)

(** With the renderer's data in place, the 3D branch of [draw] strokes
    every segment up to [maxSegment]. *)
Lemma tracked_complete (st : State) :
  tracked st -> enable3dInput_checked (inputs st) = true ->
  exists strokes,
    drawOps st
    = ClearRect 0 0 (width (canvas st)) (height (canvas st))
      :: map StrokeLine strokes
    /\ map segment strokes
       = seq 0 (maxSegmentOf (animationProgress (anim st)) (totalSegmentsOf st))
    /\ Forall (fun s => 0.5 <= lineWidth s <= 1.5) strokes.
Proof.
  intros Ht H3D.
  destruct (tracked_points st Ht) as (q & added & Hpts & Hq).
  destruct Ht as (_ & _ & Hfit). destruct (Hfit H3D) as (Fc & Fr & Fd).
  cbv zeta in Fc, Fr, Fd.
  assert (Hhalf : 1 / 2 <= boundingRadius (view st)).
  { rewrite Fr. apply (radius_at_least_half true st q);
      [rewrite Hpts; left; reflexivity
      | rewrite Hpts; right; left; reflexivity
      | exact Hq]. }
  destruct (draw3D_all_drawn st
              [ClearRect 0 0 (width (canvas st)) (height (canvas st))])
    as (strokes & Hdraw & Hsegs & Hwidth).
  - rewrite Hpts. cbn [List.length]. lia.
  - lra.
  - intros p Hp.
    destruct (bounds_cover_points true st (view st) p Hp Fc Fd)
      as [Hdepth Hvalid].
    destruct (project3D_canvas (view st) (canvas st)
                (canvas (compute3DBounds true st)) p) as [-> ->].
    rewrite Fr. split; [apply Hvalid; rewrite <- Fr; lra | exact Hdepth].
  - exists strokes. split; [|split; [|exact Hwidth]].
    + unfold drawOps. rewrite H3D. cbn [negb]. exact Hdraw.
    + rewrite Hsegs. unfold totalSegmentsOf. now rewrite H3D.
Qed.

(** In 3D mode, in every state the session can reach (any sequence of
    clicks, timers, wheel turns, slider input, drags, resets and toggles
    on a canvas of non-zero size), a call of [draw] clears the canvas and
    strokes every segment of the curve up to [maxSegment], in order: no
    segment is skipped as behind the camera, and every line width is
    between 0.5 and 1.5. *)
Theorem frames_3D_complete
    (inp : Inputs) (w h cw ch : R) (es : list Session.Event) :
  cw <> 0 -> ch <> 0 ->
  let st := page (Session.run (start inp w h cw ch) es) in
  enable3dInput_checked (inputs st) = true ->
  exists strokes,
    drawOps st
    = ClearRect 0 0 (width (canvas st)) (height (canvas st))
      :: map StrokeLine strokes
    /\ map segment strokes
       = seq 0 (maxSegmentOf (animationProgress (anim st)) (totalSegmentsOf st))
    /\ Forall (fun s => 0.5 <= lineWidth s <= 1.5) strokes.
Proof.
  intros _ _ st H3D.
  destruct (reachable_inv inp w h cw ch es) as (_ & Ht & _).
  now apply tracked_complete.
Qed.

(** In every state the session can reach on a canvas of non-zero size,
    the user zoom is within [0.1, 10] and the tilt [rotX] within
    [PI / 2 - 0.01] of level, so its cosine is positive: the view never
    flips over. *)
Theorem view_stays_in_range
    (inp : Inputs) (w h cw ch : R) (es : list Session.Event) :
  cw <> 0 -> ch <> 0 ->
  let v := view (page (Session.run (start inp w h cw ch) es)) in
  0.1 <= userZoom v <= 10
  /\ - (PI / 2 - 0.01) <= rotX v <= PI / 2 - 0.01
  /\ 0 < cos (rotX v).
Proof.
  intros _ _ v.
  destruct (reachable_inv inp w h cw ch es) as (_ & _ & Hz & Htilt).
  fold v in Hz, Htilt. unfold tiltLimit in Htilt.
  split; [exact Hz|]. split; [exact Htilt|].
  apply cos_gt_0; lra.
Qed.

(** *** Dragging *)

(** The projection reads the angles of the view only through the
    rotation matrix. *)
Lemma project3D_rotation (v v' : View) (cv : Canvas) (p : Point3D) :
  viewCenter v' = viewCenter v -> cameraDist v' = cameraDist v ->
  baseZoom v' = baseZoom v -> userZoom v' = userZoom v ->
  getViewRotation v' = getViewRotation v ->
  project3D v' cv p = project3D v cv p.
Proof.
  intros Ec Ed Eb Eu Er. unfold project3D. now rewrite Ec, Ed, Eb, Eu, Er.
Qed.

Lemma draw3D_view (st : State) (v' : View) (out : list CanvasOp) :
  (forall p, project3D v' (canvas st) p = project3D (view st) (canvas st) p) ->
  boundingRadius v' = boundingRadius (view st) ->
  draw3D (set_view v' st) out = draw3D st out.
Proof.
  intros Hproj Hr. unfold draw3D.
  cbn [set_view curve anim palette view canvas].
  destruct (Nat.ltb _ 2); [reflexivity|]. cbv zeta.
  apply fold_ops_ext. intros out' i. now rewrite !Hproj, Hr.
Qed.

Lemma full_turn (x : R) : cos (x + 2 * PI) = cos x /\ sin (x + 2 * PI) = sin x.
Proof.
  pose proof (cos_period x 1) as Hc. pose proof (sin_period x 1) as Hs.
  cbn [INR] in Hc, Hs. rewrite Rmult_1_r in Hc, Hs. now split.
Qed.

(** Dragging the pointer to the right by the full width of the canvas, in
    3D mode with the tilt within its limit, adds a full turn to [rotY] and
    leaves the tilt: over the real numbers the frame that the listener
    draws is the frame [draw] gave before the drag. *)
Theorem drag_across_width_is_full_turn (s : Session) :
  enable3dInput_checked (inputs (page s)) = true ->
  isDragging s = true ->
  clientWidth (canvas (page s)) <> 0 ->
  clientHeight (canvas (page s)) <> 0 ->
  - (PI / 2 - 0.01) <= rotX (view (page s)) <= PI / 2 - 0.01 ->
  let s' := onMouseMove (lastX s + clientWidth (canvas (page s))) (lastY s) s in
  rotY (view (page s')) = rotY (view (page s)) + 2 * PI
  /\ rotX (view (page s')) = rotX (view (page s))
  /\ log (canvas (page s')) = log (canvas (page s)) ++ drawOps (page s).
Proof.
  intros H3D Hdrag Hw Hh Htilt. cbv zeta. unfold onMouseMove.
  rewrite H3D, Hdrag. cbn [negb orb]. cbv zeta.
  set (st := page s) in *. set (v := view st).
  set (cw := clientWidth (canvas st)) in *.
  replace (lastX s + cw - lastX s) with cw by ring.
  replace (lastY s - lastY s) with 0 by ring.
  replace (cw / cw * 2 * PI) with (2 * PI) by (field; exact Hw).
  replace (rotX v + 0 / clientHeight (canvas st) * 2 * PI) with (rotX v)
    by (field; exact Hh).
  assert (E1 : Rgtb (rotX v) (PI / 2 - 0.01) = false).
  { unfold Rgtb. destruct (Rlt_dec _ _); [unfold v in *; lra | reflexivity]. }
  rewrite E1.
  assert (E2 : Rltb (rotX v) (- (PI / 2 - 0.01)) = false).
  { unfold Rltb. destruct (Rlt_dec _ _); [unfold v in *; lra | reflexivity]. }
  rewrite E2. cbn [page].
  split; [reflexivity|]. split; [reflexivity|].
  cbn [draw set_log canvas log set_view]. f_equal.
  unfold drawOps. cbn [set_view inputs canvas]. rewrite H3D. cbn [negb].
  match goal with
  | |- draw3D ?x ?out = _ =>
      change x with (set_view (mkView (viewCenter v) (boundingRadius v) (rotX v)
                                 (rotY v + 2 * PI) (userZoom v) (baseZoom v)
                                 (cameraDist v)) st)
  end.
  apply draw3D_view; [|reflexivity].
  intros p. apply project3D_rotation; try reflexivity.
  unfold getViewRotation. cbn [rotX rotY].
  destruct (full_turn (rotY v)) as [-> ->]. reflexivity.
Qed.

(** A 3D session after a drag, a wheel turn and a click on the animate
    button. *)
Lemma frames_3D_complete_witness :
  let inp := sampleInputs false false true in
  let es := [MouseDown 10 10; MouseMove 40 25; PageEvent (Wheel (-120));
             PageEvent AnimateClick] in
  let st := page (Session.run (start inp 300 150 300 150) es) in
  (300 <> 0 /\ 150 <> 0 /\ enable3dInput_checked (inputs st) = true)
  /\ exists strokes,
       drawOps st
       = ClearRect 0 0 (width (canvas st)) (height (canvas st))
         :: map StrokeLine strokes
       /\ map segment strokes
          = seq 0 (maxSegmentOf (animationProgress (anim st))
                                (totalSegmentsOf st))
       /\ Forall (fun s => 0.5 <= lineWidth s <= 1.5) strokes.
Proof.
  cbv zeta.
  assert (H1 : 300 <> 0) by lra. assert (H2 : 150 <> 0) by lra.
  split; [repeat split; try assumption; reflexivity|].
  exact (frames_3D_complete (sampleInputs false false true) 300 150 300 150
           [MouseDown 10 10; MouseMove 40 25; PageEvent (Wheel (-120));
            PageEvent AnimateClick] H1 H2 eq_refl).
Defined.

(** The sample session in the middle of a drag. *)
Lemma view_stays_in_range_witness :
  let v := view (page sampleDrag) in
  (300 <> 0 /\ 150 <> 0)
  /\ 0.1 <= userZoom v <= 10
  /\ - (PI / 2 - 0.01) <= rotX v <= PI / 2 - 0.01
  /\ 0 < cos (rotX v).
Proof.
  cbv zeta.
  assert (H1 : 300 <> 0) by lra. assert (H2 : 150 <> 0) by lra.
  split; [now split|].
  exact (view_stays_in_range (sampleInputs false false true) 300 150 300 150
           [MouseDown 10 10; MouseMove 40 25] H1 H2).
Defined.

(** On the sample page, 300 wide, with the button pressed at 10: a move
    to 310 is a full turn. *)
Lemma drag_across_width_is_full_turn_witness :
  let s := Session.run (start (sampleInputs false false true) 300 150 300 150)
             [MouseDown 10 10] in
  (enable3dInput_checked (inputs (page s)) = true /\ isDragging s = true
   /\ clientWidth (canvas (page s)) = 300 /\ lastX s = 10)
  /\ rotY (view (page (onMouseMove 310 10 s))) = rotY (view (page s)) + 2 * PI.
Proof.
  cbv zeta. split; [repeat split; reflexivity|].
  pose proof tiltLimit_pos as Hpos. unfold tiltLimit in Hpos.
  set (s := Session.run _ _).
  assert (Hw : clientWidth (canvas (page s)) <> 0)
    by (change (300 <> 0); lra).
  assert (Hh : clientHeight (canvas (page s)) <> 0)
    by (change (150 <> 0); lra).
  assert (Ht : - (PI / 2 - 0.01) <= rotX (view (page s)) <= PI / 2 - 0.01)
    by (change (- (PI / 2 - 0.01) <= 0 <= PI / 2 - 0.01); lra).
  pose proof (drag_across_width_is_full_turn s eq_refl eq_refl Hw Hh Ht) as H.
  cbv zeta in H. destruct H as [H _].
  change (lastX s) with 10 in H. change (lastY s) with 10 in H.
  change (clientWidth (canvas (page s))) with 300 in H at 1.
  replace (10 + 300) with 310 in H by lra. exact H.
Defined.

End SessionMore.

(** ** Number boxes and nudging *)

Module ControlsMore.
Import LSystem Turtle Colour Page Controls.
Import ColourFacts AnimationMore SessionMore.
Local Open Scope R_scope.
Local Open Scope list_scope.

(** *** Two decimals *)

Lemma toFixed2_hundredth (x : R) : hundredth x -> toFixed2 x = x.
Proof.
  intros (k & ->). unfold toFixed2.
  destruct (Rlt_dec (IZR k / 100) 0).
  - replace (- (IZR k / 100) * 100) with (IZR (- k))
      by (rewrite opp_IZR; field).
    rewrite Math_round_IZR, opp_IZR. field.
  - replace (IZR k / 100 * 100) with (IZR k) by field.
    now rewrite Math_round_IZR.
Qed.

Lemma toFixed2_le (x y : R) : x <= y -> toFixed2 x <= toFixed2 y.
Proof.
  intros Hxy. unfold toFixed2.
  assert (H0 : forall z, 0 <= z -> 0 <= IZR (Math_round (z * 100)) / 100).
  { intros z Hz. pose proof (Math_round_le (IZR 0) (z * 100) ltac:(lra)) as H.
    rewrite Math_round_IZR in H. apply IZR_le in H. lra. }
  destruct (Rlt_dec x 0) as [Hx|Hx], (Rlt_dec y 0) as [Hy|Hy].
  - pose proof (Math_round_le (- y * 100) (- x * 100) ltac:(lra)) as H.
    apply IZR_le in H. lra.
  - pose proof (H0 (- x) ltac:(lra)) as H1. pose proof (H0 y ltac:(lra)) as H2.
    lra.
  - lra.
  - pose proof (Math_round_le (x * 100) (y * 100) ltac:(lra)) as H.
    apply IZR_le in H. lra.
Qed.

Lemma Math_round_near (x : R) : - 0.5 <= IZR (Math_round x) - x <= 0.5.
Proof.
  unfold Math_round. pose proof (Zfloor_bound (x + 0.5)). lra.
Qed.

Lemma toFixed2_near (x : R) : Rabs (toFixed2 x - x) <= 0.005.
Proof.
  unfold toFixed2. apply Rabs_le.
  destruct (Rlt_dec x 0).
  - pose proof (Math_round_near (- x * 100)). lra.
  - pose proof (Math_round_near (x * 100)). lra.
Qed.

(** *** Nudging *)

Lemma computeNudgeStep_hundredth (modKeys : Modifiers) :
  hundredth (computeNudgeStep modKeys)
  /\ 0.01 <= computeNudgeStep modKeys <= 1.
Proof.
  unfold computeNudgeStep, hundredth.
  destruct (shiftKey modKeys); [split; [exists 1%Z|]; lra|].
  destruct (altKey modKeys || metaKey modKeys);
    [split; [exists 10%Z|]; lra | split; [exists 100%Z|]; lra].
Qed.

(** A nudge of a control whose value and limits have at most two
    decimals moves the value by exactly one step (1, 0.1 with Alt or Meta,
    0.01 with Shift) in the direction asked, or stops at the limit it
    would cross; the two-decimal rounding changes nothing, and the new
    value is within the limits. *)
Theorem nudge_exact_within_limits
    (el : Element) (dir : R) (modKeys : Modifiers) (v : R) :
  value el = Some v -> hundredth v ->
  hundredth (min el) -> hundredth (max el) -> min el <= max el ->
  dir = 1 \/ dir = -1 ->
  let target := v + dir * computeNudgeStep modKeys in
  exists v',
    value (nudge el dir modKeys) = Some v'
    /\ min el <= v' <= max el
    /\ (min el <= target <= max el -> v' = target)
    /\ (max el < target -> v' = max el)
    /\ (target < min el -> v' = min el).
Proof.
  intros Hv (k & Hk) Hmin Hmax Hle Hdir target.
  destruct (computeNudgeStep_hundredth modKeys) as [(j & Hj) _].
  assert (Ht : hundredth target).
  { unfold target. rewrite Hk, Hj.
    destruct Hdir as [-> | ->].
    - exists (k + j)%Z. rewrite plus_IZR. lra.
    - exists (k - j)%Z. rewrite minus_IZR. lra. }
  unfold nudge. rewrite Hv. cbv zeta. fold target. cbn [value].
  unfold clamp.
  assert (Hc : hundredth (Rmin (max el) (Rmax (min el) target))).
  { unfold Rmin, Rmax.
    destruct (Rle_dec (min el) target);
      match goal with
      | |- context [Rle_dec ?a ?b] => destruct (Rle_dec a b)
      end; assumption. }
  eexists. split; [reflexivity|]. rewrite (toFixed2_hundredth _ Hc).
  unfold Rmin, Rmax.
  destruct (Rle_dec (min el) target);
    match goal with
    | |- context [Rle_dec ?a ?b] => destruct (Rle_dec a b)
    end; repeat split; intros; lra.
Qed.

(** Shift and ArrowUp on 90 degrees, between -360 and 360: 90.01. *)
Lemma nudge_exact_within_limits_witness :
  let el := mkElement (Some 90) (-360) 360 in
  let shift := mkModifiers true false false in
  (value el = Some 90 /\ min el <= max el)
  /\ exists v', value (nudge el 1 shift) = Some v' /\ v' = 90 + 1 * 0.01.
Proof.
  cbv zeta. split; [split; [reflexivity | cbn [min max]; lra]|].
  destruct (nudge_exact_within_limits
              (mkElement (Some 90) (-360) 360)
              1 (mkModifiers true false false) 90 eq_refl)
    as (v' & Hv' & _ & Hin & _).
  - exists 9000%Z. lra.
  - exists (-36000)%Z. cbn [min]. lra.
  - exists 36000%Z. cbn [max]. lra.
  - cbn [min max]. lra.
  - now left.
  - exists v'. split; [exact Hv'|]. apply Hin.
    cbn [min max computeNudgeStep shiftKey]. lra.
Defined.

(** *** Number boxes *)

(** The iteration and speed boxes: a text that [parseInt] cannot read
    leaves the page as it is; otherwise the number read is clamped to the
    limits of the slider. The iteration slider, the iteration label and
    the generated string then are those of the clamped count; the speed
    slider and [animationSpeed] take the clamped speed, and nothing is
    drawn or regenerated. *)
Theorem integer_boxes_parse_and_clamp
    (lim : Limits) (text : string) (st : State) :
  (iterationMin lim <= iterationMax lim)%Z ->
  (speedMin lim <= speedMax lim)%Z ->
  cache_ok (lSystemCache st) ->
  let st1 := onIterationNumberChange lim text st in
  let st2 := onSpeedNumberChange lim text st in
  match parseInt text 10 with
  | None => st1 = st /\ st2 = st
  | Some val =>
      (let n := iterationInput_value (inputs st1) in
       n = Z.max (iterationMin lim) (Z.min (iterationMax lim) val)
       /\ (iterationMin lim <= n <= iterationMax lim)%Z
       /\ currentString (curve st1) = expand n
       /\ iterationValue_textContent (widgets st1) = n)
      /\ (let v := speedInput_value (inputs st2) in
          v = Z.max (speedMin lim) (Z.min (speedMax lim) val)
          /\ (speedMin lim <= v <= speedMax lim)%Z
          /\ animationSpeed (anim st2) = v
          /\ canvas st2 = canvas st /\ curve st2 = curve st)
  end.
Proof.
  intros Hit Hsp Hok. cbv zeta.
  unfold onIterationNumberChange, onSpeedNumberChange.
  destruct (parseInt text 10) as [val|]; [|now split].
  cbv zeta. split.
  - set (n := Z.max (iterationMin lim) (Z.min (iterationMax lim) val)).
    set (s1 := set_inputs _ st).
    destruct (updateFractal_frame s1) as (_ & _ & _ & U & _).
    cbv zeta in U. rewrite U. cbn [s1 set_inputs inputs withIteration
                                   iterationInput_value].
    split; [reflexivity|]. split; [unfold n; lia|].
    unfold updateFractal.
    cbn [s1 set_inputs inputs withIteration iterationInput_value
         set_widgets set_anim set_palette lSystemCache].
    pose proof (LSystemFacts.generateLSystem_expand (lSystemCache st) n Hok)
      as Hexp.
    destruct (generateLSystem (lSystemCache st) n) as [str cache].
    cbn [fst] in Hexp. subst str.
    match goal with
    | |- context [compute3DBounds true ?x] => set (s2 := x)
    end.
    assert (K : curve (if enable3dInput_checked (inputs s2)
                       then compute3DBounds true s2 else s2) = curve s2
                /\ widgets (if enable3dInput_checked (inputs s2)
                            then compute3DBounds true s2 else s2) = widgets s2).
    { destruct (enable3dInput_checked (inputs s2)); [|now split].
      destruct (compute3DBounds_keeps true s2) as (K1 & _ & _ & _ & _ & K6 & _).
      now split. }
    destruct K as [K1 K2].
    destruct (negb _); cbn [draw set_log curve widgets]; rewrite K1, K2;
      now split.
  - cbn [set_anim set_inputs inputs anim canvas curve Session.withSpeed
         speedInput_value animationSpeed].
    repeat split; lia.
Qed.

(** With iterations limited to 0 .. 3, the text [7 times] gives the curve
    of iteration 3. *)
Lemma integer_boxes_parse_and_clamp_witness :
  let lim := mkLimits 0 3 (-360) 360 (-360) 360 0 5 1 240 in
  let st := samplePage false false false in
  let st1 := onIterationNumberChange lim "7 times" st in
  (parseInt "7 times" 10 = Some 7%Z /\ parseInt "seven" 10 = None)
  /\ iterationInput_value (inputs st1) = 3%Z
  /\ currentString (curve st1) = expand 3.
Proof.
  cbv zeta. split; [split; reflexivity|].
  assert (Hok : cache_ok (lSystemCache (samplePage false false false))).
  { destruct (reachable_inv (sampleInputs false false false) 300 150 300 150 [])
      as (_ & (Hok & _) & _).
    exact Hok. }
  pose proof (integer_boxes_parse_and_clamp
                (mkLimits 0 3 (-360) 360 (-360) 360 0 5 1 240) "7 times"
                (samplePage false false false)
                ltac:(cbn; lia) ltac:(cbn; lia) Hok) as H.
  cbv zeta in H. change (parseInt "7 times" 10) with (Some 7%Z) in H.
  destruct H as [(H1 & _ & H3 & _) _]. rewrite H1 in H3.
  split; [exact H1 | exact H3].
Defined.

Lemma toFixed2_is_hundredth (x : R) : hundredth (toFixed2 x).
Proof.
  unfold toFixed2, hundredth. destruct (Rlt_dec x 0).
  - exists (- Math_round (- x * 100))%Z. rewrite opp_IZR. lra.
  - eexists. reflexivity.
Qed.

Lemma clamped_rounded (lo hi val : R) :
  lo <= hi -> hundredth lo -> hundredth hi ->
  let a := toFixed2 (Rmax lo (Rmin hi val)) in
  lo <= a <= hi /\ hundredth a
  /\ (lo <= val <= hi -> Rabs (a - val) <= 0.005).
Proof.
  intros Hle Hlo Hhi. cbv zeta.
  assert (Hc : lo <= Rmax lo (Rmin hi val) <= hi).
  { split; [apply Rmax_l|]. apply Rmax_lub; [exact Hle | apply Rmin_l]. }
  split; [|split; [apply toFixed2_is_hundredth|]].
  - pose proof (toFixed2_le _ _ (proj1 Hc)) as L1.
    pose proof (toFixed2_le _ _ (proj2 Hc)) as L2.
    rewrite (toFixed2_hundredth lo Hlo) in L1.
    rewrite (toFixed2_hundredth hi Hhi) in L2. now split.
  - intros Hin. rewrite Rmin_right, Rmax_right by lra.
    apply toFixed2_near.
Qed.

(** The angle, twist and extrusion boxes: [NaN] leaves the page as it
    is; otherwise the number is clamped to the limits of the slider. Angle
    and twist are then rounded to two decimals, which keeps them within
    limits that have two decimals themselves and moves a number inside the
    limits by at most 0.005. The extrusion slider takes what its own step
    grid makes of the clamped number: that is within the limits when the
    grid keeps numbers of the range in the range, and it is the number
    typed when that number is within the limits and on the grid. *)
Theorem decimal_boxes_clamp_and_round
    (lim : Limits) (sanitize : R -> R) (number : option R) (st : State) :
  angleMin lim <= angleMax lim ->
  hundredth (angleMin lim) -> hundredth (angleMax lim) ->
  twistMin lim <= twistMax lim ->
  hundredth (twistMin lim) -> hundredth (twistMax lim) ->
  extrudeMin lim <= extrudeMax lim ->
  let st1 := onAngleNumberChange lim number st in
  let st2 := onTwistNumberChange lim number st in
  let st3 := onExtrudeNumberChange lim sanitize number st in
  match number with
  | None => st1 = st /\ st2 = st /\ st3 = st
  | Some val =>
      (let a := angleInput_value (inputs st1) in
       angleMin lim <= a <= angleMax lim /\ hundredth a
       /\ (angleMin lim <= val <= angleMax lim -> Rabs (a - val) <= 0.005))
      /\ (let t := twistInput_value (inputs st2) in
          twistMin lim <= t <= twistMax lim /\ hundredth t
          /\ (twistMin lim <= val <= twistMax lim -> Rabs (t - val) <= 0.005))
      /\ (let e := extrudeInput_value (inputs st3) in
          let clamped := Rmax (extrudeMin lim) (Rmin (extrudeMax lim) val) in
          extrudeMin lim <= clamped <= extrudeMax lim
          /\ e = sanitize clamped
          /\ ((forall x, extrudeMin lim <= x <= extrudeMax lim ->
                         extrudeMin lim <= sanitize x <= extrudeMax lim) ->
              extrudeMin lim <= e <= extrudeMax lim)
          /\ (extrudeMin lim <= val <= extrudeMax lim ->
              sanitize val = val -> e = val))
  end.
Proof.
  intros Ha Ha1 Ha2 Ht Ht1 Ht2 He. cbv zeta.
  unfold onAngleNumberChange, onTwistNumberChange, onExtrudeNumberChange.
  destruct number as [val|]; [|now repeat split]. cbv zeta.
  split; [|split].
  - match goal with
    | |- context [updateFractal ?x] =>
        destruct (updateFractal_frame x) as (_ & _ & _ & U & _)
    end.
    cbv zeta in U. rewrite U. cbn [set_inputs inputs withAngle angleInput_value].
    now apply clamped_rounded.
  - match goal with
    | |- context [updateFractal ?x] =>
        destruct (updateFractal_frame x) as (_ & _ & _ & U & _)
    end.
    cbv zeta in U. rewrite U. cbn [set_inputs inputs withTwist twistInput_value].
    now apply clamped_rounded.
  - match goal with
    | |- context [updateFractal ?x] =>
        destruct (updateFractal_frame x) as (_ & _ & _ & U & _)
    end.
    cbv zeta in U. rewrite U.
    cbn [set_inputs inputs withExtrude extrudeInput_value].
    assert (Hc : extrudeMin lim
                 <= Rmax (extrudeMin lim) (Rmin (extrudeMax lim) val)
                 <= extrudeMax lim)
      by (split; [apply Rmax_l | apply Rmax_lub; [exact He | apply Rmin_l]]).
    split; [exact Hc|]. split; [reflexivity|]. split.
    + intros Hgrid. now apply Hgrid.
    + intros Hin Hfix. rewrite Rmin_right, Rmax_right by lra. exact Hfix.
Qed.

(** A slider with steps of one tenth. *)
Lemma tenths_keep_two : IZR (Math_round (2 * 10)) / 10 = 2.
Proof.
  replace (2 * 10) with (IZR 20) by lra. rewrite Math_round_IZR. lra.
Qed.

(** An angle of 400 typed with limits of 360 stays at or below 360, and
    an extrusion of 2 on a slider with steps of one tenth is taken as it
    is. *)
Lemma decimal_boxes_clamp_and_round_witness :
  let lim := mkLimits 0 15 (-360) 360 (-360) 360 0 5 1 240 in
  let tenths := fun x => IZR (Math_round (x * 10)) / 10 in
  let st := samplePage false false false in
  (angleMin lim <= angleMax lim /\ extrudeMin lim <= extrudeMax lim)
  /\ angleInput_value (inputs (onAngleNumberChange lim (Some 400) st)) <= 360
  /\ extrudeInput_value
       (inputs (onExtrudeNumberChange lim tenths (Some 2) st)) = 2.
Proof.
  cbv zeta.
  set (lim := mkLimits 0 15 (-360) 360 (-360) 360 0 5 1 240).
  set (tenths := fun x => IZR (Math_round (x * 10)) / 10).
  assert (H1 : -360 <= 360) by lra. assert (H2 : 0 <= 5) by lra.
  split; [split; assumption|].
  assert (Hlo : hundredth (-360)) by (exists (-36000)%Z; lra).
  assert (Hhi : hundredth 360) by (exists 36000%Z; lra).
  pose proof (decimal_boxes_clamp_and_round lim tenths (Some 400)
                (samplePage false false false) H1 Hlo Hhi H1 Hlo Hhi H2) as Ha.
  pose proof (decimal_boxes_clamp_and_round lim tenths (Some 2)
                (samplePage false false false) H1 Hlo Hhi H1 Hlo Hhi H2) as He.
  cbv zeta in Ha, He.
  destruct Ha as ((Ha & _) & _). destruct He as (_ & _ & _ & _ & _ & He).
  split; [apply Ha|]. apply He.
  - split; cbn [extrudeMin extrudeMax lim]; lra.
  - exact tenths_keep_two.
Defined.

End ControlsMore.

(** ** The 3D picture on the canvas *)

Module ProjectionMore.
Import Turtle Colour Page.
Import RenderShape PageFacts RenderMore CameraMore.
Local Open Scope R_scope.
Local Open Scope list_scope.

(** The view rotation keeps lengths: what [project3D] computes, with the
    rotated offset of the point from the view centre made explicit. *)
Lemma project3D_rotated (v : View) (cv : Canvas) (pt : Point3D) :
  exists rx ry rz,
    (let '(vcx, vcy, vcz) := viewCenter v in
     rx * rx + ry * ry + rz * rz
     = (vget pt 0 - vcx) * (vget pt 0 - vcx)
       + (vget pt 1 - vcy) * (vget pt 1 - vcy)
       + (vget pt 2 - vcz) * (vget pt 2 - vcz))
    /\ px (project3D v cv pt)
       = clientWidth cv / 2
         + rx * (baseZoom v * userZoom v / (cameraDist v - rz))
    /\ py (project3D v cv pt)
       = clientHeight cv / 2
         - ry * (baseZoom v * userZoom v / (cameraDist v - rz))
    /\ pz (project3D v cv pt) = rz.
Proof.
  unfold project3D, getViewRotation.
  destruct (viewCenter v) as [[vcx vcy] vcz]. cbn [px py pz mget vget].
  set (dx := vget pt 0 - vcx). set (dy := vget pt 1 - vcy).
  set (dz := vget pt 2 - vcz).
  do 3 eexists. split; [|split; [reflexivity | split; reflexivity]].
  pose proof (unit_circle (rotX v)) as Hx.
  pose proof (unit_circle (rotY v)) as Hy.
  set (cx := cos (rotX v)) in *. set (sx := sin (rotX v)) in *.
  set (cy := cos (rotY v)) in *. set (sy := sin (rotY v)) in *.
  transitivity (dx * dx * (cy * cy + sy * sy * (cx * cx + sx * sx))
                + dy * dy * (cx * cx + sx * sx)
                + dz * dz * (sy * sy + cy * cy * (cx * cx + sx * sx))
                + 2 * dx * dz * cy * sy * (1 - (cx * cx + sx * sx)));
    [ring|].
  rewrite Hx.
  transitivity (dx * dx * (cy * cy + sy * sy) + dy * dy
                + dz * dz * (cy * cy + sy * sy)); [ring|].
  rewrite Hy. ring.
Qed.

(** The zoom that [compute3DBounds] chooses. *)
Lemma compute3DBounds_zoom (preserveView : bool) (st : State) :
  currentPoints3D (curve st) <> [] ->
  let st' := compute3DBounds preserveView st in
  baseZoom (view st')
  = cameraDist (view st')
    * (0.9 * Rmin (clientWidth (canvas st)) (clientHeight (canvas st)))
    / (2 * boundingRadius (view st')).
Proof.
  intros Hne. cbv zeta. unfold compute3DBounds.
  destruct (currentPoints3D (curve st)) as [|p0 pts] eqn:E; [congruence|].
  cbn [List.length Nat.eqb].
  destruct preserveView; reflexivity.
Qed.

(** Every point lies within the bounding radius of the view centre. *)
Lemma point_in_sphere (preserveView : bool) (st : State) (p : Point3D) :
  let st' := compute3DBounds preserveView st in
  In p (currentPoints3D (curve st)) ->
  let '(vcx, vcy, vcz) := viewCenter (view st') in
  (vget p 0 - vcx) * (vget p 0 - vcx) + (vget p 1 - vcy) * (vget p 1 - vcy)
  + (vget p 2 - vcz) * (vget p 2 - vcz)
  <= boundingRadius (view st') * boundingRadius (view st').
Proof.
  intros st' Hp.
  assert (Hne : currentPoints3D (curve st) <> [])
    by (intros E; rewrite E in Hp; destruct Hp).
  destruct (compute3DBounds_view preserveView st Hne)
    as (Ec & Er & _). cbv zeta beta in Ec, Er. fold st' in Ec, Er.
  set (pts := currentPoints3D (curve st)) in *.
  pose proof (lower_fold_bound _ _ (in_map (fun q => vget q 0%nat) _ _ Hp))
    as Hlo0.
  pose proof (lower_fold_bound _ _ (in_map (fun q => vget q 1%nat) _ _ Hp))
    as Hlo1.
  pose proof (lower_fold_bound _ _ (in_map (fun q => vget q 2%nat) _ _ Hp))
    as Hlo2.
  pose proof (upper_fold_bound _ _ (in_map (fun q => vget q 0%nat) _ _ Hp))
    as Hhi0.
  pose proof (upper_fold_bound _ _ (in_map (fun q => vget q 1%nat) _ _ Hp))
    as Hhi1.
  pose proof (upper_fold_bound _ _ (in_map (fun q => vget q 2%nat) _ _ Hp))
    as Hhi2.
  cbv beta in Hlo0, Hlo1, Hlo2, Hhi0, Hhi1, Hhi2.
  rewrite Ec, Er.
  set (lo0 := bound (fold_left lower (map (fun q => vget q 0%nat) pts) _)) in *.
  set (lo1 := bound (fold_left lower (map (fun q => vget q 1%nat) pts) _)) in *.
  set (lo2 := bound (fold_left lower (map (fun q => vget q 2%nat) pts) _)) in *.
  set (hi0 := bound (fold_left upper (map (fun q => vget q 0%nat) pts) _)) in *.
  set (hi1 := bound (fold_left upper (map (fun q => vget q 1%nat) pts) _)) in *.
  set (hi2 := bound (fold_left upper (map (fun q => vget q 2%nat) pts) _)) in *.
  set (D := (hi0 - lo0) * (hi0 - lo0) + (hi1 - lo1) * (hi1 - lo1)
            + (hi2 - lo2) * (hi2 - lo2)).
  assert (HD : 0 <= D) by (unfold D; nra).
  assert (Hsq : sqrt D * sqrt D = D) by now apply sqrt_sqrt.
  assert (E4 : sqrt D / 2 * (sqrt D / 2) = D / 4) by nra.
  rewrite E4.
  pose proof (centred_square _ _ _ (conj Hlo0 Hhi0)) as H0.
  pose proof (centred_square _ _ _ (conj Hlo1 Hhi1)) as H1.
  pose proof (centred_square _ _ _ (conj Hlo2 Hhi2)) as H2.
  unfold D. lra.
Qed.

(** A point of the screen plane and its depth: with the camera at three
    radii and the zoom of [compute3DBounds], the perspective keeps the
    offset within 0.48 of the depth left to the camera. *)
Lemma perspective_bound (a rz r : R) :
  0 < r -> a * a + rz * rz <= r * r ->
  - (0.48 * (3 * r - rz)) <= 1.35 * a <= 0.48 * (3 * r - rz).
Proof.
  intros Hr Hs.
  pose proof (Rle_0_sqr (0.48 * a - 1.35 * rz)) as H1.
  pose proof (Rle_0_sqr (0.48 * a + 1.35 * rz)) as H2.
  unfold Rsqr in H1, H2.
  split; nra.
Qed.

(** With the view that [compute3DBounds] sets, a zoom of at most 1 and
    any rotation, every point of the curve projects onto the canvas, at
    most 0.48 of the shorter side away from its centre. *)
Lemma projection_inside_canvas (preserveView : bool) (st : State)
    (v' : View) (p : Point3D) :
  let st' := compute3DBounds preserveView st in
  let cv := canvas st in
  let shorter := Rmin (clientWidth cv) (clientHeight cv) in
  In p (currentPoints3D (curve st)) ->
  0 < boundingRadius (view st') -> 0 <= shorter ->
  viewCenter v' = viewCenter (view st') ->
  cameraDist v' = cameraDist (view st') ->
  baseZoom v' = baseZoom (view st') ->
  0 <= userZoom v' ->
  let q := project3D v' cv p in
  Rabs (px q - clientWidth cv / 2) <= 0.48 * userZoom v' * shorter
  /\ Rabs (py q - clientHeight cv / 2) <= 0.48 * userZoom v' * shorter
  /\ (userZoom v' <= 1 ->
      0 <= px q <= clientWidth cv /\ 0 <= py q <= clientHeight cv).
Proof.
  intros st' cv shorter Hp Hr Hshort Hc Hd Hb Hu q.
  assert (Hne : currentPoints3D (curve st) <> [])
    by (intros E; rewrite E in Hp; destruct Hp).
  destruct (compute3DBounds_view preserveView st Hne)
    as (_ & Er & Ed & _). cbv zeta beta in Er, Ed. fold st' in Er, Ed.
  rewrite <- Er in Ed. clear Er.
  pose proof (compute3DBounds_zoom preserveView st Hne) as Ez.
  cbv zeta in Ez. fold st' cv shorter in Ez.
  pose proof (point_in_sphere preserveView st p Hp) as Hsphere.
  cbv zeta in Hsphere. fold st' in Hsphere.
  destruct (project3D_rotated v' cv p) as (rx & ry & rz & Hnorm & Epx & Epy & _).
  fold q in Epx, Epy. rewrite Hc in Hnorm.
  destruct (viewCenter (view st')) as [[vcx vcy] vcz].
  rewrite <- Hnorm in Hsphere. clear Hnorm.
  set (r := boundingRadius (view st')) in *.
  assert (Edist : cameraDist v' = 3 * r).
  { rewrite Hd. exact Ed. }
  assert (Ezoom : baseZoom v' = 1.35 * shorter).
  { rewrite Hb, Ez, Ed. apply Rmult_eq_reg_r with (2 * r); [|lra].
    unfold Rdiv. rewrite Rmult_assoc, Rinv_l by lra. lra. }
  rewrite Ezoom, Edist in Epx, Epy.
  assert (Hrz : rz <= r) by nra.
  set (den := 3 * r - rz) in *.
  assert (Hden : 0 < den) by (unfold den; lra).
  set (K := shorter * userZoom v' / den).
  assert (HK : 0 <= K).
  { unfold K. apply Rmult_le_pos; [nra|].
    apply Rlt_le, Rinv_0_lt_compat, Hden. }
  assert (HKden : den * K = shorter * userZoom v').
  { unfold K. field. lra. }
  assert (Ex : px q - clientWidth cv / 2 = 1.35 * rx * K).
  { rewrite Epx. unfold K. field. lra. }
  assert (Ey : py q - clientHeight cv / 2 = - (1.35 * ry * K)).
  { rewrite Epy. unfold K. field. lra. }
  destruct (perspective_bound rx rz r Hr ltac:(nra)) as [Hx1 Hx2].
  destruct (perspective_bound ry rz r Hr ltac:(nra)) as [Hy1 Hy2].
  fold den in Hx1, Hx2, Hy1, Hy2.
  assert (Bx : - (0.48 * userZoom v' * shorter) <= 1.35 * rx * K
               <= 0.48 * userZoom v' * shorter).
  { pose proof (Rmult_le_compat_r K _ _ HK Hx1).
    pose proof (Rmult_le_compat_r K _ _ HK Hx2). nra. }
  assert (By : - (0.48 * userZoom v' * shorter) <= 1.35 * ry * K
               <= 0.48 * userZoom v' * shorter).
  { pose proof (Rmult_le_compat_r K _ _ HK Hy1).
    pose proof (Rmult_le_compat_r K _ _ HK Hy2). nra. }
  split; [rewrite Ex; apply Rabs_le; exact Bx|].
  split; [rewrite Ey; apply Rabs_le; lra|].
  intros Hu1.
  assert (Hs1 : shorter <= clientWidth cv) by apply Rmin_l.
  assert (Hs2 : shorter <= clientHeight cv) by apply Rmin_r.
  assert (Hus : userZoom v' * shorter <= shorter) by nra.
  split; lra.
Qed.

(** The 3D loop strokes lines between projections of points of the
    curve. *)
Lemma draw3D_fits (st : State) (out : list CanvasOp) :
  (forall p, In p (currentPoints3D (curve st)) ->
     0 <= px (project3D (view st) (canvas st) p) <= clientWidth (canvas st)
     /\ 0 <= py (project3D (view st) (canvas st) p)
        <= clientHeight (canvas st)) ->
  let Q op := match op with
              | StrokeLine s => insideCanvas (canvas st) s
              | ClearRect _ _ _ _ => True
              end in
  Forall Q out -> Forall Q (draw3D st out).
Proof.
  intros Hall Q Hout. unfold draw3D.
  set (pts := currentPoints3D (curve st)) in *.
  destruct (Nat.ltb _ 2) eqn:Hlen; [exact Hout|]. apply Nat.ltb_ge in Hlen.
  cbv zeta. apply fold_ops_Forall_in; [|exact Hout].
  clear out Hout. intros out i Hi Hout. apply in_seq in Hi.
  pose proof (maxSegmentOf_le (animationProgress (anim st))
                (List.length pts - 1)) as Hmax.
  destruct (Hall (nth i pts (0, 0, 0))) as [X1 Y1]; [apply nth_In; lia|].
  destruct (Hall (nth (i + 1) pts (0, 0, 0))) as [X2 Y2]; [apply nth_In; lia|].
  destruct (negb _ || negb _); [exact Hout|].
  apply Forall_app. split; [exact Hout|].
  constructor; [|constructor]. unfold Q, insideCanvas.
  cbn [fromX fromY toX toY]. tauto.
Qed.

(** In 3D mode, once [compute3DBounds] has run on points that do not all
    coincide, and for any rotation of the view and any user zoom from 0 to
    1, both ends of every line [draw] strokes are on the canvas: the
    perspective of a camera at three bounding radii with the base zoom of
    0.9 * 1.5 times the shorter side keeps every point within 0.48 of the
    shorter side of the centre. *)
Theorem draw3D_inside_canvas (preserveView : bool) (st : State)
    (v' : View) (s : Stroke) :
  let st' := compute3DBounds preserveView st in
  enable3dInput_checked (inputs st) = true ->
  0 < boundingRadius (view st') ->
  0 <= clientWidth (canvas st) -> 0 <= clientHeight (canvas st) ->
  viewCenter v' = viewCenter (view st') ->
  cameraDist v' = cameraDist (view st') ->
  baseZoom v' = baseZoom (view st') ->
  0 <= userZoom v' <= 1 ->
  In (StrokeLine s) (drawOps (set_view v' st')) ->
  insideCanvas (canvas st) s.
Proof.
  intros st' H3D Hr Hw Hh Hc Hd Hb Hu Hin.
  destruct (compute3DBounds_frame preserveView st) as (Ec & Ecv & Ei & _).
  cbv zeta in Ec, Ecv, Ei. fold st' in Ec, Ecv, Ei.
  set (shown := set_view v' st') in *.
  unfold drawOps in Hin.
  change (inputs shown) with (inputs st') in Hin.
  rewrite Ei, H3D in Hin. cbn [negb] in Hin.
  assert (Hcv : canvas shown = canvas st) by exact Ecv.
  pose proof (draw3D_fits shown
                [ClearRect 0 0 (width (canvas shown)) (height (canvas shown))])
    as Hall.
  cbv zeta in Hall. rewrite Hcv in Hall.
  assert (Hfit : Forall
            (fun op => match op with
                       | StrokeLine s => insideCanvas (canvas st) s
                       | ClearRect _ _ _ _ => True
                       end)
            (draw3D shown
               [ClearRect 0 0 (width (canvas st)) (height (canvas st))])).
  { apply Hall; [|constructor; [exact I | constructor]].
    intros p Hp. change (currentPoints3D (curve shown))
                   with (currentPoints3D (curve st')) in Hp.
    rewrite Ec in Hp. change (view shown) with v'.
    apply (projection_inside_canvas preserveView st v' p Hp Hr); auto.
    - apply Rmin_glb; assumption.
    - apply Hu.
    - apply Hu. }
  rewrite List.Forall_forall in Hfit. rewrite Hcv in Hin.
  exact (Hfit (StrokeLine s) Hin).
Qed.

Lemma tracked_same_view (s : State) :
  Session.tracked s -> Session.tracked (set_view (view s) s).
Proof.
  intros Ht. now apply (SessionMore.tracked_transfer_view _ s).
Qed.

(** The loaded sample page in 3D keeps what the renderer relies on. *)
Lemma sample3D_tracked : Session.tracked (samplePage false false true).
Proof.
  destruct (SessionMore.reachable_inv (sampleInputs false false true)
              300 150 300 150 []) as (_ & Ht & _).
  exact Ht.
Qed.

Lemma sample3D_total :
  maxSegmentOf
    (animationProgress
       (anim (set_view (view (compute3DBounds true (samplePage false false true)))
                       (compute3DBounds true (samplePage false false true)))))
    (totalSegmentsOf
       (set_view (view (compute3DBounds true (samplePage false false true)))
                 (compute3DBounds true (samplePage false false true))))
  = 4%nat.
Proof. reflexivity. Qed.

Lemma sample3D_stroke :
  exists s,
    In (StrokeLine s)
       (drawOps
          (set_view (view (compute3DBounds true (samplePage false false true)))
                    (compute3DBounds true (samplePage false false true)))).
Proof.
  pose proof sample3D_tracked as Ht.
  pose proof (SessionMore.tracked_compute3DBounds true _ (proj1 Ht)
                (proj1 (proj2 Ht))) as Ht'.
  pose proof (tracked_same_view _ Ht') as Hts.
  destruct (SessionMore.tracked_complete _ Hts eq_refl)
    as (strokes & Hdraw & Hsegs & _).
  rewrite sample3D_total in Hsegs.
  destruct strokes as [|s strokes]; [discriminate Hsegs|].
  exists s. rewrite Hdraw. right; left; reflexivity.
Qed.

Lemma sample3D_radius :
  0 < boundingRadius (view (compute3DBounds true (samplePage false false true))).
Proof.
  destruct (SessionMore.tracked_points _ sample3D_tracked)
    as (q & added & Hpts & Hq).
  apply Rlt_le_trans with (1 / 2); [lra|].
  apply (radius_at_least_half true _ q);
    [rewrite Hpts; left; reflexivity
    | rewrite Hpts; right; left; reflexivity | exact Hq].
Qed.

(** The loaded sample page in 3D: its first segment is drawn inside the
    300 by 150 canvas. *)
Lemma draw3D_inside_canvas_witness :
  let st := samplePage false false true in
  let st' := compute3DBounds true st in
  (enable3dInput_checked (inputs st) = true /\ userZoom (view st') = 1
   /\ clientWidth (canvas st) = 300 /\ clientHeight (canvas st) = 150)
  /\ exists s, In (StrokeLine s) (drawOps (set_view (view st') st'))
               /\ insideCanvas (canvas st) s.
Proof.
  cbv zeta. split; [repeat split; reflexivity|].
  destruct sample3D_stroke as (s & Hin). exists s. split; [exact Hin|].
  refine (draw3D_inside_canvas true (samplePage false false true)
            _ s eq_refl sample3D_radius _ _ eq_refl eq_refl eq_refl _ Hin).
  - change (0 <= 300). lra.
  - change (0 <= 150). lra.
  - change (0 <= 1 <= 1). lra.
Defined.

End ProjectionMore.
